(** * The circular experience buffer of [rls/memories/er_buffer.py]

    A shallow embedding of the class [DataBuffer]: its constructor, [add],
    [sample] and [can_sample], together with the few NumPy operations these
    methods call, and the properties of the buffer stated in the
    specification. *)

From Stdlib Require Import ZArith Lia.
From stdpp Require Import base tactics option list strings.

Local Open Scope Z_scope.

(** ** Python exceptions and the monad of a method call

    A method runs on a mutable world and either returns or raises.  Python
    mutates objects in place, so the world reached when an exception is raised
    is kept: whatever a method wrote before it raised stays written. *)

Inductive exn : Set :=
  | AssertionError
  | ValueError
  | IndexError
  | KeyError
  | ZeroDivisionError.

Inductive result (A : Type) : Type :=
  | Ok (a : A)
  | Raise (e : exn).
Arguments Ok {A} a.
Arguments Raise {A} e.

#[global] Instance exn_eq_dec : EqDecision exn.
Proof. solve_decision. Defined.

#[global] Instance result_ret : MRet result := @Ok.
#[global] Instance result_bind : MBind result := λ A B f r,
  match r with Ok a => f a | Raise e => Raise e end.
#[global] Instance result_fmap : FMap result := λ A B f r,
  match r with Ok a => Ok (f a) | Raise e => Raise e end.

Definition M (S A : Type) : Type := S → result A * S.

#[global] Instance M_ret {S} : MRet (M S) := λ A a s, (Ok a, s).
#[global] Instance M_bind {S} : MBind (M S) := λ A B f m s,
  match m s with
  | (Ok a, s') => f a s'
  | (Raise e, s') => (Raise e, s')
  end.

Definition raise {S A} (e : exn) : M S A := λ s, (Raise e, s).
Definition lift {S A} (r : result A) : M S A := λ s, (r, s).

(** [for x in l: body x] *)
Fixpoint for_each {S A} (l : list A) (body : A → M S unit) : M S unit :=
  match l with
  | [] => mret ()
  | a :: l' => body a ;; for_each l' body
  end.

(** ** Python integers and dictionaries *)

(** [a or b] on an optional integer argument: [None] and [0] are falsy. *)
Definition py_or (a : option Z) (b : Z) : Z :=
  match a with
  | Some v => if v =? 0 then b else v
  | None => b
  end.

(** [a // b] and [a % b]: floor division, the remainder has the sign of the
    divisor, a zero divisor raises. *)
Definition py_floordiv (a b : Z) : result Z :=
  if b =? 0 then Raise ZeroDivisionError else Ok (a / b).
Definition py_mod (a b : Z) : result Z :=
  if b =? 0 then Raise ZeroDivisionError else Ok (a mod b).

(** A [dict] keeps its keys in insertion order; an assignment to a key that
    is present replaces the value where it stands, a new key goes last. *)
Section Dict.
Context {V : Type}.

Fixpoint dict_get (k : string) (d : list (string * V)) : option V :=
  match d with
  | [] => None
  | (k', v) :: d' => if decide (k = k') then Some v else dict_get k d'
  end.

Definition dict_mem (k : string) (d : list (string * V)) : bool :=
  bool_decide (is_Some (dict_get k d)).

Fixpoint dict_set (k : string) (v : V) (d : list (string * V))
  : list (string * V) :=
  match d with
  | [] => [(k, v)]
  | (k', v') :: d' =>
      if decide (k = k') then (k, v) :: d' else (k', v') :: dict_set k v d'
  end.
End Dict.

(** ** NumPy arrays *)

Definition prod_shape (sh : list nat) : nat := foldr Nat.mul 1%nat sh.

(** [l] cut into [k] consecutive pieces of [n] elements. *)
Fixpoint chunks {A} (n k : nat) (l : list A) : list (list A) :=
  match k with
  | O => []
  | S k' => take n l :: chunks n k' (drop n l)
  end.

(** An index into an axis of length [n]: a negative index counts from the
    end, anything outside [-n, n) raises. *)
Definition norm_index (n : nat) (i : Z) : result nat :=
  if bool_decide (0 ≤ i < Z.of_nat n) then Ok (Z.to_nat i)
  else if bool_decide (- Z.of_nat n ≤ i < 0) then Ok (Z.to_nat (i + Z.of_nat n))
  else Raise IndexError.

(** Shape rule of an assignment [dst[...] = src]: leading axes of length one
    that [src] has beyond the rank of [dst] are dropped, a shorter [src]
    shape is completed with axes of length one on the left, and then every
    axis of [src] has the length of the axis of [dst] or length one. *)
Fixpoint strip_ones (extra : nat) (sh : list nat) : list nat :=
  match extra, sh with
  | S e, 1%nat :: sh' => strip_ones e sh'
  | _, _ => sh
  end.

Definition align_shape (src dst : list nat) : list nat :=
  let src' := strip_ones (length src - length dst) src in
  replicate (length dst - length src') 1%nat ++ src'.

Fixpoint broadcastable (src dst : list nat) : bool :=
  match src, dst with
  | [], [] => true
  | s :: src', t :: dst' =>
      (bool_decide (s = t) || bool_decide (s = 1%nat)) && broadcastable src' dst'
  | _, _ => false
  end.

(** The element types of numeric arrays ([bool], the integers, the floats),
    the values they hold, and NumPy's conversion of a value from one element
    type to another, which an assignment applies silently. *)
Class Numeric (DType elem : Type) : Type := {
  #[global] dtype_eq_dec :: EqDecision DType;
  astype : DType → DType → elem → elem
}.

Section Arrays.
Context `{Numeric DType elem}.

Definition convert (src dst : DType) (e : elem) : elem :=
  if decide (src = dst) then e else astype src dst e.

(** A value array: its shape, element type and elements in row-major
    order. *)
Record ndarray : Type := mk_ndarray {
  shape : list nat;
  dtype : DType;
  items : list elem
}.

(** The elements of an array of shape [src] repeated to the shape [dst],
    for shapes of one rank that agree on every axis where [src] is not of
    length one. *)
Fixpoint expand (src dst : list nat) (d : list elem) : list elem :=
  match src, dst with
  | s :: src', t :: dst' =>
      if decide (s = t)
      then concat (expand src' dst' <$> chunks (prod_shape src') s d)
      else concat (replicate t (expand src' dst' d))
  | _, _ => d
  end.

Definition broadcast_to (v : ndarray) (dst : list nat) : result (list elem) :=
  let src := align_shape (shape v) dst in
  if broadcastable src dst then Ok (expand src dst (items v))
  else Raise ValueError.

(** The array [np.empty((n,) + sh, dt)] kept per field: one slot per time
    index.  [np.empty] does not initialise its memory, so a slot that was
    never assigned holds arbitrary values: such a slot is [None], an
    assigned slot holds the [prod_shape sh] elements written to it. *)
Record ring : Type := mk_ring {
  slot_shape : list nat;
  ring_dtype : DType;
  slots : list (option (list elem))
}.

Definition np_empty (n : Z) (sh : list nat) (dt : DType) : result ring :=
  if n <? 0 then Raise ValueError
  else Ok (mk_ring sh dt (replicate (Z.to_nat n) None)).

Definition set_slot (a : ring) (j : nat) (d : list elem) : ring :=
  mk_ring (slot_shape a) (ring_dtype a) (<[j := Some d]> (slots a)).

(** [a[i] = v]: the index is resolved first, then [v] is broadcast to the
    shape of a slot and converted to the element type of [a]. *)
Definition np_setitem (a : ring) (i : Z) (v : ndarray) : result ring :=
  j ← norm_index (length (slots a)) i;
  d ← broadcast_to v (slot_shape a);
  mret (set_slot a j (convert (dtype v) (ring_dtype a) <$> d)).

(** The part of slot [i] that belongs to copy [j], for slots of shape
    [c :: dims]. *)
Definition block (a : ring) (dims : list nat) (i j : nat)
  : option (list elem) :=
  (λ d, take (prod_shape dims) (drop (j * prod_shape dims) d))
    <$> mjoin (slots a !! i).

(** The array [a[(xs, y)]] for integer index arrays [xs] of shape
    [(T, B)] and [y] of shape [(B,)]: entry [(t, b)] is what copy [y[b]]
    holds in time slot [xs[t][b]], and is [None] where that slot was never
    assigned.  The result is a new array, not a view of [a]. *)
Record batch : Type := mk_batch {
  batch_shape : list nat;
  batch_dtype : DType;
  cells : list (list (option (list elem)))
}.

Definition np_getitem (a : ring) (xs : list (list Z)) (y : list Z)
  : result batch :=
  match slot_shape a with
  | [] => Raise IndexError
  | c :: dims =>
      ys ← mapM (norm_index c) y;
      rows ← mapM (mapM (norm_index (length (slots a)))) xs;
      mret (mk_batch (length xs :: length y :: dims) (ring_dtype a)
              ((λ row, zip_with (block a dims) row ys) <$> rows))
  end.
End Arrays.
Arguments ndarray : clear implicits.
Arguments ring : clear implicits.
Arguments batch : clear implicits.

(** Index arithmetic on integer arrays. *)
Definition np_arange (T : Z) : list Z := Z.of_nat <$> seq 0 (Z.to_nat T).

(** [np.tile(col[:, np.newaxis], B)]: shape [(len col, B)]. *)
Definition np_tile (col : list Z) (B : Z) : list (list Z) :=
  (λ t, replicate (Z.to_nat B) t) <$> col.

(** [m + x] for [m] of shape [(T, B)] and [x] of shape [(B,)]. *)
Definition np_add (m : list (list Z)) (x : list Z) : list (list Z) :=
  (λ row : list Z, zip_with Z.add row x) <$> m.

(** [m % n] by an integer [n]: the sign of the divisor; NumPy gives [0] (and
    a warning) for a zero divisor. *)
Definition np_mod (m : list (list Z)) (n : Z) : list (list Z) :=
  (λ row : list Z, (λ v, if n =? 0 then 0 else v mod n) <$> row) <$> m.

(** ** The random source

    [np.random] is a process-wide generator.  Its state is the sequence of
    raw numbers it is still to produce; [randint low high size] takes [size]
    of them, reduces each into [[low, high)] and leaves the rest.  For a
    size of zero it returns the empty array before it looks at the range;
    otherwise it raises for an empty range and for a negative size. *)
Definition rng : Type := nat → Z.

Definition randint (low high size : Z) : M rng (list Z) := λ g,
  if bool_decide (size = 0) then (Ok [], g)
  else if bool_decide (high ≤ low) then (Raise ValueError, g)
  else if bool_decide (size < 0) then (Raise ValueError, g)
  else (Ok ((λ i, low + g i mod (high - low)) <$> seq 0 (Z.to_nat size)),
        λ i, g (i + Z.to_nat size)%nat).

(** ** The buffer *)

(** Modelled from the spec: the record class [Data] of [rls.common.specs],
    which [er_buffer.py] imports and which is not part of the sources at
    hand.  The specification describes it as a structured record exposing a
    flattened view of its fields as name-to-array pairs, rebuilt from such a
    view by [from_nested_dict]; it is taken to be that view. *)
Definition Data (A : Type) : Type := list (string * A).
Definition nested_dict {A} (v : Data A) : list (string * A) := v.
Definition from_nested_dict {A} (d : list (string * A)) : Data A := d.

Section Buffer.
Context `{Numeric DType elem}.

Record DataBuffer : Type := mk_DataBuffer {
  n_copys : Z;
  batch_size : Z;
  buffer_size : Z;
  time_step : Z;
  max_horizon : Z;
  _buffer : list (string * list (string * ring DType elem));
  _horizon_length : Z;
  _pointer : Z
}.

Definition set_buffer (b : list (string * list (string * ring DType elem)))
    (s : DataBuffer) : DataBuffer :=
  mk_DataBuffer (n_copys s) (batch_size s) (buffer_size s) (time_step s)
    (max_horizon s) b (_horizon_length s) (_pointer s).
Definition set_pointer (p : Z) (s : DataBuffer) : DataBuffer :=
  mk_DataBuffer (n_copys s) (batch_size s) (buffer_size s) (time_step s)
    (max_horizon s) (_buffer s) (_horizon_length s) p.
Definition set_horizon_length (h : Z) (s : DataBuffer) : DataBuffer :=
  mk_DataBuffer (n_copys s) (batch_size s) (buffer_size s) (time_step s)
    (max_horizon s) (_buffer s) h (_pointer s).

(** [DataBuffer(n_copys, batch_size, buffer_size, time_step)] *)
Definition init (n_copys batch_size buffer_size time_step : Z)
  : result DataBuffer :=
  max_horizon ← py_floordiv buffer_size n_copys;
  mret (mk_DataBuffer n_copys batch_size buffer_size time_step max_horizon
          [] 0 0).

(** The world of a method call: the buffer object and the generator. *)
Record World : Type := mk_World {
  self : DataBuffer;
  np_random : rng
}.

Definition get_self : M World DataBuffer := λ w, (Ok (self w), w).
Definition update_self (f : DataBuffer → DataBuffer) : M World unit :=
  λ w, (Ok (), mk_World (f (self w)) (np_random w)).
Definition with_random {A} (m : M rng A) : M World A := λ w,
  let '(r, g) := m (np_random w) in (r, mk_World (self w) g).

(** [d[k]] *)
Definition getitem {S V} (k : string) (d : list (string * V)) : M S V :=
  match dict_get k d with
  | Some v => mret v
  | None => raise KeyError
  end.

Definition py_assert {S} (b : bool) : M S unit :=
  if b then mret () else raise AssertionError.

(** [self._buffer[k][_k] = a] *)
Definition buffer_setitem (k _k : string) (a : ring DType elem)
  : M World unit :=
  s ← get_self;
  fields ← getitem k (_buffer s);
  update_self (set_buffer (dict_set k (dict_set _k a fields) (_buffer s))).

(** The body of the inner loop of [add]. *)
Definition add_field (k _k : string) (_v : ndarray DType elem)
  : M World unit :=
  s ← get_self;
  fields ← getitem k (_buffer s);
  (if dict_mem _k fields then mret ()
   else a ← lift (np_empty (max_horizon s) (shape _v) (dtype _v));
        buffer_setitem k _k a) ;;
  s ← get_self;
  fields ← getitem k (_buffer s);
  a ← getitem _k fields;
  a' ← lift (np_setitem a (_pointer s) _v);
  buffer_setitem k _k a'.

(** The body of the outer loop of [add]. *)
Definition add_key (k : string) (v : Data (ndarray DType elem))
  : M World unit :=
  s ← get_self;
  (if dict_mem k (_buffer s) then mret ()
   else update_self (set_buffer (dict_set k [] (_buffer s)))) ;;
  for_each (nested_dict v) (λ '(_k, _v), add_field k _k _v).

(** [add(data)].  The argument is a dict by its type, so the assertion of
    the first line holds. *)
Definition add (data : list (string * Data (ndarray DType elem)))
  : M World unit :=
  for_each data (λ '(k, v), add_key k v) ;;
  s ← get_self;
  p ← lift (py_mod (_pointer s + 1) (max_horizon s));
  update_self (set_pointer p) ;;
  s ← get_self;
  update_self (set_horizon_length
                 (Z.min (_horizon_length s + 1) (max_horizon s))).
End Buffer.
Arguments DataBuffer : clear implicits.
Arguments World : clear implicits.

Section Sampling.
Context `{Numeric DType elem}.

(** The first start index [np.random.randint] may return in [sample]. *)
Definition sample_start (s : DataBuffer DType elem) : Z :=
  if bool_decide (_horizon_length s = max_horizon s)
  then _pointer s - max_horizon s
  else 0.

(** The dict built by the loop over [self._buffer.items()]: a dict has
    distinct keys, so the successive assignments [samples[k] = ...] give
    one entry per entry of the store, in the order of the store. *)
Definition gather (b : list (string * list (string * ring DType elem)))
    (xs : list (list Z)) (y : list Z)
  : result (list (string * Data (batch DType elem))) :=
  mapM (λ '(k, v),
          fields ← mapM (λ '(_k, _v),
                           a ← np_getitem _v xs y; mret (_k, a)) v;
          mret (k, from_nested_dict fields)) b.

Definition sample (batchsize timestep : option Z)
  : M (World DType elem) (list (string * Data (batch DType elem))) :=
  s ← get_self;
  let B := py_or batchsize (batch_size s) in
  let T := py_or timestep (time_step s) in
  py_assert (bool_decide (T ≤ _horizon_length s)) ;;
  let start := sample_start s in
  let end_ := _pointer s - T + 1 in
  x ← with_random (randint start end_ B);
  y ← with_random (randint 0 (n_copys s) B);
  let xs := np_mod (np_add (np_tile (np_arange T) B) x) (_horizon_length s) in
  lift (gather (_buffer s) xs y).

Definition can_sample (s : DataBuffer DType elem) : bool :=
  bool_decide ((_horizon_length s - time_step s) * n_copys s >= batch_size s).

Definition is_multi (s : DataBuffer DType elem) : bool :=
  bool_decide (Z.of_nat (length (_buffer s)) > 2).
End Sampling.

(** ** Notions used to state the properties *)

(** A list of pairs that is a Python [dict]: its keys are distinct. *)
Definition is_dict {V} (d : list (string * V)) : Prop := NoDup d.*1.

Section Notions.
Context `{Numeric DType elem}.
Implicit Types (b : list (string * list (string * ring DType elem))).
Implicit Types (d : list (string * Data (ndarray DType elem))).
Implicit Types (w : World DType elem) (s : DataBuffer DType elem).
Implicit Types (a : ring DType elem) (arr : batch DType elem).
Implicit Types (xs : list (list Z)) (x y : list Z).
Implicit Types (ds : list (list (string * Data (ndarray DType elem)))).
Implicit Types (σ : list (string * list (string * list nat))).

(** [b[k][_k]], when both keys are present. *)
Definition lookup2 {V} (b : list (string * list (string * V)))
    (k _k : string) : option V :=
  dict_get k b ≫= dict_get _k.

Definition all_rings (P : ring DType elem → Prop) b : Prop :=
  Forall (λ kv, Forall (λ fa, P fa.2) kv.2) b.

Definition store_is_dict b : Prop :=
  is_dict b ∧ Forall (λ kv, is_dict kv.2) b.

(** Time slot [i] of [a] has been assigned. *)
Definition written (a : ring DType elem) (i : nat) : Prop :=
  ∃ v, slots a !! i = Some (Some v).

Definition written_at b (k _k : string) (i : nat) : Prop :=
  ∃ a, lookup2 b k _k = Some a ∧ written a i.

(** The leading axis of a slot of [a] has room for [n] copies. *)
Definition has_copies (n : Z) (a : ring DType elem) : Prop :=
  ∃ c dims, slot_shape a = c :: dims ∧ n ≤ Z.of_nat c.

(** The states the methods keep the buffer in: a positive horizon, the
    pointer inside the ring and equal to the fill counter until the ring
    has wrapped, and one slot per time index in every array. *)
Definition wf (s : DataBuffer DType elem) : Prop :=
  0 < max_horizon s ∧
  0 ≤ _pointer s < max_horizon s ∧
  0 ≤ _horizon_length s ≤ max_horizon s ∧
  (_horizon_length s < max_horizon s → _pointer s = _horizon_length s) ∧
  store_is_dict (_buffer s) ∧
  all_rings (λ a, length (slots a) = Z.to_nat (max_horizon s)) (_buffer s).

(** The names and shapes of the fields of a time slice. *)
Definition schema d : list (string * list (string * list nat)) :=
  (λ kv, (kv.1, (λ fa, (fa.1, shape fa.2)) <$> nested_dict kv.2)) <$> d.

(** Every array of the time slice has a leading axis of [n] copies. *)
Definition copies_first (n : Z) d : Prop :=
  Forall (λ kv, Forall (λ fa, ∃ dims, shape fa.2 = Z.to_nat n :: dims)
                  (nested_dict kv.2)) d.

(** [w] with [self._buffer[k][_k] = a] done. *)
Definition put_ring (k _k : string) (a : ring DType elem)
    (w : World DType elem) : World DType elem :=
  match dict_get k (_buffer (self w)) with
  | Some fields =>
      mk_World
        (set_buffer (dict_set k (dict_set _k a fields) (_buffer (self w)))
           (self w))
        (np_random w)
  | None => w
  end.

(** [w] after the test [if k not in self._buffer.keys()] and its branch. *)
Definition ensure_key (k : string) (w : World DType elem)
  : World DType elem :=
  if dict_mem k (_buffer (self w)) then w
  else mk_World (set_buffer (dict_set k [] (_buffer (self w))) (self w))
         (np_random w).

(** The two loops of [add]. *)
Definition write_fields (k : string) (fs : list (string * ndarray DType elem))
  : M (World DType elem) unit :=
  for_each fs (λ '(_k, _v), add_field k _k _v).

Definition write_keys d : M (World DType elem) unit :=
  for_each d (λ '(k, v), add_key k v).

(** What [add] does once its loops have returned. *)
Definition advance (w : World DType elem) : result unit * World DType elem :=
  match py_mod (_pointer (self w) + 1) (max_horizon (self w)) with
  | Raise e => (Raise e, w)
  | Ok p =>
      (Ok (),
       mk_World
         (set_horizon_length
            (Z.min (_horizon_length (self w) + 1) (max_horizon (self w)))
            (set_pointer p (self w)))
         (np_random w))
  end.

(** What the assignment [a[i] = v] stores in slot [i]. *)
Definition stored (a : ring DType elem) (v : ndarray DType elem)
  : list elem :=
  convert (dtype v) (ring_dtype a)
    <$> expand (align_shape (shape v) (slot_shape a)) (slot_shape a) (items v).

(** [w'] differs from [w] in the arrays of the store at most. *)
Definition same_frame (w w' : World DType elem) : Prop :=
  self w' = set_buffer (_buffer (self w')) (self w) ∧
  np_random w' = np_random w.

(** The time slice [d] has a field [_k] under the key [k]. *)
Definition in_slice d (k _k : string) : Prop :=
  ∃ fs, (k, fs) ∈ d ∧ _k ∈ (nested_dict fs).*1.

(** Entry [(t, b)] of a sampled array. *)
Definition cell (arr : batch DType elem) (t b : nat)
  : option (option (list elem)) :=
  cells arr !! t ≫= (.!! b).

(** The start indices and copy indices [sample] draws from the generator
    [g] for a batch of [B] windows of length [T]. *)
Definition drawn_x (s : DataBuffer DType elem) (T B : Z) (g : rng) : list Z :=
  (λ i, sample_start s + g i mod (_pointer s - T + 1 - sample_start s))
    <$> seq 0 (Z.to_nat B).
Definition drawn_y (s : DataBuffer DType elem) (B : Z) (g : rng) : list Z :=
  (λ i, 0 + g (i + Z.to_nat B)%nat mod (n_copys s - 0))
    <$> seq 0 (Z.to_nat B).

(** Every array of the time slice [d] can be assigned to a slot of the array
    the store [b] has for its field, if it has one. *)
Definition fits b d : Prop :=
  ∀ k fs _k _v a,
    (k, fs) ∈ d → (_k, _v) ∈ nested_dict fs → lookup2 b k _k = Some a →
    broadcastable (align_shape (shape _v) (slot_shape a)) (slot_shape a) = true.

Definition slice_is_dict d : Prop :=
  is_dict d ∧ Forall (λ kv, is_dict (nested_dict kv.2)) d.

(** The invariant of the loops of a call [add d] started in [w]. *)
Definition add_inv d w w1 : Prop :=
  same_frame w w1 ∧
  all_rings (λ a, length (slots a) = Z.to_nat (max_horizon (self w)))
    (_buffer (self w1)) ∧
  fits (_buffer (self w1)) d.

(** The array [a[(xs, y)]] when all indices are inside their axes. *)
Definition getitem_result a xs y : batch DType elem :=
  mk_batch (length xs :: length y :: tail (slot_shape a)) (ring_dtype a)
    ((λ row : list Z,
        zip_with (block a (tail (slot_shape a))) (Z.to_nat <$> row)
          (Z.to_nat <$> y)) <$> xs).

Definition gather_result b xs y : list (string * Data (batch DType elem)) :=
  (λ kv : string * list (string * ring DType elem),
     (kv.1,
      from_nested_dict
        ((λ fa : string * ring DType elem,
            (fa.1, getitem_result fa.2 xs y)) <$> kv.2))) <$> b.

(** The result of [sample] has the keys and the fields of the store, in the
    order of the store. *)
Definition same_structure {X Y} (R : X → Y → Prop)
    (b : list (string * list (string * X)))
    (res : list (string * list (string * Y))) : Prop :=
  Forall2 (λ kv kr, kr.1 = kv.1 ∧
             Forall2 (λ fa fr, fr.1 = fa.1 ∧ R fa.2 fr.2) kv.2 kr.2) b res.

(** The time indices [(np.tile(np.arange(T)[:, np.newaxis], B) + x) %
    self._horizon_length]. *)
Definition sample_xs s (T B : Z) (x : list Z) : list (list Z) :=
  np_mod (np_add (np_tile (np_arange T) B) x) (_horizon_length s).

(** The sampled array [arr] holds, for every sample [i] and every step [t]
    of the window, what copy [y[i]] of the array [a] holds in the time slot
    [(x[i] + t) % fill]. *)
Definition window s (T : Z) x y a arr : Prop :=
  ∃ c dims, slot_shape a = c :: dims ∧
    ∀ t i xb yb,
      (t < Z.to_nat T)%nat → x !! i = Some xb → y !! i = Some yb →
      cell arr t i =
        Some (block a dims
                (Z.to_nat ((Z.of_nat t + xb) mod _horizon_length s))
                (Z.to_nat yb)).

(** The sampled array [arr] of the field array [a] has the shape
    [[T, B, *field_dims]] and as many entries. *)
Definition batch_of_shape (T B : Z) a arr : Prop :=
  ∃ c dims, slot_shape a = c :: dims ∧
    batch_shape arr = Z.to_nat T :: Z.to_nat B :: dims ∧
    batch_dtype arr = ring_dtype a ∧
    length (cells arr) = Z.to_nat T ∧
    Forall (λ row, length row = Z.to_nat B) (cells arr).

(** Every entry of the sampled array [arr] is what a copy below [nc] holds
    in an assigned time slot below [n] of the field array [a]. *)
Definition from_written (T B : Z) (n : nat) (nc : Z) a arr : Prop :=
  ∀ t i, (t < Z.to_nat T)%nat → (i < Z.to_nat B)%nat →
    ∃ slot copy v,
      (slot < n)%nat ∧ 0 ≤ copy < nc ∧ written a slot ∧
      block a (tail (slot_shape a)) slot (Z.to_nat copy) = Some v ∧
      cell arr t i = Some (Some v).

Definition in_schema σ (k _k : string) : Prop :=
  ∃ fs, (k, fs) ∈ σ ∧ _k ∈ fs.*1.

(** The buffer after [n] calls of [add] with time slices of the schema [σ]:
    the store has an array for the fields of [σ] and no other, and the first
    [n] slots of every array are assigned. *)
Definition filled σ (nc : Z) (n : nat) s : Prop :=
  wf s ∧ n_copys s = nc ∧
  all_rings (has_copies nc) (_buffer s) ∧
  _horizon_length s = Z.of_nat n ∧
  (∀ k _k a, lookup2 (_buffer s) k _k = Some a →
     in_schema σ k _k ∧ ∀ i, (i < n)%nat → written a i) ∧
  ((0 < n)%nat → ∀ k _k, in_schema σ k _k →
     is_Some (lookup2 (_buffer s) k _k)).

(** The array [a] has [n] slots, none of which, except perhaps slot [p], has
    been assigned. *)
Definition only_slot (n p : nat) a : Prop :=
  length (slots a) = n ∧
  ∀ i, i ≠ p → (i < n)%nat → slots a !! i = Some None.

(** The invariant of a call of [add] started in [w] for a field [(k, _k)]
    the store of [w] has no array for. *)
Definition late_inv w (k _k : string) w1 : Prop :=
  same_frame w w1 ∧
  ∀ a, lookup2 (_buffer (self w1)) k _k = Some a →
       only_slot (Z.to_nat (max_horizon (self w)))
         (Z.to_nat (_pointer (self w))) a.
End Notions.

(** ** Notions for the sampled arrays *)
Section SampledNotions.
Context `{Numeric DType elem}.
Implicit Types (s : DataBuffer DType elem).
Implicit Types (a : ring DType elem) (arr : batch DType elem).
Implicit Types (v : ndarray DType elem).
Implicit Types (d : list (string * Data (ndarray DType elem))).
Implicit Types (ds : list (list (string * Data (ndarray DType elem)))).
Implicit Types (σ : list (string * list (string * list nat))).

(** A value array has as many elements as its shape says. *)
Definition array_ok v : Prop := length (items v) = prod_shape (shape v).

Definition slice_ok d : Prop :=
  Forall (λ kv, Forall (λ fa, array_ok fa.2) (nested_dict kv.2)) d.

(** Every slot of [a] that has been assigned holds as many elements as the
    shape of a slot says. *)
Definition slots_ok a : Prop :=
  ∀ i x, slots a !! i = Some (Some x) → length x = prod_shape (slot_shape a).

(** The part of copy [j] of the elements [x] of a slot whose copies have
    [n] elements each. *)
Definition copy_part (n j : nat) (x : list elem) : list elem :=
  take n (drop (j * n) x).

(** The sampled array [arr] holds, for every sample [i] and every step [t]
    of the window, the part of copy [y[i]] of what the time slot
    [(x[i] + t) % fill] of the array [a] holds, and nothing where that slot
    was never assigned. *)
Definition aligned_window s (T : Z) (x y : list Z) a arr : Prop :=
  ∃ c dims, slot_shape a = c :: dims ∧
    ∀ t i xb yb,
      (t < Z.to_nat T)%nat → x !! i = Some xb → y !! i = Some yb →
      ∃ content,
        slots a !! Z.to_nat ((Z.of_nat t + xb) mod _horizon_length s)
          = Some content ∧
        cell arr t i
          = Some (copy_part (prod_shape dims) (Z.to_nat yb) <$> content).

(** The sampled array [arr] of the field array [a] has the shape
    [[T, B, *field_dims]]: its shape and element type say so, it has [T]
    rows of [B] entries, and every entry that holds values holds as many as
    [field_dims] says. *)
Definition has_shape (T B : Z) a arr : Prop :=
  ∃ c dims, slot_shape a = c :: dims ∧
    batch_shape arr = Z.to_nat T :: Z.to_nat B :: dims ∧
    batch_dtype arr = ring_dtype a ∧
    length (cells arr) = Z.to_nat T ∧
    Forall (λ row,
              length row = Z.to_nat B ∧
              Forall (λ e, ∀ x, e = Some x → length x = prod_shape dims) row)
      (cells arr).

(** Every entry of the sampled array [arr] is the part of a copy below [nc]
    of what an assigned time slot below [n] of the field array [a] holds. *)
Definition from_slots (T B : Z) (n : nat) (nc : Z) a arr : Prop :=
  ∀ t i, (t < Z.to_nat T)%nat → (i < Z.to_nat B)%nat →
    ∃ slot copy x,
      (slot < n)%nat ∧ 0 ≤ copy < nc ∧
      slots a !! slot = Some (Some x) ∧
      cell arr t i
        = Some (Some (copy_part (prod_shape (tail (slot_shape a)))
                        (Z.to_nat copy) x)).

(** Time slices with the same fields: each has the fields of [σ] and no
    other, and a leading axis of [nc] copies in every array. *)
Definition same_fields (nc : Z) σ ds : Prop :=
  Forall (λ d, copies_first nc d ∧
               ∀ k _k, in_slice d k _k ↔ in_schema σ k _k) ds.
End SampledNotions.

(** Every array of the time slice [d] whose field has an array in the store
    [b] has the shape and the element type of that array. *)
Definition shapes_agree `{Numeric DType elem}
    (b : list (string * list (string * ring DType elem)))
    (d : list (string * Data (ndarray DType elem))) : bool :=
  forallb (λ kv : string * Data (ndarray DType elem),
    forallb (λ fa : string * ndarray DType elem,
      match lookup2 b kv.1 fa.1 with
      | Some a => bool_decide (shape fa.2 = slot_shape a) &&
                  bool_decide (dtype fa.2 = ring_dtype a)
      | None => true
      end) (nested_dict kv.2)) d.

(** ** The raw numbers of the generator

    The lists of [k] raw numbers below [M], and the generator that produces
    the numbers of a list first. *)
Fixpoint raw_tuples (k M : nat) : list (list Z) :=
  match k with
  | O => [[]]
  | S k' => r ← Z.of_nat <$> seq 0 M; (λ t, r :: t) <$> raw_tuples k' M
  end.

Definition of_raw (r : list Z) : rng := λ i, default 0 (r !! i).

(** The images of the numbers of a list under the functions of a list,
    position by position. *)
Definition images (fs : list (Z → Z)) (r : list Z) : list Z :=
  zip_with (λ f v, f v) fs r.

(** ** The other methods of the buffer *)
Section Accessors.
Context `{Numeric DType elem}.

(** [keys()]: the keys of the store, in insertion order. *)
Definition keys (s : DataBuffer DType elem) : list string := (_buffer s).*1.

(** [self[item]] *)
Definition __getitem__ (item : string)
  : M (World DType elem) (list (string * ring DType elem)) :=
  s ← get_self;
  getitem item (_buffer s).

(** The array [a'] is the array [a] but for the slot [p]. *)
Definition same_but_slot (p : nat) (a a' : ring DType elem) : Prop :=
  slot_shape a' = slot_shape a ∧ ring_dtype a' = ring_dtype a ∧
  length (slots a') = length (slots a) ∧
  ∀ i, i ≠ p → slots a' !! i = slots a !! i.

(** The rank of the time slot [j] in the order of writing: the slot at the
    pointer is the oldest once the ring has wrapped, slot [0] before. *)
Definition age (s : DataBuffer DType elem) (j : Z) : Z :=
  if bool_decide (_horizon_length s = max_horizon s)
  then (j - _pointer s) mod max_horizon s
  else j.
End Accessors.

(** The keys of a dict after the assignments [d[k] = ...] for [k] in [new],
    in this order: a key that is present keeps its place, a new one goes
    last. *)
Definition merge_keys (ks new : list string) : list string :=
  foldl (λ ks k, if bool_decide (k ∈ ks) then ks else ks ++ [k]) ks new.

(** ** An instance: integer element types

    Arrays of [bool], [int32] and [int64] with their values as integers;
    a conversion to [bool] tests for zero, a conversion to a signed integer
    type wraps around. *)
Inductive IntType : Set := np_bool | np_int32 | np_int64.

#[global] Instance IntType_eq_dec : EqDecision IntType.
Proof. solve_decision. Defined.

Definition wrap (w : Z) (v : Z) : Z :=
  (v + 2 ^ (w - 1)) mod 2 ^ w - 2 ^ (w - 1).

Definition int_astype (src dst : IntType) (v : Z) : Z :=
  match dst with
  | np_bool => if v =? 0 then 0 else 1
  | np_int32 => wrap 32 v
  | np_int64 => wrap 64 v
  end.

#[global] Instance int_numeric : Numeric IntType Z :=
  {| astype := int_astype |}.

(** A time slice of two copies tagged with the marker [m]: the key
    [agent_0] with the fields [obs] (three values per copy) and [reward],
    and the key [global] with the field [begin_mask]. *)
Definition marked (m : Z) : list (string * Data (ndarray IntType Z)) :=
  [("agent_0"%string,
     [("obs"%string,
        mk_ndarray [2; 3]%nat np_int64
          [m; m + 100; m + 200; - m; - m - 100; - m - 200]);
      ("reward"%string, mk_ndarray [2]%nat np_int64 [m; - m])]);
   ("global"%string,
     [("begin_mask"%string, mk_ndarray [2; 1]%nat np_int32 [m; - m])])].

(** A generator whose raw numbers are [0, 1, 2, ...]. *)
Definition counting : rng := λ i, Z.of_nat i.

(** The world of a new buffer. *)
Definition fresh (n_copys batch_size buffer_size time_step : Z) (g : rng)
  : result (World IntType Z) :=
  s ← init n_copys batch_size buffer_size time_step;
  mret (mk_World s g).

(** The calls [add d] for [d] in [ds], one after the other. *)
Definition adds `{Numeric DType elem}
    (ds : list (list (string * Data (ndarray DType elem))))
  : M (World DType elem) unit :=
  for_each ds add.

(** The buffer of the scenario [n_copys=2, batch_size=4, buffer_size=8,
    time_step=2], and its world after the calls [add (marked m)] for [m] in
    [ms]. *)
Definition fresh_buffer : DataBuffer IntType Z :=
  mk_DataBuffer 2 4 8 2 4 [] 0 0.

Definition world_after (ms : list Z) (g : rng) : World IntType Z :=
  snd (adds (marked <$> ms) (mk_World fresh_buffer g)).

Definition two_buffer : DataBuffer IntType Z :=
  Eval vm_compute in self (world_after [1; 2] counting).
Definition full_buffer : DataBuffer IntType Z :=
  Eval vm_compute in self (world_after [1; 2; 3; 4] counting).
Definition next_buffer : DataBuffer IntType Z :=
  Eval vm_compute in self (world_after [1; 2; 3; 4; 5] counting).

(** The array of the field [begin_mask] of the key [global] after four
    marked calls. *)
Definition mask_ring : ring IntType Z :=
  mk_ring [2; 1]%nat np_int32
    [Some [1; -1]; Some [2; -2]; Some [3; -3]; Some [4; -4]].

(** An [int64] array of one element, too large for [int32]. *)
Definition wide_mask : ndarray IntType Z :=
  mk_ndarray [1]%nat np_int64 [2147483648].

(** A time slice whose second field has a shape that cannot be broadcast. *)
Definition good_obs : ndarray IntType Z :=
  mk_ndarray [2; 3]%nat np_int64 [5; 105; 205; -5; -105; -205].
Definition bad_reward : ndarray IntType Z :=
  mk_ndarray [3]%nat np_int64 [5; 0; -5].

(** A marked time slice with one more field under [agent_0]. *)
Definition with_extra (m : Z) : list (string * Data (ndarray IntType Z)) :=
  [("agent_0"%string,
     [("obs"%string,
        mk_ndarray [2; 3]%nat np_int64
          [m; m + 100; m + 200; - m; - m - 100; - m - 200]);
      ("reward"%string, mk_ndarray [2]%nat np_int64 [m; - m]);
      ("extra"%string, mk_ndarray [2]%nat np_int64 [m; - m])]);
   ("global"%string,
     [("begin_mask"%string, mk_ndarray [2; 1]%nat np_int32 [m; - m])])].

(** A time slice whose second array cannot be broadcast to the slots of its
    field. *)
Definition bad_slice : list (string * Data (ndarray IntType Z)) :=
  [("agent_0"%string,
     from_nested_dict
       [("obs"%string, good_obs); ("reward"%string, bad_reward)])].

(** The buffer [DataBuffer(n_copys=2, batch_size=4, buffer_size=1,
    time_step=2)], whose ring has no slot. *)
Definition flat_buffer : DataBuffer IntType Z :=
  mk_DataBuffer 2 4 1 2 0 [] 0 0.

Definition one_buffer : DataBuffer IntType Z :=
  Eval vm_compute in self (world_after [1] counting).

(** A time slice of two agents and the key [global]. *)
Definition two_agents (m : Z) : list (string * Data (ndarray IntType Z)) :=
  [("agent_0"%string, [("reward"%string, mk_ndarray [2]%nat np_int64 [m; - m])]);
   ("agent_1"%string, [("reward"%string, mk_ndarray [2]%nat np_int64 [m; - m])]);
   ("global"%string,
     [("begin_mask"%string, mk_ndarray [2; 1]%nat np_int32 [m; - m])])].

(** A time slice with an array of rank zero, and the buffer of the scenario
    after two calls of [add] with it. *)
Definition scalar_slice : list (string * Data (ndarray IntType Z)) :=
  [("agent_0"%string, [("step"%string, mk_ndarray []%nat np_int64 [7])])].

Definition scalar_ring : ring IntType Z :=
  mk_ring []%nat np_int64 [Some [7]; Some [7]; None; None].

Definition scalar_buffer : DataBuffer IntType Z :=
  Eval vm_compute in
    self (snd (adds [scalar_slice; scalar_slice]
                 (mk_World fresh_buffer counting))).

(** The buffer of the scenario after the calls [add (marked 1)],
    [add (marked 2)] and [add (with_extra 3)], whose third time slice brings
    the field [extra] for the first time, and what [sample(timestep=1)]
    gives on it. *)
Definition late_buffer : DataBuffer IntType Z :=
  Eval vm_compute in
    self (snd (adds [marked 1; marked 2; with_extra 3]
                 (mk_World fresh_buffer counting))).



Definition late_sample : result (list (string * Data (batch IntType Z))) :=
  Eval vm_compute in
    fst (sample None (Some 1) (mk_World late_buffer counting)).

(** Closed goals about the worlds of the scenario are settled by
    evaluation. *)
Ltac concrete :=
  vm_compute;
  repeat first
    [ done
    | lia
    | match goal with
      | |- NoDup _ => apply (bool_decide_unpack _); vm_compute; exact I
      | |- _ ∧ _ => split
      | |- Forall _ _ => constructor
      | |- ex _ => eexists
      end ].

(** * Properties *)

(** ** Dictionaries *)
Section DictFacts.
Context {V : Type}.
Implicit Types (d : list (string * V)) (k : string) (v : V).

Lemma dict_get_set_eq k v d : dict_get k (dict_set k v d) = Some v.
Proof.
  induction d as [|[k' v'] d IH]; simpl.
  - by rewrite decide_True.
  - destruct (decide (k = k')) as [->|Hne]; simpl.
    + by rewrite decide_True.
    + by rewrite decide_False.
Qed.

Lemma dict_get_set_ne k k' v d :
  k ≠ k' → dict_get k' (dict_set k v d) = dict_get k' d.
Proof.
  intros Hne. induction d as [|[k0 v0] d IH]; simpl.
  - by rewrite decide_False.
  - destruct (decide (k = k0)) as [->|Hne0]; simpl.
    + by rewrite !decide_False.
    + destruct (decide (k' = k0)); done.
Qed.

Lemma dict_set_set k v v' d : dict_set k v' (dict_set k v d) = dict_set k v' d.
Proof.
  induction d as [|[k0 v0] d IH]; simpl.
  - by rewrite decide_True.
  - destruct (decide (k = k0)) as [->|Hne]; simpl.
    + by rewrite decide_True.
    + rewrite decide_False by done. by rewrite IH.
Qed.

Lemma dict_set_Forall (Q : V → Prop) k v d :
  Forall (λ kv, Q kv.2) d → Q v → Forall (λ kv, Q kv.2) (dict_set k v d).
Proof.
  intros Hd Hv. induction Hd as [|[k0 v0] d Hx Hd IH]; simpl.
  - by repeat constructor.
  - destruct (decide (k = k0)); constructor; done.
Qed.

Lemma dict_get_Forall (Q : V → Prop) k v d :
  Forall (λ kv, Q kv.2) d → dict_get k d = Some v → Q v.
Proof.
  intros Hd. induction Hd as [|[k0 v0] d Hx Hd IH]; simpl; [done|].
  destruct (decide (k = k0)); [|done]. by intros [= <-].
Qed.

Lemma dict_get_keys k d : is_Some (dict_get k d) ↔ k ∈ d.*1.
Proof.
  induction d as [|[k0 v0] d IH]; simpl.
  - split; [by intros [? ?]|by intros ?%elem_of_nil].
  - destruct (decide (k = k0)) as [->|Hne].
    + split; [left|eauto].
    + rewrite IH, elem_of_cons. naive_solver.
Qed.

Lemma dict_elem_get k v d : is_dict d → (k, v) ∈ d → dict_get k d = Some v.
Proof.
  unfold is_dict. induction d as [|[k0 v0] d IH]; simpl.
  - by intros _ ?%elem_of_nil.
  - intros [Hk0 Hd]%NoDup_cons [[= -> ->]|Hin]%elem_of_cons.
    + by rewrite decide_True.
    + rewrite decide_False; [auto|].
      intros ->. apply Hk0. apply list_elem_of_fmap. by exists (k0, v).
Qed.

Lemma dict_set_keys k k' v d :
  k' ∈ (dict_set k v d).*1 ↔ k' = k ∨ k' ∈ d.*1.
Proof.
  induction d as [|[k0 v0] d IH]; simpl.
  - rewrite elem_of_cons. naive_solver.
  - destruct (decide (k = k0)) as [->|Hne]; simpl.
    + rewrite !elem_of_cons. naive_solver.
    + rewrite !elem_of_cons, IH. naive_solver.
Qed.

Lemma dict_set_is_dict k v d : is_dict d → is_dict (dict_set k v d).
Proof.
  unfold is_dict. induction d as [|[k0 v0] d IH]; simpl.
  - intros _. apply NoDup_singleton.
  - intros [Hk0 Hd]%NoDup_cons.
    destruct (decide (k = k0)) as [->|Hne]; simpl.
    + by apply NoDup_cons.
    + apply NoDup_cons. split; [|auto].
      rewrite dict_set_keys. naive_solver.
Qed.

Lemma dict_mem_spec k d : dict_mem k d = true ↔ is_Some (dict_get k d).
Proof. unfold dict_mem. by rewrite bool_decide_eq_true. Qed.
End DictFacts.


(** ** Loops *)
Section Loops.
Context {S A : Type}.
Implicit Types (l : list A) (body : A → M S unit) (Q : S → Prop).

Lemma for_each_cons a l body (w : S) :
  for_each (a :: l) body w =
    match body a w with
    | (Ok _, w') => for_each l body w'
    | (Raise e, w') => (Raise e, w')
    end.
Proof. reflexivity. Qed.

Lemma for_each_app l1 l2 body (w w1 : S) :
  for_each l1 body w = (Ok (), w1) →
  for_each (l1 ++ l2) body w = for_each l2 body w1.
Proof.
  revert w. induction l1 as [|a l1 IH]; intros w.
  - by intros [= ->].
  - rewrite <- app_comm_cons, !for_each_cons.
    destruct (body a w) as [[[]|e] w0]; [auto|done].
Qed.

(** The loop stops at the first iteration that raises, in the world that
    iteration left. *)
Lemma for_each_raise l1 a l2 body (w w1 w2 : S) e :
  for_each l1 body w = (Ok (), w1) →
  body a w1 = (Raise e, w2) →
  for_each (l1 ++ a :: l2) body w = (Raise e, w2).
Proof.
  intros H1 H2. rewrite (for_each_app _ _ _ _ _ H1), for_each_cons.
  by rewrite H2.
Qed.

(** What every iteration keeps, the loop keeps, whether it returns or
    raises. *)
Lemma for_each_preserve Q l body (w w' : S) r :
  (∀ a w1 w2 r1, a ∈ l → body a w1 = (r1, w2) → Q w1 → Q w2) →
  for_each l body w = (r, w') → Q w → Q w'.
Proof.
  revert w. induction l as [|a l IH]; intros w Hstep.
  - by intros [= _ <-].
  - rewrite for_each_cons.
    destruct (body a w) as [[[]|e] w0] eqn:Ha; intros Hrun Hw.
    + eapply IH; [|done|].
      * intros ?????. apply Hstep. by right.
      * eapply Hstep; [by left|done..].
    + injection Hrun as _ <-. eapply Hstep; [by left|done..].
Qed.

(** A loop whose iterations all return under an invariant returns. *)
Lemma for_each_total Q l body (w : S) :
  (∀ a w1, a ∈ l → Q w1 → ∃ w2, body a w1 = (Ok (), w2) ∧ Q w2) →
  Q w → ∃ w', for_each l body w = (Ok (), w') ∧ Q w'.
Proof.
  revert w. induction l as [|a l IH]; intros w Hstep Hw.
  - by exists w.
  - rewrite for_each_cons.
    destruct (Hstep a w) as (w0 & -> & Hw0); [by left|done|].
    apply IH; [|done]. intros ????. apply Hstep; [by right|done].
Qed.
End Loops.

(** ** One field write *)
Section AddField.
Context `{Numeric DType elem}.
Implicit Types (b : list (string * list (string * ring DType elem))).
Implicit Types (w : World DType elem) (a : ring DType elem).
Implicit Types (v : ndarray DType elem) (k _k : string).

Lemma add_field_eq k _k v w :
  add_field k _k v w =
    match dict_get k (_buffer (self w)) with
    | None => (Raise KeyError, w)
    | Some fields =>
        match dict_get _k fields with
        | Some a =>
            match np_setitem a (_pointer (self w)) v with
            | Ok a' => (Ok (), put_ring k _k a' w)
            | Raise e => (Raise e, w)
            end
        | None =>
            match np_empty (max_horizon (self w)) (shape v) (dtype v) with
            | Raise e => (Raise e, w)
            | Ok a =>
                match np_setitem a (_pointer (self w)) v with
                | Ok a' => (Ok (), put_ring k _k a' w)
                | Raise e => (Raise e, put_ring k _k a w)
                end
            end
        end
    end.
Proof.
  unfold add_field, put_ring, buffer_setitem, getitem, get_self, update_self,
    lift, raise.
  unfold mbind, M_bind, mret, M_ret. simpl.
  destruct (dict_get k (_buffer (self w))) as [fields|] eqn:Hk; simpl; [|done].
  destruct (dict_get _k fields) as [a|] eqn:Hf; simpl.
  - assert (dict_mem _k fields = true) as ->
      by (apply dict_mem_spec; eauto).
    simpl. rewrite Hk. simpl. rewrite Hf. simpl.
    destruct (np_setitem a (_pointer (self w)) v); simpl; [|done].
    by rewrite Hk.
  - assert (dict_mem _k fields = false) as ->.
    { apply not_true_is_false. rewrite dict_mem_spec, Hf. by intros [? ?]. }
    simpl.
    destruct (np_empty _ _ _) as [a|e]; simpl; [|done].
    rewrite Hk. simpl. rewrite !dict_get_set_eq. simpl.
    destruct (np_setitem a (_pointer (self w)) v); simpl; [|done].
    rewrite dict_get_set_eq. simpl. by rewrite !dict_set_set.
Qed.
End AddField.

(** ** NumPy operations *)
Section ArrayFacts.
Context `{Numeric DType elem}.
Implicit Types (a : ring DType elem) (v : ndarray DType elem).

Lemma norm_index_in n i :
  0 ≤ i < Z.of_nat n → norm_index n i = Ok (Z.to_nat i).
Proof. intros ?. unfold norm_index. by rewrite bool_decide_eq_true_2. Qed.

Lemma norm_index_nonneg n i j :
  0 ≤ i → norm_index n i = Ok j → j = Z.to_nat i ∧ (j < n)%nat.
Proof.
  intros Hi. unfold norm_index. repeat case_bool_decide; try done.
  - intros [= <-]. lia.
  - lia.
Qed.

Lemma broadcastable_refl sh : broadcastable sh sh = true.
Proof.
  induction sh as [|s sh IH]; simpl; [done|].
  by rewrite bool_decide_eq_true_2, IH.
Qed.

Lemma strip_ones_0 sh : strip_ones 0 sh = sh.
Proof. by destruct sh. Qed.

Lemma align_shape_same sh : align_shape sh sh = sh.
Proof.
  unfold align_shape. rewrite Nat.sub_diag, strip_ones_0.
  by rewrite Nat.sub_diag.
Qed.

Lemma np_setitem_inv a i v a' :
  np_setitem a i v = Ok a' →
  ∃ j, norm_index (length (slots a)) i = Ok j ∧
       broadcastable (align_shape (shape v) (slot_shape a)) (slot_shape a)
         = true ∧
       a' = set_slot a j (stored a v).
Proof.
  unfold np_setitem. unfold mbind, result_bind, mret, result_ret.
  destruct (norm_index _ _) as [j|]; [|done].
  unfold broadcast_to. simpl.
  destruct (broadcastable _ _); [|done].
  intros [= <-]. eauto.
Qed.

Lemma np_setitem_ok a i v :
  0 ≤ i < Z.of_nat (length (slots a)) →
  broadcastable (align_shape (shape v) (slot_shape a)) (slot_shape a) = true →
  np_setitem a i v = Ok (set_slot a (Z.to_nat i) (stored a v)).
Proof.
  intros Hi Hb. unfold np_setitem. rewrite norm_index_in by done.
  unfold broadcast_to. simpl. by rewrite Hb.
Qed.

Lemma set_slot_written a j d i :
  written a i → written (set_slot a j d) i.
Proof.
  intros [x Hx]. unfold written, set_slot. simpl.
  destruct (decide (j = i)) as [->|Hne].
  - exists d. rewrite list_lookup_insert_eq; [done|].
    by eapply lookup_lt_Some.
  - exists x. by rewrite list_lookup_insert_ne.
Qed.

Lemma set_slot_hit a j d :
  (j < length (slots a))%nat → slots (set_slot a j d) !! j = Some (Some d).
Proof. intros ?. unfold set_slot. simpl. by rewrite list_lookup_insert_eq. Qed.

Lemma np_empty_inv n sh dt a :
  np_empty n sh dt = Ok a →
  0 ≤ n ∧ a = mk_ring sh dt (replicate (Z.to_nat n) None).
Proof.
  unfold np_empty. destruct (n <? 0) eqn:Hn; [done|].
  intros [= <-]. split; [lia|done].
Qed.
End ArrayFacts.


(** ** The effect of one field write on the store *)
Section AddFieldFacts.
Context `{Numeric DType elem}.
Implicit Types (b : list (string * list (string * ring DType elem))).
Implicit Types (w : World DType elem) (a : ring DType elem).
Implicit Types (v : ndarray DType elem) (k _k : string).

Lemma put_ring_scalars k _k a w :
  self (put_ring k _k a w) =
    set_buffer (_buffer (self (put_ring k _k a w))) (self w) ∧
  np_random (put_ring k _k a w) = np_random w.
Proof.
  unfold put_ring. destruct (dict_get k _); simpl; [done|].
  by destruct w as [[] ?].
Qed.

Lemma lookup2_put_ring k _k a w k2 _k2 :
  is_Some (dict_get k (_buffer (self w))) →
  lookup2 (_buffer (self (put_ring k _k a w))) k2 _k2 =
    if decide (k2 = k ∧ _k2 = _k) then Some a
    else lookup2 (_buffer (self w)) k2 _k2.
Proof.
  intros [fields Hk]. unfold put_ring, lookup2. rewrite Hk. simpl.
  destruct (decide (k2 = k)) as [->|Hne].
  - rewrite dict_get_set_eq, Hk. simpl.
    destruct (decide (_k2 = _k)) as [->|Hne'].
    + rewrite dict_get_set_eq. by rewrite decide_True.
    + rewrite dict_get_set_ne by done. rewrite decide_False; [done|].
      by intros [_ ?].
  - rewrite dict_get_set_ne by done. rewrite decide_False; [done|].
    by intros [? _].
Qed.

Lemma put_ring_keys k _k a w k2 :
  is_Some (dict_get k2 (_buffer (self (put_ring k _k a w)))) ↔
  is_Some (dict_get k2 (_buffer (self w))).
Proof.
  unfold put_ring. destruct (dict_get k _) as [fields|] eqn:Hk; [|done].
  simpl. rewrite !dict_get_keys, dict_set_keys.
  split; [|by right]. intros [->|?]; [|done].
  apply dict_get_keys. eauto.
Qed.

Lemma put_ring_is_dict k _k a w :
  store_is_dict (_buffer (self w)) →
  store_is_dict (_buffer (self (put_ring k _k a w))).
Proof.
  intros [Hd Hf]. unfold put_ring.
  destruct (dict_get k _) as [fields|] eqn:Hk; [|done]. simpl. split.
  - by apply dict_set_is_dict.
  - apply (dict_set_Forall (λ x, is_dict x)); [done|].
    apply dict_set_is_dict.
    by apply (dict_get_Forall (λ x, is_dict x) k fields _ Hf).
Qed.

Lemma put_ring_all_rings (P : ring DType elem → Prop) k _k a w :
  all_rings P (_buffer (self w)) → P a →
  all_rings P (_buffer (self (put_ring k _k a w))).
Proof.
  intros Hb Ha. unfold put_ring.
  destruct (dict_get k _) as [fields|] eqn:Hk; [|done]. simpl.
  apply (dict_set_Forall (λ x, Forall (λ fa, P fa.2) x)); [done|].
  apply (dict_set_Forall P); [|done].
  by apply (dict_get_Forall (λ x, Forall (λ fa, P fa.2) x) k fields _ Hb).
Qed.

(** The outcomes of one field write. *)
Lemma add_field_cases k _k v w r w' :
  add_field k _k v w = (r, w') →
  (r ≠ Ok () ∧ w' = w) ∨
  (∃ a a', is_Some (dict_get k (_buffer (self w))) ∧
     lookup2 (_buffer (self w)) k _k = Some a ∧
     np_setitem a (_pointer (self w)) v = Ok a' ∧
     r = Ok () ∧ w' = put_ring k _k a' w) ∨
  (∃ a, is_Some (dict_get k (_buffer (self w))) ∧
     lookup2 (_buffer (self w)) k _k = None ∧
     np_empty (max_horizon (self w)) (shape v) (dtype v) = Ok a ∧
     ((∃ a', np_setitem a (_pointer (self w)) v = Ok a' ∧
             r = Ok () ∧ w' = put_ring k _k a' w) ∨
      (∃ e, np_setitem a (_pointer (self w)) v = Raise e ∧
            r = Raise e ∧ w' = put_ring k _k a w))).
Proof.
  rewrite add_field_eq. unfold lookup2.
  destruct (dict_get k _) as [fields|] eqn:Hk; simpl.
  2:{ intros [= <- <-]. by left. }
  destruct (dict_get _k fields) as [a|] eqn:Hf.
  - destruct (np_setitem a _ v) as [a'|e] eqn:Hs; intros [= <- <-].
    + right. left. exists a, a'. eauto 10.
    + by left.
  - destruct (np_empty _ _ _) as [a|e] eqn:He.
    2:{ intros [= <- <-]. by left. }
    destruct (np_setitem a _ v) as [a'|e] eqn:Hs; intros [= <- <-];
      right; right; exists a; (split; [eauto|]); (split; [done|]);
      (split; [done|]); eauto 10.
Qed.
End AddFieldFacts.


Section AddFieldEffects.
Context `{Numeric DType elem}.
Implicit Types (b : list (string * list (string * ring DType elem))).
Implicit Types (w : World DType elem) (a : ring DType elem).
Implicit Types (v : ndarray DType elem) (k _k : string).

Lemma same_frame_refl w : same_frame w w.
Proof. split; [|done]. by destruct w as [[] ?]. Qed.

Lemma same_frame_trans w1 w2 w3 :
  same_frame w1 w2 → same_frame w2 w3 → same_frame w1 w3.
Proof.
  intros [H1 G1] [H2 G2]. split; [|congruence].
  rewrite H2, H1. done.
Qed.

Lemma same_frame_fields w w' :
  same_frame w w' →
  n_copys (self w') = n_copys (self w) ∧
  batch_size (self w') = batch_size (self w) ∧
  time_step (self w') = time_step (self w) ∧
  max_horizon (self w') = max_horizon (self w) ∧
  _horizon_length (self w') = _horizon_length (self w) ∧
  _pointer (self w') = _pointer (self w).
Proof. intros [-> _]. done. Qed.

Lemma add_field_frame k _k v w r w' :
  add_field k _k v w = (r, w') → same_frame w w'.
Proof.
  intros Hrun. apply add_field_cases in Hrun
    as [[_ ->]|[(a & a' & _ & _ & _ & _ & ->)
               |(a & _ & _ & _ & [(a' & _ & _ & ->)|(e & _ & _ & ->)])]];
    first [apply same_frame_refl | apply put_ring_scalars].
Qed.

Lemma add_field_keys k _k v w r w' k2 :
  add_field k _k v w = (r, w') →
  is_Some (dict_get k2 (_buffer (self w'))) ↔
  is_Some (dict_get k2 (_buffer (self w))).
Proof.
  intros Hrun. apply add_field_cases in Hrun
    as [[_ ->]|[(a & a' & _ & _ & _ & _ & ->)
               |(a & _ & _ & _ & [(a' & _ & _ & ->)|(e & _ & _ & ->)])]];
    first [done | apply put_ring_keys].
Qed.

(** A field write leaves every other array of the store as it is. *)
Lemma add_field_other k _k v w r w' k2 _k2 :
  add_field k _k v w = (r, w') → ¬ (k2 = k ∧ _k2 = _k) →
  lookup2 (_buffer (self w')) k2 _k2 = lookup2 (_buffer (self w)) k2 _k2.
Proof.
  intros Hrun Hne. apply add_field_cases in Hrun
    as [[_ ->]|[(a & a' & Hk & _ & _ & _ & ->)
               |(a & Hk & _ & _ & [(a' & _ & _ & ->)|(e & _ & _ & ->)])]];
    [done|..]; rewrite lookup2_put_ring by done; by rewrite decide_False.
Qed.

(** A slot that has been assigned stays assigned. *)
Lemma add_field_mono k _k v w r w' k2 _k2 i :
  add_field k _k v w = (r, w') →
  written_at (_buffer (self w)) k2 _k2 i →
  written_at (_buffer (self w')) k2 _k2 i.
Proof.
  intros Hrun (a0 & Ha0 & Hi). unfold written_at.
  destruct (decide (k2 = k ∧ _k2 = _k)) as [[-> ->]|Hne].
  2:{ rewrite (add_field_other _ _ _ _ _ _ _ _ Hrun Hne). eauto. }
  apply add_field_cases in Hrun
    as [[_ ->]|[(a & a' & Hk & Ha & Hs & _ & ->)
               |(a & Hk & Ha & _)]]; [eauto| |congruence].
  rewrite lookup2_put_ring by done. rewrite decide_True by done.
  exists a'. split; [done|].
  apply np_setitem_inv in Hs as (j & _ & _ & ->).
  apply set_slot_written. congruence.
Qed.

(** A field write that returns has assigned the slot at the pointer. *)
Lemma add_field_hit k _k v w w' :
  add_field k _k v w = (Ok (), w') → 0 ≤ _pointer (self w) →
  ∃ a', lookup2 (_buffer (self w')) k _k = Some a' ∧
    broadcastable (align_shape (shape v) (slot_shape a')) (slot_shape a')
      = true ∧
    slots a' !! Z.to_nat (_pointer (self w)) = Some (Some (stored a' v)).
Proof.
  intros Hrun Hp. apply add_field_cases in Hrun
    as [[? _]|[(a & a' & Hk & Ha & Hs & _ & ->)
              |(a & Hk & Ha & _ & [(a' & Hs & _ & ->)|(e & _ & ? & _)])]];
    [done| | |done].
  all: rewrite lookup2_put_ring by done; rewrite decide_True by done.
  all: apply np_setitem_inv in Hs as (j & Hj & Hd & ->).
  all: apply norm_index_nonneg in Hj as [-> Hlt]; [|done].
  all: exists (set_slot a (Z.to_nat (_pointer (self w))) (stored a v)).
  all: split; [done|]; split; [done|]; by apply set_slot_hit.
Qed.

Lemma add_field_written k _k v w w' :
  add_field k _k v w = (Ok (), w') → 0 ≤ _pointer (self w) →
  written_at (_buffer (self w')) k _k (Z.to_nat (_pointer (self w))).
Proof.
  intros Hrun Hp.
  destruct (add_field_hit _ _ _ _ _ Hrun Hp) as (a' & Ha & _ & Hs).
  exists a'. split; [done|]. eexists. done.
Qed.

Lemma add_field_is_dict k _k v w r w' :
  add_field k _k v w = (r, w') →
  store_is_dict (_buffer (self w)) → store_is_dict (_buffer (self w')).
Proof.
  intros Hrun Hd. apply add_field_cases in Hrun
    as [[_ ->]|[(a & a' & _ & _ & _ & _ & ->)
               |(a & _ & _ & _ & [(a' & _ & _ & ->)|(e & _ & _ & ->)])]];
    first [done | by apply put_ring_is_dict].
Qed.

(** A property of arrays that an assignment to a slot keeps and that a new
    array has is kept by a field write. *)
Lemma add_field_all_rings (P : ring DType elem → Prop) k _k v w r w' :
  (∀ a j d, P a → P (set_slot a j d)) →
  P (mk_ring (shape v) (dtype v)
       (replicate (Z.to_nat (max_horizon (self w))) None)) →
  add_field k _k v w = (r, w') →
  all_rings P (_buffer (self w)) → all_rings P (_buffer (self w')).
Proof.
  intros Hset Hnew Hrun Hb. apply add_field_cases in Hrun
    as [[_ ->]|[(a & a' & [fs Hk] & Ha & Hs & _ & ->)
               |(a & _ & _ & He & [(a' & Hs & _ & ->)|(e & _ & _ & ->)])]];
    [done|..]; apply put_ring_all_rings; try done.
  - apply np_setitem_inv in Hs as (j & _ & _ & ->). apply Hset.
    unfold lookup2 in Ha. rewrite Hk in Ha. simpl in Ha.
    apply (dict_get_Forall P _k a fs); [|done].
    by apply (dict_get_Forall (λ x, Forall (λ fa, P fa.2) x) k fs _ Hb).
  - apply np_setitem_inv in Hs as (j & _ & _ & ->). apply Hset.
    by apply np_empty_inv in He as [_ ->].
  - by apply np_empty_inv in He as [_ ->].
Qed.
End AddFieldEffects.


(** ** The loops of [add] *)
Section AddLoops.
Context `{Numeric DType elem}.
Implicit Types (b : list (string * list (string * ring DType elem))).
Implicit Types (w : World DType elem) (a : ring DType elem).
Implicit Types (v : ndarray DType elem) (k _k : string).
Implicit Types (fs : list (string * ndarray DType elem)).
Implicit Types (d : list (string * Data (ndarray DType elem))).

Lemma add_key_eq k (fs : Data (ndarray DType elem)) w :
  add_key k fs w = write_fields k (nested_dict fs) (ensure_key k w).
Proof.
  unfold add_key, ensure_key, write_fields, get_self, update_self.
  unfold mbind, M_bind, mret, M_ret. simpl.
  by destruct (dict_mem k _).
Qed.

Lemma ensure_key_frame k w : same_frame w (ensure_key k w).
Proof.
  unfold ensure_key. destruct (dict_mem k _); [apply same_frame_refl|].
  split; [|done]. simpl. by destruct w as [[] ?].
Qed.

Lemma ensure_key_lookup2 k w k2 _k2 :
  lookup2 (_buffer (self (ensure_key k w))) k2 _k2 =
  lookup2 (_buffer (self w)) k2 _k2.
Proof.
  unfold ensure_key. destruct (dict_mem k _) eqn:Hm; [done|]. simpl.
  unfold lookup2. destruct (decide (k2 = k)) as [->|Hne].
  - rewrite dict_get_set_eq. simpl.
    apply not_true_iff_false in Hm. rewrite dict_mem_spec in Hm.
    destruct (dict_get k _) eqn:Hk; [|done]. destruct Hm. eauto.
  - by rewrite dict_get_set_ne.
Qed.

Lemma ensure_key_present k w :
  is_Some (dict_get k (_buffer (self (ensure_key k w)))).
Proof.
  unfold ensure_key. destruct (dict_mem k _) eqn:Hm.
  - by apply dict_mem_spec.
  - simpl. rewrite dict_get_set_eq. eauto.
Qed.

Lemma ensure_key_is_dict k w :
  store_is_dict (_buffer (self w)) →
  store_is_dict (_buffer (self (ensure_key k w))).
Proof.
  intros [Hd Hf]. unfold ensure_key. destruct (dict_mem k _); [done|].
  simpl. split; [by apply dict_set_is_dict|].
  apply (dict_set_Forall (λ x, is_dict x)); [done|]. apply NoDup_nil_2.
Qed.

Lemma ensure_key_all_rings (P : ring DType elem → Prop) k w :
  all_rings P (_buffer (self w)) →
  all_rings P (_buffer (self (ensure_key k w))).
Proof.
  intros Hb. unfold ensure_key. destruct (dict_mem k _); [done|]. simpl.
  apply (dict_set_Forall (λ x, Forall (λ fa, P fa.2) x)); [done|].
  constructor.
Qed.

(** *** The inner loop *)

Lemma write_fields_frame k fs w r w' :
  write_fields k fs w = (r, w') → same_frame w w'.
Proof.
  intros Hrun. unfold write_fields in Hrun.
  eapply (for_each_preserve (same_frame w)); [|exact Hrun|apply same_frame_refl].
  intros [_k _v] w1 w2 r1 _ Hb Hw.
  eapply same_frame_trans; [done|]. by eapply add_field_frame.
Qed.

Lemma write_fields_other k fs w r w' k2 _k2 :
  write_fields k fs w = (r, w') → ¬ (k2 = k ∧ _k2 ∈ fs.*1) →
  lookup2 (_buffer (self w')) k2 _k2 = lookup2 (_buffer (self w)) k2 _k2.
Proof.
  intros Hrun Hne. unfold write_fields in Hrun.
  eapply (for_each_preserve
            (λ w1, lookup2 (_buffer (self w1)) k2 _k2
                   = lookup2 (_buffer (self w)) k2 _k2));
    [|exact Hrun|done].
  intros [_k _v] w1 w2 r1 Hin Hb <-.
  eapply add_field_other; [done|]. intros [-> ->]. apply Hne.
  split; [done|]. apply list_elem_of_fmap. by exists (_k, _v).
Qed.

Lemma write_fields_mono k fs w r w' k2 _k2 i :
  write_fields k fs w = (r, w') →
  written_at (_buffer (self w)) k2 _k2 i →
  written_at (_buffer (self w')) k2 _k2 i.
Proof.
  intros Hrun. unfold write_fields in Hrun.
  eapply (for_each_preserve (λ w, written_at (_buffer (self w)) k2 _k2 i));
    [|exact Hrun].
  intros [_k _v] w1 w2 r1 _ Hb Hw. by eapply add_field_mono.
Qed.

Lemma write_fields_is_dict k fs w r w' :
  write_fields k fs w = (r, w') →
  store_is_dict (_buffer (self w)) → store_is_dict (_buffer (self w')).
Proof.
  intros Hrun. unfold write_fields in Hrun.
  eapply (for_each_preserve (λ w, store_is_dict (_buffer (self w))));
    [|exact Hrun].
  intros [_k _v] w1 w2 r1 _ Hb Hw. by eapply add_field_is_dict.
Qed.

Lemma write_fields_all_rings (P : ring DType elem → Prop) k fs w r w' :
  (∀ a j x, P a → P (set_slot a j x)) →
  Forall (λ fa, P (mk_ring (shape fa.2) (dtype fa.2)
                     (replicate (Z.to_nat (max_horizon (self w))) None))) fs →
  write_fields k fs w = (r, w') →
  all_rings P (_buffer (self w)) → all_rings P (_buffer (self w')).
Proof.
  intros Hset Hnew Hrun Hb. unfold write_fields in Hrun.
  cut (same_frame w w' ∧ all_rings P (_buffer (self w'))); [by intros [_ ?]|].
  eapply (for_each_preserve
            (λ w1, same_frame w w1 ∧ all_rings P (_buffer (self w1))));
    [|exact Hrun|split; [apply same_frame_refl|done]].
  intros [_k _v] w1 w2 r1 Hin Hrun1 [Hfr Hw1].
  pose proof (add_field_frame _ _ _ _ _ _ Hrun1) as Hfr1.
  split; [by eapply same_frame_trans|].
  eapply add_field_all_rings; [done| |done|done].
  apply same_frame_fields in Hfr as (_ & _ & _ & -> & _).
  rewrite Forall_forall in Hnew. apply (Hnew (_k, _v)), Hin.
Qed.

(** The slot at the pointer of every field the inner loop went through. *)
Lemma write_fields_written k fs w w' _k _v :
  write_fields k fs w = (Ok (), w') → (_k, _v) ∈ fs →
  0 ≤ _pointer (self w) →
  written_at (_buffer (self w')) k _k (Z.to_nat (_pointer (self w))).
Proof.
  intros Hrun Hin Hp. unfold write_fields in Hrun.
  cut (same_frame w w' ∧
       written_at (_buffer (self w')) k _k (Z.to_nat (_pointer (self w))));
    [by intros [_ ?]|].
  revert w Hrun Hp. induction fs as [|[_k0 _v0] fs IH]; intros w Hrun Hp;
    [by apply elem_of_nil in Hin|].
  rewrite for_each_cons in Hrun.
  destruct (add_field k _k0 _v0 w) as [[[]|e] w0] eqn:Hw0; [|done].
  pose proof (add_field_frame _ _ _ _ _ _ Hw0) as Hfr0.
  pose proof (write_fields_frame k fs _ _ _ Hrun) as Hfr1.
  split; [by eapply same_frame_trans|].
  apply elem_of_cons in Hin as [[= <- <-]|Hin].
  - eapply write_fields_mono; [exact Hrun|]. by eapply add_field_written.
  - destruct (same_frame_fields _ _ Hfr0) as (_ & _ & _ & _ & _ & Hp0).
    rewrite <- Hp0. apply IH; [done|done|]. by rewrite Hp0.
Qed.

(** With distinct field names, the slot at the pointer holds what the field
    write of that name stored. *)
Lemma write_fields_hit k fs w w' _k _v :
  write_fields k fs w = (Ok (), w') → is_dict fs → (_k, _v) ∈ fs →
  0 ≤ _pointer (self w) →
  ∃ a', lookup2 (_buffer (self w')) k _k = Some a' ∧
    broadcastable (align_shape (shape _v) (slot_shape a')) (slot_shape a')
      = true ∧
    slots a' !! Z.to_nat (_pointer (self w)) = Some (Some (stored a' _v)).
Proof.
  intros Hrun Hd Hin Hp. unfold write_fields in Hrun.
  revert w Hrun Hp. induction fs as [|[_k0 _v0] fs IH]; intros w Hrun Hp;
    [by apply elem_of_nil in Hin|].
  rewrite for_each_cons in Hrun.
  destruct (add_field k _k0 _v0 w) as [[[]|e] w0] eqn:Hw0; [|done].
  apply NoDup_cons in Hd as [Hk0 Hd]. simpl in Hk0.
  apply elem_of_cons in Hin as [[= <- <-]|Hin].
  - rewrite (write_fields_other k fs w0 _ w' k _k Hrun) by (by intros [_ ?]).
    by eapply add_field_hit.
  - destruct (same_frame_fields _ _ (add_field_frame _ _ _ _ _ _ Hw0))
      as (_ & _ & _ & _ & _ & Hp0).
    rewrite <- Hp0. apply IH; [done|done|done|]. by rewrite Hp0.
Qed.
End AddLoops.


Section AddKeys.
Context `{Numeric DType elem}.
Implicit Types (b : list (string * list (string * ring DType elem))).
Implicit Types (w : World DType elem) (a : ring DType elem).
Implicit Types (v : ndarray DType elem) (k _k : string).
Implicit Types (fs : Data (ndarray DType elem)).
Implicit Types (d : list (string * Data (ndarray DType elem))).

Lemma add_eq d w :
  add d w =
    match write_keys d w with
    | (Ok _, w1) => advance w1
    | (Raise e, w1) => (Raise e, w1)
    end.
Proof.
  unfold add, write_keys, advance, get_self, update_self, lift.
  unfold mbind, M_bind, mret, M_ret. simpl.
  destruct (for_each d _ w) as [[[]|e] w1]; [|done]. simpl.
  by destruct (py_mod _ _).
Qed.

(** *** One key *)

Lemma add_key_frame k fs w r w' :
  add_key k fs w = (r, w') → same_frame w w'.
Proof.
  rewrite add_key_eq. intros Hrun%write_fields_frame.
  eapply same_frame_trans; [apply ensure_key_frame|done].
Qed.

Lemma add_key_other k fs w r w' k2 _k2 :
  add_key k fs w = (r, w') → ¬ (k2 = k ∧ _k2 ∈ (nested_dict fs).*1) →
  lookup2 (_buffer (self w')) k2 _k2 = lookup2 (_buffer (self w)) k2 _k2.
Proof.
  rewrite add_key_eq. intros Hrun Hne.
  rewrite (write_fields_other _ _ _ _ _ _ _ Hrun Hne).
  apply ensure_key_lookup2.
Qed.

Lemma add_key_mono k fs w r w' k2 _k2 i :
  add_key k fs w = (r, w') →
  written_at (_buffer (self w)) k2 _k2 i →
  written_at (_buffer (self w')) k2 _k2 i.
Proof.
  rewrite add_key_eq. intros Hrun Hw.
  eapply write_fields_mono; [done|].
  unfold written_at. by rewrite ensure_key_lookup2.
Qed.

Lemma add_key_is_dict k fs w r w' :
  add_key k fs w = (r, w') →
  store_is_dict (_buffer (self w)) → store_is_dict (_buffer (self w')).
Proof.
  rewrite add_key_eq. intros Hrun Hw.
  eapply write_fields_is_dict; [done|]. by apply ensure_key_is_dict.
Qed.

Lemma add_key_all_rings (P : ring DType elem → Prop) k fs w r w' :
  (∀ a j x, P a → P (set_slot a j x)) →
  Forall (λ fa, P (mk_ring (shape fa.2) (dtype fa.2)
                     (replicate (Z.to_nat (max_horizon (self w))) None)))
    (nested_dict fs) →
  add_key k fs w = (r, w') →
  all_rings P (_buffer (self w)) → all_rings P (_buffer (self w')).
Proof.
  rewrite add_key_eq. intros Hset Hnew Hrun Hw.
  eapply write_fields_all_rings; [done| |done|].
  - by destruct (same_frame_fields _ _ (ensure_key_frame k w))
      as (_ & _ & _ & -> & _).
  - by apply ensure_key_all_rings.
Qed.

Lemma add_key_written k fs w w' _k _v :
  add_key k fs w = (Ok (), w') → (_k, _v) ∈ nested_dict fs →
  0 ≤ _pointer (self w) →
  written_at (_buffer (self w')) k _k (Z.to_nat (_pointer (self w))).
Proof.
  rewrite add_key_eq. intros Hrun Hin Hp.
  destruct (same_frame_fields _ _ (ensure_key_frame k w))
    as (_ & _ & _ & _ & _ & Hp0).
  rewrite <- Hp0. eapply write_fields_written; [done|done|]. by rewrite Hp0.
Qed.

Lemma add_key_hit k fs w w' _k _v :
  add_key k fs w = (Ok (), w') → is_dict (nested_dict fs) →
  (_k, _v) ∈ nested_dict fs → 0 ≤ _pointer (self w) →
  ∃ a', lookup2 (_buffer (self w')) k _k = Some a' ∧
    broadcastable (align_shape (shape _v) (slot_shape a')) (slot_shape a')
      = true ∧
    slots a' !! Z.to_nat (_pointer (self w)) = Some (Some (stored a' _v)).
Proof.
  rewrite add_key_eq. intros Hrun Hd Hin Hp.
  destruct (same_frame_fields _ _ (ensure_key_frame k w))
    as (_ & _ & _ & _ & _ & Hp0).
  rewrite <- Hp0. eapply write_fields_hit; [done|done|done|]. by rewrite Hp0.
Qed.

(** *** The outer loop *)

Lemma write_keys_frame d w r w' :
  write_keys d w = (r, w') → same_frame w w'.
Proof.
  intros Hrun. unfold write_keys in Hrun.
  eapply (for_each_preserve (same_frame w)); [|exact Hrun|apply same_frame_refl].
  intros [k fs] w1 w2 r1 _ Hb Hw.
  eapply same_frame_trans; [done|]. by eapply add_key_frame.
Qed.

(** The loops leave the arrays of all fields that are not in the time
    slice as they are. *)
Lemma write_keys_other d w r w' k2 _k2 :
  write_keys d w = (r, w') → ¬ in_slice d k2 _k2 →
  lookup2 (_buffer (self w')) k2 _k2 = lookup2 (_buffer (self w)) k2 _k2.
Proof.
  intros Hrun Hne. unfold write_keys in Hrun.
  eapply (for_each_preserve
            (λ w1, lookup2 (_buffer (self w1)) k2 _k2
                   = lookup2 (_buffer (self w)) k2 _k2));
    [|exact Hrun|done].
  intros [k fs] w1 w2 r1 Hin Hb <-.
  eapply add_key_other; [done|]. intros [-> Hf]. apply Hne. by exists fs.
Qed.

Lemma write_keys_mono d w r w' k2 _k2 i :
  write_keys d w = (r, w') →
  written_at (_buffer (self w)) k2 _k2 i →
  written_at (_buffer (self w')) k2 _k2 i.
Proof.
  intros Hrun. unfold write_keys in Hrun.
  eapply (for_each_preserve (λ w, written_at (_buffer (self w)) k2 _k2 i));
    [|exact Hrun].
  intros [k fs] w1 w2 r1 _ Hb Hw. by eapply add_key_mono.
Qed.

Lemma write_keys_is_dict d w r w' :
  write_keys d w = (r, w') →
  store_is_dict (_buffer (self w)) → store_is_dict (_buffer (self w')).
Proof.
  intros Hrun. unfold write_keys in Hrun.
  eapply (for_each_preserve (λ w, store_is_dict (_buffer (self w))));
    [|exact Hrun].
  intros [k fs] w1 w2 r1 _ Hb Hw. by eapply add_key_is_dict.
Qed.

Lemma write_keys_all_rings (P : ring DType elem → Prop) d w r w' :
  (∀ a j x, P a → P (set_slot a j x)) →
  Forall (λ kv, Forall (λ fa,
      P (mk_ring (shape fa.2) (dtype fa.2)
           (replicate (Z.to_nat (max_horizon (self w))) None)))
    (nested_dict kv.2)) d →
  write_keys d w = (r, w') →
  all_rings P (_buffer (self w)) → all_rings P (_buffer (self w')).
Proof.
  intros Hset Hnew Hrun Hb. unfold write_keys in Hrun.
  cut (same_frame w w' ∧ all_rings P (_buffer (self w'))); [by intros [_ ?]|].
  eapply (for_each_preserve
            (λ w1, same_frame w w1 ∧ all_rings P (_buffer (self w1))));
    [|exact Hrun|split; [apply same_frame_refl|done]].
  intros [k fs] w1 w2 r1 Hin Hrun1 [Hfr Hw1].
  pose proof (add_key_frame _ _ _ _ _ Hrun1) as Hfr1.
  split; [by eapply same_frame_trans|].
  eapply add_key_all_rings; [done| |done|done].
  apply same_frame_fields in Hfr as (_ & _ & _ & -> & _).
  rewrite Forall_forall in Hnew. apply (Hnew (k, fs)), Hin.
Qed.

Lemma write_keys_written d w w' k _k :
  write_keys d w = (Ok (), w') → in_slice d k _k →
  0 ≤ _pointer (self w) →
  written_at (_buffer (self w')) k _k (Z.to_nat (_pointer (self w))).
Proof.
  intros Hrun (fs & Hin & Hf) Hp. unfold write_keys in Hrun.
  apply list_elem_of_fmap in Hf as ([_k0 _v] & -> & Hf). simpl.
  revert w Hrun Hp. induction d as [|[k0 fs0] d IH]; intros w Hrun Hp;
    [by apply elem_of_nil in Hin|].
  rewrite for_each_cons in Hrun.
  destruct (add_key k0 fs0 w) as [[[]|e] w0] eqn:Hw0; [|done].
  apply elem_of_cons in Hin as [[= <- <-]|Hin].
  - eapply write_keys_mono; [exact Hrun|]. by eapply add_key_written.
  - destruct (same_frame_fields _ _ (add_key_frame _ _ _ _ _ Hw0))
      as (_ & _ & _ & _ & _ & Hp0).
    rewrite <- Hp0. apply IH; [done|done|]. by rewrite Hp0.
Qed.

Lemma write_keys_hit d w w' k fs _k _v :
  write_keys d w = (Ok (), w') →
  is_dict d → Forall (λ kv, is_dict (nested_dict kv.2)) d →
  (k, fs) ∈ d → (_k, _v) ∈ nested_dict fs → 0 ≤ _pointer (self w) →
  ∃ a', lookup2 (_buffer (self w')) k _k = Some a' ∧
    broadcastable (align_shape (shape _v) (slot_shape a')) (slot_shape a')
      = true ∧
    slots a' !! Z.to_nat (_pointer (self w)) = Some (Some (stored a' _v)).
Proof.
  intros Hrun Hd Hfd Hin Hf Hp. unfold write_keys in Hrun.
  revert w Hrun Hp. induction d as [|[k0 fs0] d IH]; intros w Hrun Hp;
    [by apply elem_of_nil in Hin|].
  rewrite for_each_cons in Hrun.
  destruct (add_key k0 fs0 w) as [[[]|e] w0] eqn:Hw0; [|done].
  apply NoDup_cons in Hd as [Hk0 Hd]. simpl in Hk0.
  apply Forall_cons in Hfd as [Hfs0 Hfd]. simpl in Hfs0.
  apply elem_of_cons in Hin as [[= <- <-]|Hin].
  - rewrite (write_keys_other d w0 _ w' k _k Hrun).
    + by eapply add_key_hit.
    + intros (fs' & Hin' & _). apply Hk0.
      apply list_elem_of_fmap. by exists (k, fs').
  - destruct (same_frame_fields _ _ (add_key_frame _ _ _ _ _ Hw0))
      as (_ & _ & _ & _ & _ & Hp0).
    rewrite <- Hp0. apply IH; [done|done|done|done|]. by rewrite Hp0.
Qed.
End AddKeys.

(** ** A whole call of [add] *)
Section AddCall.
Context `{Numeric DType elem}.
Implicit Types (b : list (string * list (string * ring DType elem))).
Implicit Types (w : World DType elem) (a : ring DType elem).
Implicit Types (v : ndarray DType elem) (k _k : string).
Implicit Types (d : list (string * Data (ndarray DType elem))).

Lemma add_ok_inv d w w' :
  add d w = (Ok (), w') →
  ∃ w1, write_keys d w = (Ok (), w1) ∧ max_horizon (self w) ≠ 0 ∧
    w' = mk_World
           (set_horizon_length
              (Z.min (_horizon_length (self w) + 1) (max_horizon (self w)))
              (set_pointer ((_pointer (self w) + 1) mod max_horizon (self w))
                 (self w1)))
           (np_random w1).
Proof.
  rewrite add_eq. destruct (write_keys d w) as [[[]|e] w1] eqn:Hk; [|done].
  destruct (same_frame_fields _ _ (write_keys_frame _ _ _ _ Hk))
    as (_ & _ & _ & HH & Hh & Hp).
  unfold advance, py_mod. rewrite HH, Hh, Hp.
  destruct (max_horizon (self w) =? 0) eqn:H0; [done|].
  intros [= <-]. exists w1. split; [done|]. split; [lia|done].
Qed.

Lemma add_raise_inv d w w' e :
  add d w = (Raise e, w') →
  _pointer (self w') = _pointer (self w) ∧
  _horizon_length (self w') = _horizon_length (self w) ∧
  (write_keys d w = (Raise e, w') ∨
   write_keys d w = (Ok (), w') ∧ max_horizon (self w) = 0).
Proof.
  rewrite add_eq. destruct (write_keys d w) as [[[]|e1] w1] eqn:Hk.
  - destruct (same_frame_fields _ _ (write_keys_frame _ _ _ _ Hk))
      as (_ & _ & _ & HH & Hh & Hp).
    unfold advance, py_mod. rewrite HH.
    destruct (max_horizon (self w) =? 0) eqn:H0; [|done].
    intros [= <- <-]. repeat split; [done..|]. right. split; [done|lia].
  - destruct (same_frame_fields _ _ (write_keys_frame _ _ _ _ Hk))
      as (_ & _ & _ & HH & Hh & Hp).
    intros [= <- <-]. repeat split; [done..|]. by left.
Qed.

Lemma set_slot_length a j x :
  length (slots (set_slot a j x)) = length (slots a).
Proof. unfold set_slot. simpl. by rewrite length_insert. Qed.

Lemma write_keys_lengths d w r w' :
  write_keys d w = (r, w') →
  all_rings (λ a, length (slots a) = Z.to_nat (max_horizon (self w)))
    (_buffer (self w)) →
  all_rings (λ a, length (slots a) = Z.to_nat (max_horizon (self w)))
    (_buffer (self w')).
Proof.
  apply (write_keys_all_rings
           (λ a, length (slots a) = Z.to_nat (max_horizon (self w)))).
  - intros a j x <-. apply set_slot_length.
  - apply Forall_forall. intros [k fs] _. apply Forall_forall.
    intros [_k _v] _. simpl. by rewrite length_replicate.
Qed.

(** A call that returns keeps the buffer well formed. *)
Lemma add_wf d w w' :
  wf (self w) → add d w = (Ok (), w') → wf (self w').
Proof.
  intros (HH & Hp & Hh & Hu & Hd & Hl) (w1 & Hk & _ & ->)%add_ok_inv.
  destruct (same_frame_fields _ _ (write_keys_frame _ _ _ _ Hk))
    as (_ & _ & _ & HH1 & _).
  unfold wf. simpl. rewrite HH1.
  pose proof (Z.mod_pos_bound (_pointer (self w) + 1) (max_horizon (self w)) HH).
  split; [done|]. split; [done|]. split; [lia|]. split.
  - intros ?. rewrite Z.mod_small by lia. lia.
  - split; [by eapply write_keys_is_dict|by eapply write_keys_lengths].
Qed.
End AddCall.

(** ** Calls of [add] that return *)
Section AddTotal.
Context `{Numeric DType elem}.
Implicit Types (b : list (string * list (string * ring DType elem))).
Implicit Types (w : World DType elem) (a : ring DType elem).
Implicit Types (v : ndarray DType elem) (k _k : string).
Implicit Types (d : list (string * Data (ndarray DType elem))).

Lemma slice_field_unique d k fs fs' _k _v _v' :
  slice_is_dict d → (k, fs) ∈ d → (_k, _v) ∈ nested_dict fs →
  (k, fs') ∈ d → (_k, _v') ∈ nested_dict fs' → _v' = _v.
Proof.
  intros [Hd Hf] Hin Hv Hin' Hv'.
  assert (fs' = fs) as ->.
  { apply (dict_elem_get _ _ _ Hd) in Hin, Hin'. congruence. }
  rewrite Forall_forall in Hf. specialize (Hf _ Hin). simpl in Hf.
  apply (dict_elem_get _ _ _ Hf) in Hv, Hv'. congruence.
Qed.

Lemma lookup2_all_rings (P : ring DType elem → Prop) b k _k a :
  all_rings P b → lookup2 b k _k = Some a → P a.
Proof.
  intros Hb. unfold lookup2.
  destruct (dict_get k b) as [fs|] eqn:Hk; [simpl|done]. intros Hf.
  apply (dict_get_Forall P _k a fs); [|done].
  by apply (dict_get_Forall (λ x, Forall (λ fa, P fa.2) x) k fs _ Hb).
Qed.

Lemma add_field_total d w w1 k fs _k _v :
  wf (self w) → slice_is_dict d → (k, fs) ∈ d → (_k, _v) ∈ nested_dict fs →
  add_inv d w w1 → is_Some (dict_get k (_buffer (self w1))) →
  ∃ w2, add_field k _k _v w1 = (Ok (), w2) ∧ add_inv d w w2 ∧
        is_Some (dict_get k (_buffer (self w2))).
Proof.
  intros (HH & Hp & _) Hd Hin Hv (Hfr & Hl & Hfit) [fields Hk].
  destruct (same_frame_fields _ _ Hfr) as (_ & _ & _ & HH1 & _ & Hp1).
  assert (∃ w2, add_field k _k _v w1 = (Ok (), w2)) as [w2 Hrun].
  { rewrite add_field_eq, Hk.
    destruct (dict_get _k fields) as [a|] eqn:Hf.
    - assert (lookup2 (_buffer (self w1)) k _k = Some a) as Ha
        by (unfold lookup2; rewrite Hk; done).
      rewrite np_setitem_ok; [eauto| |by eapply Hfit].
      rewrite (lookup2_all_rings _ _ _ _ _ Hl Ha). lia.
    - unfold np_empty. rewrite HH1.
      destruct (max_horizon (self w) <? 0) eqn:Hneg; [lia|].
      rewrite np_setitem_ok; [eauto|simpl|simpl].
      + rewrite length_replicate. lia.
      + by rewrite align_shape_same, broadcastable_refl. }
  exists w2. split; [done|]. split; [split; [|split]|].
  - eapply same_frame_trans; [done|]. by eapply add_field_frame.
  - eapply (add_field_all_rings
              (λ a, length (slots a) = Z.to_nat (max_horizon (self w))));
      [| |done|done].
    + intros a j x <-. unfold set_slot. simpl. by rewrite length_insert.
    + simpl. by rewrite length_replicate, HH1.
  - intros k2 fs2 _k2 _v2 a2 Hin2 Hv2 Ha2.
    destruct (decide (k2 = k ∧ _k2 = _k)) as [[-> ->]|Hne].
    + rewrite (slice_field_unique d k fs fs2 _k _v _v2) by done.
      destruct (add_field_hit _ _ _ _ _ Hrun) as (a' & Ha' & Hb & _); [lia|].
      congruence.
    + rewrite (add_field_other _ _ _ _ _ _ _ _ Hrun Hne) in Ha2.
      by eapply Hfit.
  - apply (add_field_keys _ _ _ _ _ _ k Hrun). eauto.
Qed.

Lemma add_key_total d w w1 k fs :
  wf (self w) → slice_is_dict d → (k, fs) ∈ d → add_inv d w w1 →
  ∃ w2, add_key k fs w1 = (Ok (), w2) ∧ add_inv d w w2.
Proof.
  intros Hwf Hd Hin (Hfr & Hl & Hfit). rewrite add_key_eq. unfold write_fields.
  destruct (for_each_total
              (λ w2, add_inv d w w2 ∧ is_Some (dict_get k (_buffer (self w2))))
              (nested_dict fs) (λ '(_k, _v), add_field k _k _v)
              (ensure_key k w1)) as (w2 & Hrun & Hinv & _).
  - intros [_k _v] w2 Hv [Hinv Hk].
    destruct (add_field_total d w w2 k fs _k _v) as (w3 & ? & ? & ?); eauto.
  - split; [split; [|split]|apply ensure_key_present].
    + eapply same_frame_trans; [done|apply ensure_key_frame].
    + by apply ensure_key_all_rings.
    + intros k2 fs2 _k2 _v2 a2 Hin2 Hv2. rewrite ensure_key_lookup2.
      by eapply Hfit.
  - eauto.
Qed.

(** A well-formed buffer takes every time slice that is a dict and whose
    arrays fit the arrays of the store. *)
Lemma add_total d w :
  wf (self w) → slice_is_dict d → fits (_buffer (self w)) d →
  ∃ w', add d w = (Ok (), w').
Proof.
  intros Hwf Hd Hfit. rewrite add_eq. unfold write_keys.
  destruct (for_each_total (add_inv d w) d (λ '(k, v), add_key k v) w)
    as (w1 & -> & Hfr & _).
  - intros [k fs] w1 Hin Hinv. by eapply add_key_total.
  - split; [apply same_frame_refl|]. by destruct Hwf as (_ & _ & _ & _ & _ & ?).
  - destruct (same_frame_fields _ _ Hfr) as (_ & _ & _ & HH & _).
    unfold advance, py_mod. rewrite HH.
    destruct Hwf as (HH0 & _).
    destruct (max_horizon (self w) =? 0) eqn:H0; [lia|eauto].
Qed.
End AddTotal.

(** ** Gathering *)
Section Gather.
Context `{Numeric DType elem}.
Implicit Types (b : list (string * list (string * ring DType elem))).
Implicit Types (a : ring DType elem) (xs : list (list Z)) (y : list Z).

Lemma mapM_result_ok {A B} (f : A → result B) (g : A → B) (l : list A) :
  Forall (λ x, f x = Ok (g x)) l → mapM f l = Ok (g <$> l).
Proof.
  induction 1 as [|x l Hx Hl IH]; simpl; [done|].
  rewrite Hx. simpl. by rewrite IH.
Qed.

Lemma mapM_result_inv {A B} (f : A → result B) (l : list A) (r : list B) :
  mapM f l = Ok r → Forall2 (λ x z, f x = Ok z) l r.
Proof.
  revert r. induction l as [|x l IH]; intros r; simpl.
  - intros [= <-]. constructor.
  - destruct (f x) as [z|] eqn:Hx; simpl; [|done].
    destruct (mapM f l) as [r'|]; simpl; [|done].
    intros [= <-]. constructor; auto.
Qed.

Lemma mapM_result_raise {A B} (f : A → result B) (l : list A) e :
  mapM f l = Raise e → ∃ x, x ∈ l ∧ f x = Raise e.
Proof.
  induction l as [|x l IH]; simpl; [done|].
  destruct (f x) as [z|e'] eqn:Hx; simpl.
  - destruct (mapM f l) as [r'|e']; simpl; [done|].
    intros [= <-]. destruct IH as (x' & ? & ?); [done|].
    exists x'. split; [by right|done].
  - intros [= <-]. exists x. split; [by left|done].
Qed.

Lemma np_getitem_ok a xs y n :
  has_copies n a →
  Forall (λ j, 0 ≤ j < n) y →
  Forall (Forall (λ i, 0 ≤ i < Z.of_nat (length (slots a)))) xs →
  np_getitem a xs y = Ok (getitem_result a xs y).
Proof.
  intros (c & dims & Hs & Hc) Hy Hxs. unfold np_getitem, getitem_result.
  rewrite Hs. simpl.
  rewrite (mapM_result_ok _ Z.to_nat y).
  2:{ eapply Forall_impl; [done|]. intros j Hj. simpl in Hj.
      apply norm_index_in. lia. }
  simpl. rewrite (mapM_result_ok _ (fmap Z.to_nat) xs).
  2:{ eapply Forall_impl; [done|]. intros row Hrow. simpl in Hrow.
      apply mapM_result_ok. eapply Forall_impl; [done|].
      intros i Hi. simpl in Hi. by apply norm_index_in. }
  simpl. unfold mret, result_ret. f_equal. f_equal.
  by rewrite <- list_fmap_compose.
Qed.

Lemma np_getitem_raise a xs y e : np_getitem a xs y = Raise e → e = IndexError.
Proof.
  unfold np_getitem. destruct (slot_shape a) as [|c dims]; [congruence|].
  destruct (mapM (norm_index c) y) as [ys|e1] eqn:Hy; simpl.
  - destruct (mapM _ xs) as [rows|e2] eqn:Hx; simpl; [done|].
    intros [= <-]. apply mapM_result_raise in Hx as (row & _ & Hrow).
    apply mapM_result_raise in Hrow as (i & _ & Hi).
    unfold norm_index in Hi. repeat case_bool_decide; congruence.
  - intros [= <-]. apply mapM_result_raise in Hy as (i & _ & Hi).
    unfold norm_index in Hi. repeat case_bool_decide; congruence.
Qed.

Lemma np_getitem_shape a xs y arr :
  np_getitem a xs y = Ok arr →
  Forall (λ row, length row = length y) xs →
  ∃ c dims, slot_shape a = c :: dims ∧
    batch_shape arr = length xs :: length y :: dims ∧
    batch_dtype arr = ring_dtype a ∧
    length (cells arr) = length xs ∧
    Forall (λ row, length row = length y) (cells arr).
Proof.
  unfold np_getitem. destruct (slot_shape a) as [|c dims]; [done|].
  destruct (mapM (norm_index c) y) as [ys|e1] eqn:Hy; simpl; [|done].
  destruct (mapM _ xs) as [rows|e2] eqn:Hx; simpl; [|done].
  intros [= <-] Hlen. exists c, dims. simpl. split; [done|]. split; [done|].
  split; [done|]. rewrite length_fmap.
  apply mapM_result_inv in Hx, Hy.
  split; [symmetry; by eapply Forall2_length|].
  apply Forall_fmap. apply Forall_forall. intros row Hrow. simpl.
  rewrite length_zip_with.
  apply list_elem_of_lookup in Hrow as [i Hi].
  destruct (Forall2_lookup_r _ _ _ _ _ Hx Hi) as (row0 & Hrow0 & Hm).
  apply mapM_result_inv in Hm.
  rewrite Forall_forall in Hlen.
  rewrite <- (Forall2_length _ _ _ Hm), <- (Forall2_length _ _ _ Hy).
  rewrite (Hlen row0); [lia|]. apply list_elem_of_lookup. eauto.
Qed.

Lemma gather_inv b xs y res :
  gather b xs y = Ok res →
  same_structure (λ a arr, np_getitem a xs y = Ok arr) b res.
Proof.
  intros Hg%mapM_result_inv. eapply Forall2_impl; [done|].
  intros [k fs] [k' fr]. simpl.
  destruct (mapM _ fs) as [fields|] eqn:Hf; simpl; [|done].
  intros [= <- <-]. split; [done|].
  apply mapM_result_inv in Hf. eapply Forall2_impl; [done|].
  intros [_k a] [_k' arr]. simpl.
  destruct (np_getitem a xs y); simpl; [|done]. by intros [= <- <-].
Qed.

Lemma gather_raise b xs y e : gather b xs y = Raise e → e = IndexError.
Proof.
  intros ([k fs] & _ & Hk)%mapM_result_raise.
  destruct (mapM _ fs) as [fields|e'] eqn:Hf; simpl in Hk; [done|].
  injection Hk as ->.
  apply mapM_result_raise in Hf as ([_k a] & _ & Ha).
  destruct (np_getitem a xs y) eqn:Hg; simpl in Ha; [done|].
  injection Ha as ->. by eapply np_getitem_raise.
Qed.

Lemma gather_ok b xs y n len :
  all_rings (has_copies n) b →
  all_rings (λ a, length (slots a) = len) b →
  Forall (λ j, 0 ≤ j < n) y →
  Forall (Forall (λ i, 0 ≤ i < Z.of_nat len)) xs →
  gather b xs y = Ok (gather_result b xs y).
Proof.
  intros Hc Hl Hy Hxs. unfold gather, gather_result.
  apply mapM_result_ok. apply Forall_forall. intros [k fs] Hin. simpl.
  rewrite (mapM_result_ok _ (λ fa, (fa.1, getitem_result fa.2 xs y)) fs);
    [done|].
  unfold all_rings in Hc, Hl. rewrite Forall_forall in Hc, Hl.
  specialize (Hc _ Hin). specialize (Hl _ Hin). simpl in Hc, Hl.
  rewrite Forall_forall in Hc, Hl.
  apply Forall_forall. intros [_k a] Ha.
  specialize (Hc _ Ha). specialize (Hl _ Ha). simpl in Hc, Hl.
  rewrite (np_getitem_ok a xs y n); [done|done|done|]. by rewrite Hl.
Qed.

Lemma gather_result_structure b xs y :
  same_structure (λ a arr, arr = getitem_result a xs y) b
    (gather_result b xs y).
Proof.
  unfold same_structure, gather_result. apply Forall2_fmap_r.
  apply Forall_Forall2_diag, Forall_forall. intros [k fs] _. simpl.
  split; [done|]. apply Forall2_fmap_r.
  apply Forall_Forall2_diag, Forall_forall. by intros [_k a] _.
Qed.
End Gather.

(** ** A call of [sample] *)
Section SampleCall.
Context `{Numeric DType elem}.
Implicit Types (b : list (string * list (string * ring DType elem))).
Implicit Types (w : World DType elem) (s : DataBuffer DType elem).
Implicit Types (g : rng).

Lemma randint_ok low high size g :
  0 < size → low < high →
  randint low high size g =
    (Ok ((λ i, low + g i mod (high - low)) <$> seq 0 (Z.to_nat size)),
     λ i, g (i + Z.to_nat size)%nat).
Proof.
  intros ??. unfold randint.
  rewrite bool_decide_eq_false_2 by lia.
  rewrite bool_decide_eq_false_2 by lia.
  by rewrite bool_decide_eq_false_2 by lia.
Qed.

Lemma randint_raise low high size g e g' :
  randint low high size g = (Raise e, g') →
  e = ValueError ∧ g' = g ∧ (size < 0 ∨ high ≤ low) ∧ size ≠ 0.
Proof.
  unfold randint. repeat case_bool_decide; intros [= <- <-]; auto.
Qed.

Lemma randint_inv low high size g x g' :
  randint low high size g = (Ok x, g') →
  0 ≤ size ∧ (0 < size → low < high) ∧
  x = (λ i, low + g i mod (high - low)) <$> seq 0 (Z.to_nat size) ∧
  ∀ i, g' i = g (i + Z.to_nat size)%nat.
Proof.
  unfold randint. repeat case_bool_decide; intros [= <- <-].
  - subst size. repeat split; try lia. intros i. f_equal. simpl. lia.
  - repeat split; lia.
Qed.

Lemma sample_eq bs ts w :
  sample bs ts w =
    let s := self w in
    let B := py_or bs (batch_size s) in
    let T := py_or ts (time_step s) in
    if bool_decide (T ≤ _horizon_length s) then
      match randint (sample_start s) (_pointer s - T + 1) B (np_random w) with
      | (Raise e, g) => (Raise e, mk_World s g)
      | (Ok x, g) =>
          match randint 0 (n_copys s) B g with
          | (Raise e, g') => (Raise e, mk_World s g')
          | (Ok y, g') =>
              (gather (_buffer s) (sample_xs s T B x) y, mk_World s g')
          end
      end
    else (Raise AssertionError, w).
Proof.
  unfold sample, get_self, py_assert, with_random, lift, raise, sample_xs.
  unfold mbind, M_bind, mret, M_ret. simpl.
  case_bool_decide; simpl; [|done].
  destruct (randint (sample_start _) _ _ _) as [[x|e] g]; simpl; [|done].
  destruct (randint 0 _ _ _) as [[y|e] g']; simpl; done.
Qed.

Lemma zip_with_replicate_l {A B C} (f : A → B → C) (a : A) (l : list B) :
  zip_with f (replicate (length l) a) l = f a <$> l.
Proof. induction l as [|x l IH]; simpl; [done|]. by rewrite IH. Qed.

Lemma sample_xs_eq s T B x :
  length x = Z.to_nat B →
  sample_xs s T B x =
    (λ t, (λ xb, if _horizon_length s =? 0 then 0
                 else (Z.of_nat t + xb) mod _horizon_length s) <$> x)
      <$> seq 0 (Z.to_nat T).
Proof.
  intros Hx. unfold sample_xs, np_mod, np_add, np_tile, np_arange.
  rewrite <- !list_fmap_compose. apply list_fmap_ext. intros _ t _. simpl.
  rewrite <- Hx, zip_with_replicate_l, <- list_fmap_compose. done.
Qed.

Lemma sample_xs_length s T B x :
  length (sample_xs s T B x) = Z.to_nat T.
Proof.
  unfold sample_xs, np_mod, np_add, np_tile, np_arange.
  by rewrite !length_fmap, length_seq.
Qed.

Lemma sample_xs_rows s T B x :
  length x = Z.to_nat B →
  Forall (λ row, length row = Z.to_nat B) (sample_xs s T B x).
Proof.
  intros Hx. rewrite sample_xs_eq by done. apply Forall_fmap, Forall_forall.
  intros t _. simpl. by rewrite length_fmap.
Qed.

Lemma sample_xs_lookup s T B x t i xb :
  length x = Z.to_nat B → (t < Z.to_nat T)%nat → x !! i = Some xb →
  sample_xs s T B x !! t ≫= (.!! i) =
    Some (if _horizon_length s =? 0 then 0
          else (Z.of_nat t + xb) mod _horizon_length s).
Proof.
  intros Hx Ht Hi. rewrite sample_xs_eq by done.
  rewrite list_lookup_fmap, lookup_seq_lt by done. simpl.
  by rewrite list_lookup_fmap, Hi.
Qed.

Lemma drawn_x_length s T B g : length (drawn_x s T B g) = Z.to_nat B.
Proof. unfold drawn_x. by rewrite length_fmap, length_seq. Qed.

Lemma drawn_y_length s B g : length (drawn_y s B g) = Z.to_nat B.
Proof. unfold drawn_y. by rewrite length_fmap, length_seq. Qed.

Lemma drawn_x_range s T B g :
  sample_start s ≤ _pointer s - T →
  Forall (λ xb, sample_start s ≤ xb ≤ _pointer s - T) (drawn_x s T B g).
Proof.
  intros Hr. unfold drawn_x. apply Forall_fmap, Forall_forall. intros i _.
  simpl.
  pose proof (Z.mod_pos_bound (g i) (_pointer s - T + 1 - sample_start s)).
  lia.
Qed.

Lemma drawn_y_range s B g :
  0 < n_copys s → Forall (λ yb, 0 ≤ yb < n_copys s) (drawn_y s B g).
Proof.
  intros Hn. unfold drawn_y. apply Forall_fmap, Forall_forall. intros i _.
  simpl. pose proof (Z.mod_pos_bound (g (i + Z.to_nat B)%nat) (n_copys s - 0)).
  lia.
Qed.

(** In a well-formed buffer the range of start indices is not empty when the
    window fits the filled part. *)
Lemma sample_range_nonempty s T :
  wf s → T ≤ _horizon_length s → sample_start s ≤ _pointer s - T.
Proof.
  intros (HH & Hp & Hh & Hu & _) HT. unfold sample_start.
  case_bool_decide; lia.
Qed.

Lemma sample_xs_range s T B x :
  wf s → length x = Z.to_nat B →
  Forall (Forall (λ i, 0 ≤ i < Z.of_nat (Z.to_nat (max_horizon s))))
    (sample_xs s T B x).
Proof.
  intros (HH & Hp & Hh & Hu & _) Hx. rewrite sample_xs_eq by done.
  apply Forall_fmap, Forall_forall. intros t _. simpl.
  apply Forall_fmap, Forall_forall. intros xb _. simpl.
  destruct (_horizon_length s =? 0) eqn:H0; [lia|].
  pose proof (Z.mod_pos_bound (Z.of_nat t + xb) (_horizon_length s)). lia.
Qed.

(** [sample] returns on a well-formed buffer whose arrays have a leading
    axis for the copies, for a batch size that is not negative and a window
    that fits the filled part. *)
Lemma sample_ok bs ts w :
  let s := self w in
  let B := py_or bs (batch_size s) in
  let T := py_or ts (time_step s) in
  wf s → all_rings (has_copies (n_copys s)) (_buffer s) →
  0 < n_copys s → 0 < B → T ≤ _horizon_length s →
  sample bs ts w =
    (Ok (gather_result (_buffer s)
           (sample_xs s T B (drawn_x s T B (np_random w)))
           (drawn_y s B (np_random w))),
     mk_World s (λ i, np_random w (i + Z.to_nat B + Z.to_nat B)%nat)).
Proof.
  intros s B T Hwf Hc Hn HB HT. rewrite sample_eq. fold s B T.
  simpl. rewrite bool_decide_eq_true_2 by done.
  pose proof (sample_range_nonempty s T Hwf HT).
  rewrite randint_ok by lia. rewrite randint_ok by lia.
  fold (drawn_x s T B (np_random w)). fold (drawn_y s B (np_random w)).
  rewrite (gather_ok _ _ _ (n_copys s) (Z.to_nat (max_horizon s))); [done|..].
  - done.
  - by destruct Hwf as (_ & _ & _ & _ & _ & ?).
  - by apply drawn_y_range.
  - apply sample_xs_range; [done|apply drawn_x_length].
Qed.

(** The same for every batch size that is not negative: an empty batch is
    drawn without a look at the ranges. *)
Lemma sample_returns bs ts w :
  let s := self w in
  let B := py_or bs (batch_size s) in
  let T := py_or ts (time_step s) in
  wf s → all_rings (has_copies (n_copys s)) (_buffer s) →
  0 < n_copys s → 0 ≤ B → T ≤ _horizon_length s →
  ∃ g',
    sample bs ts w =
      (Ok (gather_result (_buffer s)
             (sample_xs s T B (drawn_x s T B (np_random w)))
             (drawn_y s B (np_random w))),
       mk_World s g').
Proof.
  intros s B T Hwf Hc Hn HB HT. rewrite sample_eq. fold s B T.
  simpl. rewrite bool_decide_eq_true_2 by done.
  assert (sample_start s < _pointer s - T + 1) as Hr
    by (pose proof (sample_range_nonempty s T Hwf HT); lia).
  destruct (randint _ _ _ _) as [[x|e] g1] eqn:Hx; simpl.
  2:{ apply randint_raise in Hx as (_ & _ & [?|?] & _); lia. }
  apply randint_inv in Hx as (_ & _ & -> & Hg1).
  destruct (randint _ _ _ _) as [[y|e] g2] eqn:Hy; simpl.
  2:{ apply randint_raise in Hy as (_ & _ & [?|?] & _); lia. }
  apply randint_inv in Hy as (_ & _ & -> & Hg2).
  fold (drawn_x s T B (np_random w)).
  match goal with
  | |- context [gather _ _ ?y] =>
      assert (y = drawn_y s B (np_random w)) as ->
  end.
  { unfold drawn_y. apply list_fmap_ext. intros _ i _. by rewrite Hg1. }
  exists g2.
  rewrite (gather_ok _ _ _ (n_copys s) (Z.to_nat (max_horizon s))); [done|..].
  - done.
  - by destruct Hwf as (_ & _ & _ & _ & _ & ?).
  - by apply drawn_y_range.
  - apply sample_xs_range; [done|apply drawn_x_length].
Qed.
End SampleCall.

(** * The properties of the specification *)

Section SampleClaims.
Context `{Numeric DType elem}.
Implicit Types (w : World DType elem) (s : DataBuffer DType elem).

(** C5: for every buffer state, [sample] fails with the insufficient-data
    error, the [AssertionError] of [assert T <= self._horizon_length], exactly
    when the effective window length [T = timestep or self.time_step]
    exceeds the fill counter. *)
Theorem sample_raises_iff_window_exceeds_fill bs ts w :
  fst (sample bs ts w) = Raise AssertionError ↔
  _horizon_length (self w) < py_or ts (time_step (self w)).
Proof.
  rewrite sample_eq. simpl. case_bool_decide as HT; simpl.
  - split; [|lia].
    destruct (randint (sample_start _) _ _ _) as [[x|e] g] eqn:Hx; simpl.
    + destruct (randint 0 _ _ _) as [[y|e] g'] eqn:Hy; simpl.
      * destruct (gather _ _ _) as [res|e] eqn:Hg; [done|].
        apply gather_raise in Hg as ->. done.
      * apply randint_raise in Hy as (-> & _). done.
    + apply randint_raise in Hx as (-> & _). done.
  - split; [lia|done].
Qed.

(** C6: [sample] leaves the buffer as it is, its arrays, the pointer and the
    fill counter, whether it returns or raises; and a second call made
    after the generator has been put back into the state it had before the
    first one gives the result of the first. *)
Theorem sample_is_read_only bs ts w :
  self (snd (sample bs ts w)) = self w ∧
  fst (sample bs ts (mk_World (self (snd (sample bs ts w))) (np_random w)))
    = fst (sample bs ts w).
Proof.
  assert (self (snd (sample bs ts w)) = self w) as Hself.
  { rewrite sample_eq. simpl. case_bool_decide; [|done].
    destruct (randint (sample_start _) _ _ _) as [[x|e] g]; [|done].
    by destruct (randint 0 _ _ _) as [[y|e] g']. }
  split; [done|]. rewrite Hself. by destruct w.
Qed.

(** C7: [can_sample] is true exactly when
    [(fill - time_step) * n_copys >= batch_size]; for a positive number of
    copies and a batch size that is not negative it is false whenever the
    fill counter is below [time_step]. *)
Theorem can_sample_spec s :
  (can_sample s = true ↔
   (_horizon_length s - time_step s) * n_copys s >= batch_size s) ∧
  (0 < n_copys s → 0 ≤ batch_size s →
   _horizon_length s < time_step s → can_sample s = false).
Proof.
  unfold can_sample. split; [apply bool_decide_eq_true|].
  intros Hn Hb Hlt. apply bool_decide_eq_false. nia.
Qed.
End SampleClaims.

(** ** Sequences of calls of [add] *)
Section AddSequences.
Context `{Numeric DType elem}.
Implicit Types (w : World DType elem) (s : DataBuffer DType elem).
Implicit Types (d : list (string * Data (ndarray DType elem))).
Implicit Types (ds : list (list (string * Data (ndarray DType elem)))).

Lemma add_scalars d w w' :
  add d w = (Ok (), w') →
  n_copys (self w') = n_copys (self w) ∧
  batch_size (self w') = batch_size (self w) ∧
  time_step (self w') = time_step (self w) ∧
  max_horizon (self w') = max_horizon (self w) ∧
  _pointer (self w') = (_pointer (self w) + 1) mod max_horizon (self w) ∧
  _horizon_length (self w') =
    Z.min (_horizon_length (self w) + 1) (max_horizon (self w)).
Proof.
  intros (w1 & Hk & _ & ->)%add_ok_inv. simpl.
  by destruct (same_frame_fields _ _ (write_keys_frame _ _ _ _ Hk))
    as (-> & -> & -> & -> & _).
Qed.

Lemma add_buffer d w w' :
  add d w = (Ok (), w') →
  ∃ w1, write_keys d w = (Ok (), w1) ∧ _buffer (self w') = _buffer (self w1).
Proof. intros (w1 & Hk & _ & ->)%add_ok_inv. by exists w1. Qed.

Lemma init_inv nc bs bsz ts s :
  init nc bs bsz ts = Ok s →
  nc ≠ 0 ∧ s = mk_DataBuffer nc bs bsz ts (bsz / nc) [] 0 0.
Proof.
  unfold init, py_floordiv. destruct (nc =? 0) eqn:Hn; [done|].
  intros [= <-]. split; [lia|done].
Qed.

Lemma init_wf nc bs bsz ts s :
  init nc bs bsz ts = Ok s → 0 < max_horizon s → wf s.
Proof.
  intros [_ ->]%init_inv HH. simpl in HH. unfold wf. simpl.
  repeat split; try lia; try apply NoDup_nil_2; constructor.
Qed.

Lemma adds_cons d ds w :
  adds (d :: ds) w =
    match add d w with
    | (Ok _, w') => adds ds w'
    | (Raise e, w') => (Raise e, w')
    end.
Proof. reflexivity. Qed.

(** After [n] calls that return, the pointer has gone [n] steps round the
    ring and the fill counter has grown by [n] up to the horizon. *)
Lemma adds_scalars ds w w' :
  wf (self w) → adds ds w = (Ok (), w') →
  wf (self w') ∧
  n_copys (self w') = n_copys (self w) ∧
  batch_size (self w') = batch_size (self w) ∧
  time_step (self w') = time_step (self w) ∧
  max_horizon (self w') = max_horizon (self w) ∧
  _pointer (self w') =
    (_pointer (self w) + Z.of_nat (length ds)) mod max_horizon (self w) ∧
  _horizon_length (self w') =
    Z.min (_horizon_length (self w) + Z.of_nat (length ds))
      (max_horizon (self w)).
Proof.
  revert w. induction ds as [|d ds IH]; intros w Hwf.
  - intros [= <-]. pose proof Hwf as (HH & Hp & Hh & _).
    simpl. rewrite Z.add_0_r, Z.mod_small by lia.
    split; [done|]. repeat split; try done; lia.
  - rewrite adds_cons. destruct (add d w) as [[[]|e] w1] eqn:Hadd; [|done].
    intros Hrun. pose proof (add_wf _ _ _ Hwf Hadd) as Hwf1.
    destruct (add_scalars _ _ _ Hadd) as (Hn & Hb & Ht & HH & Hp & Hh).
    destruct (IH w1 Hwf1 Hrun) as (Hwf' & -> & -> & -> & -> & -> & ->).
    rewrite Hn, Hb, Ht, HH, Hp, Hh.
    pose proof Hwf as (HH0 & Hp0 & Hh0 & _).
    split; [done|]. repeat split; try done.
    + rewrite Zplus_mod_idemp_l. f_equal. simpl length. lia.
    + simpl length. lia.
Qed.
End AddSequences.

Section AddClaims.
Context `{Numeric DType elem}.
Implicit Types (w : World DType elem) (s : DataBuffer DType elem).
Implicit Types (d : list (string * Data (ndarray DType elem))).

(** C3: every call of [add] that returns moves the shared pointer one slot
    on modulo [max_horizon] and adds one to the fill counter up to
    [max_horizon]; after exactly [max_horizon] calls on a new buffer the
    pointer is [0] again, the ring is full, and the next call writes the
    arrays of its time slice into slot [0] of their fields. *)
Theorem add_advances_pointer_and_wraps :
  (∀ d w w',
     add d w = (Ok (), w') →
     _pointer (self w') = (_pointer (self w) + 1) mod max_horizon (self w) ∧
     _horizon_length (self w') =
       Z.min (_horizon_length (self w) + 1) (max_horizon (self w)) ∧
     max_horizon (self w') = max_horizon (self w)) ∧
  (∀ nc bs bsz ts s0 g ds w,
     init nc bs bsz ts = Ok s0 → 0 < max_horizon s0 →
     Z.of_nat (length ds) = max_horizon s0 →
     adds ds (mk_World s0 g) = (Ok (), w) →
     _pointer (self w) = 0 ∧ _horizon_length (self w) = max_horizon s0 ∧
     ∀ d w' k fs _k _v,
       slice_is_dict d → add d w = (Ok (), w') →
       (k, fs) ∈ d → (_k, _v) ∈ nested_dict fs →
       ∃ a', lookup2 (_buffer (self w')) k _k = Some a' ∧
             slots a' !! 0%nat = Some (Some (stored a' _v))).
Proof.
  split.
  - intros d w w' (_ & _ & _ & ? & ? & ?)%add_scalars. done.
  - intros nc bs bsz ts s0 g ds w Hinit HH Hlen Hrun.
    pose proof (init_wf _ _ _ _ _ Hinit HH) as Hwf.
    destruct (adds_scalars ds (mk_World s0 g) w Hwf Hrun)
      as (Hwf' & _ & _ & _ & HH' & Hp & Hh).
    apply init_inv in Hinit as [_ ->]. simpl in *.
    rewrite Hlen, Z.add_0_l, Z_mod_same_full in Hp.
    split; [done|]. split; [lia|].
    intros d w' k fs _k _v [Hd Hf] Hadd Hin Hv.
    destruct (add_buffer _ _ _ Hadd) as (w1 & Hk & ->).
    destruct (write_keys_hit d w w1 k fs _k _v) as (a' & Ha & _ & Hs);
      [done..|lia|].
    exists a'. split; [done|]. by rewrite Hp in Hs.
Qed.
End AddClaims.

Section WriteClaims.
Context `{Numeric DType elem}.
Implicit Types (w : World DType elem) (s : DataBuffer DType elem).
Implicit Types (a : ring DType elem) (v : ndarray DType elem).
Implicit Types (d : list (string * Data (ndarray DType elem))).

(** C8, as amended: the write of [add] into a field that has an array fails,
    with NumPy's [ValueError], exactly when the shape of the incoming array
    cannot be broadcast to the shape of a slot; otherwise it returns, and
    the slot at the pointer holds the incoming values repeated to the shape
    of the slot and converted to the element type of the field, whatever
    the element type of the incoming array. *)
Theorem write_fails_only_when_not_broadcastable k _k v w a :
  lookup2 (_buffer (self w)) k _k = Some a →
  0 ≤ _pointer (self w) < Z.of_nat (length (slots a)) →
  add_field k _k v w =
    if broadcastable (align_shape (shape v) (slot_shape a)) (slot_shape a)
    then (Ok (),
          put_ring k _k
            (set_slot a (Z.to_nat (_pointer (self w))) (stored a v)) w)
    else (Raise ValueError, w).
Proof.
  intros Ha Hp. rewrite add_field_eq. unfold lookup2 in Ha.
  destruct (dict_get k _) as [fields|]; [simpl in Ha|done]. rewrite Ha.
  unfold np_setitem. rewrite norm_index_in by done.
  unfold broadcast_to. simpl.
  by destruct (broadcastable _ _).
Qed.

(** C9: [add] is not transactional.  When a field write raises part of the
    way through the loops, the call raises that error with the pointer and
    the fill counter as they were, while the store keeps all the writes made
    before: every other field is as the writes before the failing one left
    it, and the slot at the pointer of every field written so far stays
    assigned. *)
Theorem add_failure_keeps_partial_writes
    pre k fs_pre _k _v fs_post post w w0 w1 w2 e :
  write_keys pre w = (Ok (), w0) →
  add_key k (from_nested_dict fs_pre) w0 = (Ok (), w1) →
  add_field k _k _v w1 = (Raise e, w2) →
  add (pre ++ (k, from_nested_dict (fs_pre ++ (_k, _v) :: fs_post)) :: post) w
    = (Raise e, w2) ∧
  _pointer (self w2) = _pointer (self w) ∧
  _horizon_length (self w2) = _horizon_length (self w) ∧
  (∀ k2 _k2, ¬ (k2 = k ∧ _k2 = _k) →
     lookup2 (_buffer (self w2)) k2 _k2 = lookup2 (_buffer (self w1)) k2 _k2) ∧
  (0 ≤ _pointer (self w) →
   ∀ k2 _k2, in_slice (pre ++ [(k, from_nested_dict fs_pre)]) k2 _k2 →
     written_at (_buffer (self w2)) k2 _k2 (Z.to_nat (_pointer (self w)))).
Proof.
  intros Hpre Hkey Hfield.
  assert (write_keys
            (pre ++ (k, from_nested_dict (fs_pre ++ (_k, _v) :: fs_post)) :: post)
            w = (Raise e, w2)) as Hrun.
  { unfold write_keys. eapply for_each_raise; [exact Hpre|].
    rewrite add_key_eq in Hkey |- *. unfold write_fields in *.
    unfold nested_dict, from_nested_dict in *.
    by eapply for_each_raise. }
  split; [by rewrite add_eq, Hrun|].
  destruct (same_frame_fields _ _ (write_keys_frame _ _ _ _ Hrun))
    as (_ & _ & _ & _ & Hh & Hp).
  split; [done|]. split; [done|]. split.
  - intros k2 _k2 Hne. by eapply add_field_other.
  - intros Hp0 k2 _k2 Hin. eapply add_field_mono; [exact Hfield|].
    eapply write_keys_written; [|done|done].
    unfold write_keys. rewrite (for_each_app _ _ _ _ _ Hpre).
    rewrite for_each_cons, Hkey. done.
Qed.
End WriteClaims.

(** ** Counting the raw numbers behind a draw *)
Section Counting.
Implicit Types (r t : list Z) (fs : list (Z → Z)) (vs : list Z).

Lemma filter_none {A} (P : A → Prop) `{∀ x, Decision (P x)} (l : list A) :
  (∀ x, x ∈ l → ¬ P x) → filter P l = [].
Proof.
  induction l as [|a l IH]; intros Hl; [done|].
  rewrite filter_cons_False by (apply Hl; left).
  apply IH. intros x Hx. apply Hl. by right.
Qed.

Lemma length_filter_iff {A} (P Q : A → Prop)
    `{∀ x, Decision (P x)} `{∀ x, Decision (Q x)} (l : list A) :
  (∀ x, x ∈ l → P x ↔ Q x) →
  length (filter P l) = length (filter Q l).
Proof.
  induction l as [|a l IH]; intros Hl; [done|].
  assert (length (filter P l) = length (filter Q l)) as IH'
    by (apply IH; intros x Hx; apply Hl; by right).
  destruct (decide (P a)) as [Ha|Ha].
  - rewrite filter_cons_True by done.
    rewrite filter_cons_True by (apply Hl; [left|done]). simpl. by rewrite IH'.
  - rewrite filter_cons_False by done.
    rewrite filter_cons_False; [done|]. intros Hq. apply Ha, Hl; [left|done].
Qed.

(** A property that one element of a list without repetition has, and no
    other, is counted once. *)
Lemma count_unique {A} (P : A → Prop) `{∀ x, Decision (P x)}
    (l : list A) (x0 : A) :
  NoDup l → x0 ∈ l → P x0 → (∀ x, x ∈ l → P x → x = x0) →
  length (filter P l) = 1%nat.
Proof.
  induction l as [|a l IH]; intros Hnd Hin HP Huniq;
    [by apply elem_of_nil in Hin|].
  apply NoDup_cons in Hnd as [Ha Hnd].
  destruct (decide (P a)) as [Hpa|Hpa].
  - assert (a = x0) as -> by (apply Huniq; [left|done]).
    rewrite filter_cons_True by done. rewrite filter_none; [done|].
    intros x Hx Hpx. apply Ha.
    rewrite <- (Huniq x); [done|by right|done].
  - rewrite filter_cons_False by done.
    apply IH; [done| |done|].
    + apply elem_of_cons in Hin as [->|?]; [done|done].
    + intros x Hx. apply Huniq. by right.
Qed.

(** Among the raw numbers below [q * n], each remainder modulo [n] is that
    of [q] of them. *)
Lemma count_remainder (q n : nat) (u : Z) :
  0 ≤ u < Z.of_nat n →
  length (filter (λ v : Z, v mod Z.of_nat n = u)
            (Z.of_nat <$> seq 0 (q * n))) = q.
Proof.
  intros Hu. induction q as [|q IH]; [done|].
  replace (S q * n)%nat with (q * n + n)%nat by lia.
  rewrite seq_app, fmap_app, filter_app, length_app, IH. simpl.
  rewrite (count_unique _ _ (Z.of_nat (q * n) + u)); [lia|..].
  - apply (NoDup_fmap_2 _), NoDup_seq.
  - apply list_elem_of_fmap. exists (q * n + Z.to_nat u)%nat.
    split; [lia|]. apply elem_of_seq. lia.
  - rewrite Nat2Z.inj_mul, Z.add_comm, Z_mod_plus_full.
    apply Z.mod_small. lia.
  - intros x Hx Hxu. apply list_elem_of_fmap in Hx as (j & -> & Hj).
    apply elem_of_seq in Hj.
    assert (Z.of_nat j = Z.of_nat (q * n) + (Z.of_nat j - Z.of_nat (q * n)))
      as Hsplit by lia.
    rewrite Hsplit in Hxu.
    rewrite Nat2Z.inj_mul, Z.add_comm, Z_mod_plus_full in Hxu.
    rewrite Z.mod_small in Hxu by lia. lia.
Qed.

Lemma raw_tuples_length (k M : nat) r : r ∈ raw_tuples k M → length r = k.
Proof.
  revert r. induction k as [|k IH]; intros r; simpl.
  - by intros ->%list_elem_of_singleton.
  - intros (v & Hr & _)%list_elem_of_bind.
    apply list_elem_of_fmap in Hr as (t & -> & Ht). simpl. by rewrite (IH t).
Qed.

Lemma count_cons (P : list Z → Prop) (Q : list Z → Prop) (R0 : Z → Prop)
    `{∀ x, Decision (P x)} `{∀ x, Decision (Q x)} `{∀ x, Decision (R0 x)}
    (R : list Z) (T : list (list Z)) :
  (∀ v t, P (v :: t) ↔ R0 v ∧ Q t) →
  length (filter P (v ← R; (λ t, v :: t) <$> T)) =
  (length (filter R0 R) * length (filter Q T))%nat.
Proof.
  intros HP.
  assert (∀ v, length (filter P ((λ t, v :: t) <$> T)) =
               if decide (R0 v) then length (filter Q T) else 0%nat) as Hone.
  { intros v. destruct (decide (R0 v)) as [Hv|Hv].
    - induction T as [|t T IH]; [done|]. rewrite fmap_cons.
      destruct (decide (Q t)) as [Ht|Ht].
      + rewrite (filter_cons_True P) by (by apply HP).
        rewrite (filter_cons_True Q) by done.
        cbn [length]. by rewrite IH.
      + rewrite (filter_cons_False P) by (rewrite HP; tauto).
        by rewrite (filter_cons_False Q) by done.
    - rewrite filter_none; [done|].
      intros x (t & -> & _)%list_elem_of_fmap. rewrite HP. tauto. }
  induction R as [|v R IH]; [done|].
  rewrite bind_cons, filter_app, length_app, IH, Hone.
  destruct (decide (R0 v)) as [Hv|Hv].
  - rewrite filter_cons_True by done. simpl. lia.
  - by rewrite filter_cons_False by done.
Qed.

(** The lists of raw numbers with given images are as many as the product,
    over the positions, of the raw numbers with the image of the
    position. *)
Lemma count_images fs vs (M : nat) :
  length vs = length fs →
  length (filter (λ r, images fs r = vs) (raw_tuples (length fs) M)) =
  foldr Nat.mul 1%nat
    (zip_with (λ f v, length (filter (λ z, f z = v)
                                (Z.of_nat <$> seq 0 M))) fs vs).
Proof.
  revert vs. induction fs as [|f fs IH]; intros [|v vs] Hl; simpl in *;
    try done.
  rewrite (count_cons _ (λ t, images fs t = vs) (λ z, f z = v)).
  - rewrite IH by lia. done.
  - intros z t. unfold images. simpl. split.
    + by intros [= -> ->].
    + by intros [-> ->].
Qed.

Lemma product_constant (c : nat) (l : list nat) :
  Forall (λ x, x = c) l → foldr Nat.mul 1%nat l = (c ^ length l)%nat.
Proof. induction 1 as [|x l -> _ IH]; simpl; [done|]. by rewrite IH. Qed.

Lemma product_app (l1 l2 : list nat) :
  foldr Nat.mul 1%nat (l1 ++ l2) =
  (foldr Nat.mul 1%nat l1 * foldr Nat.mul 1%nat l2)%nat.
Proof. induction l1 as [|x l1 IH]; simpl; [lia|]. rewrite IH. lia. Qed.

Lemma fmap_seq_take {A} (f : Z → A) r (k : nat) :
  (k ≤ length r)%nat →
  (λ i, f (of_raw r i)) <$> seq 0 k = f <$> take k r.
Proof.
  intros Hk. apply list_eq. intros i. rewrite !list_lookup_fmap.
  destruct (decide (i < k)%nat) as [Hi|Hi].
  - rewrite lookup_seq_lt by done. rewrite lookup_take_lt by done. simpl.
    unfold of_raw. destruct (lookup_lt_is_Some_2 r i) as [v Hv]; [lia|].
    by rewrite Hv.
  - rewrite lookup_seq_ge by lia. by rewrite lookup_take_ge by lia.
Qed.

Lemma fmap_seq_drop {A} (f : Z → A) r (k : nat) :
  length r = (k + k)%nat →
  (λ i, f (of_raw r (i + k)%nat)) <$> seq 0 k = f <$> drop k r.
Proof.
  intros Hk. apply list_eq. intros i. rewrite !list_lookup_fmap.
  rewrite lookup_drop. destruct (decide (i < k)%nat) as [Hi|Hi].
  - rewrite lookup_seq_lt by done. simpl. unfold of_raw.
    replace (i + k)%nat with (k + i)%nat by lia.
    destruct (lookup_lt_is_Some_2 r (k + i)) as [v Hv]; [lia|].
    by rewrite Hv.
  - rewrite lookup_seq_ge by lia. by rewrite lookup_ge_None_2 by lia.
Qed.

Lemma images_replicate (f g : Z → Z) r (k : nat) :
  length r = (k + k)%nat →
  images (replicate k f ++ replicate k g) r
  = (f <$> take k r) ++ (g <$> drop k r).
Proof.
  intros Hk. rewrite <- (take_drop k r) at 1. unfold images.
  rewrite zip_with_app by (rewrite length_replicate, length_take; lia).
  assert (∀ (h : Z → Z) l, zip_with (λ f v, f v) (replicate (length l) h) l
                           = h <$> l) as Hz.
  { intros h l. induction l as [|x l IH]; simpl; [done|]. by rewrite IH. }
  f_equal.
  - rewrite <- (Hz f (take k r)). do 2 f_equal. rewrite length_take. lia.
  - rewrite <- (Hz g (drop k r)). do 2 f_equal. rewrite length_drop. lia.
Qed.
End Counting.

Section WindowClaims.
Context `{Numeric DType elem}.
Implicit Types (w : World DType elem) (s : DataBuffer DType elem).
Implicit Types (a : ring DType elem) (arr : batch DType elem).
Implicit Types (x y : list Z).

Lemma getitem_result_window s T B x y n a :
  has_copies n a → length x = Z.to_nat B → T ≤ _horizon_length s →
  window s T x y a (getitem_result a (sample_xs s T B x) y).
Proof.
  intros (c & dims & Hs & _) Hx HT. exists c, dims. split; [done|].
  intros t i xb yb Ht Hxb Hyb. unfold cell, getitem_result. simpl.
  rewrite Hs. simpl.
  pose proof (sample_xs_lookup s T B x t i xb Hx Ht Hxb) as Hl.
  rewrite list_lookup_fmap.
  destruct (sample_xs s T B x !! t) as [row|]; [simpl in *|done].
  rewrite lookup_zip_with, !list_lookup_fmap, Hl, Hyb. simpl.
  destruct (_horizon_length s =? 0) eqn:H0; [lia|done].
Qed.

Lemma same_structure_impl {X Y} (R R' : X → Y → Prop) b res :
  same_structure R b res → (∀ u z, R u z → R' u z) →
  same_structure R' b res.
Proof.
  intros Hs HR. eapply Forall2_impl; [exact Hs|].
  intros [k fs] [k' fr] [? Hf]. split; [done|].
  eapply Forall2_impl; [exact Hf|]. intros [_k u] [_k' z] [? ?].
  split; [done|]. by apply HR.
Qed.

Lemma same_structure_all_rings {Y} (P : ring DType elem → Prop)
    (R : ring DType elem → Y → Prop) b res :
  all_rings P b → same_structure R b res →
  same_structure (λ a z, P a ∧ R a z) b res.
Proof.
  intros Hb Hs. unfold same_structure, all_rings in *.
  induction Hs as [|[k fs] [k' fr] b res [? Hf] Hs IH]; [constructor|].
  apply Forall_cons in Hb as [Hfs Hb]. constructor; [|by apply IH].
  split; [done|]. simpl in *. clear -Hfs Hf.
  induction Hf as [|[_k a] [_k' z] fs fr [? ?] Hf IH]; [constructor|].
  apply Forall_cons in Hfs as [Ha Hfs]. constructor; [|by apply IH]. done.
Qed.

Lemma getitem_result_aligned s T B x y n a :
  wf s → has_copies n a →
  length (slots a) = Z.to_nat (max_horizon s) →
  length x = Z.to_nat B → T ≤ _horizon_length s →
  aligned_window s T x y a (getitem_result a (sample_xs s T B x) y).
Proof.
  intros Hwf Ha Hlen Hx HT.
  destruct (getitem_result_window s T B x y n a Ha Hx HT)
    as (c & dims & Hs & Hcell).
  exists c, dims. split; [done|]. intros t i xb yb Ht Hxb Hyb.
  destruct Hwf as (_ & _ & Hh & _).
  pose proof (Z.mod_pos_bound (Z.of_nat t + xb) (_horizon_length s)) as Hm.
  destruct (lookup_lt_is_Some_2 (slots a)
              (Z.to_nat ((Z.of_nat t + xb) mod _horizon_length s)))
    as [content Hc]; [lia|].
  exists content. split; [done|].
  rewrite (Hcell t i xb yb Ht Hxb Hyb). unfold block. by rewrite Hc.
Qed.

Lemma drawn_of_raw s T B (r : list Z) :
  length r = (Z.to_nat B + Z.to_nat B)%nat →
  drawn_x s T B (of_raw r)
  = (λ z, sample_start s + z mod (_pointer s - T + 1 - sample_start s))
      <$> take (Z.to_nat B) r ∧
  drawn_y s B (of_raw r)
  = (λ z, 0 + z mod (n_copys s - 0)) <$> drop (Z.to_nat B) r.
Proof.
  intros Hr. unfold drawn_x, drawn_y. split.
  - apply (fmap_seq_take
             (λ z, sample_start s
                   + z mod (_pointer s - T + 1 - sample_start s))). lia.
  - by apply (fmap_seq_drop (λ z, 0 + z mod (n_copys s - 0))).
Qed.

Lemma fmap_fixed (f : Z → Z) (l : list Z) :
  Forall (λ v, f v = v) l → f <$> l = l.
Proof. induction 1 as [|v l Hv _ IH]; [done|]. rewrite fmap_cons. congruence. Qed.

(** Every combination of start indices and copy indices is drawn, and by
    as many lists of raw numbers as any other. *)
Lemma draws_equidistributed s T B (xv yv : list Z) :
  sample_start s ≤ _pointer s - T → 0 < n_copys s →
  length xv = Z.to_nat B → length yv = Z.to_nat B →
  Forall (λ xb, sample_start s ≤ xb ≤ _pointer s - T) xv →
  Forall (λ yb, 0 ≤ yb < n_copys s) yv →
  (∃ g, drawn_x s T B g = xv ∧ drawn_y s B g = yv) ∧
  ∀ m : nat,
    length (filter (λ r, drawn_x s T B (of_raw r) = xv ∧
                         drawn_y s B (of_raw r) = yv)
              (raw_tuples (Z.to_nat B + Z.to_nat B)
                 (m * Z.to_nat (_pointer s - T - sample_start s + 1)
                  * Z.to_nat (n_copys s)))) =
    ((m * Z.to_nat (n_copys s)) ^ Z.to_nat B *
     (m * Z.to_nat (_pointer s - T - sample_start s + 1)) ^ Z.to_nat B)%nat.
Proof.
  intros Hr Hn Hlx Hly Hxv Hyv.
  set (k := Z.to_nat B) in *.
  set (lo := sample_start s) in *.
  set (n := Z.to_nat (_pointer s - T - lo + 1)).
  set (c := Z.to_nat (n_copys s)).
  set (fx := λ z, lo + z mod (_pointer s - T + 1 - lo)).
  set (fy := λ z, 0 + z mod (n_copys s - 0)).
  assert (_pointer s - T + 1 - lo = Z.of_nat n) as Hnn by (unfold n; lia).
  assert (n_copys s - 0 = Z.of_nat c) as Hcc by (unfold c; lia).
  split.
  - exists (of_raw (((λ v, v - lo) <$> xv) ++ yv)).
    destruct (drawn_of_raw s T B (((λ v, v - lo) <$> xv) ++ yv))
      as [-> ->]; [rewrite length_app, length_fmap; fold k; lia|].
    fold k lo. split.
    + rewrite take_app_length' by (by rewrite length_fmap).
      rewrite <- list_fmap_compose. apply fmap_fixed.
      eapply Forall_impl; [exact Hxv|]. intros v Hv. simpl in *.
      rewrite Z.mod_small by lia. lia.
    + rewrite drop_app_length' by (by rewrite length_fmap).
      apply fmap_fixed. eapply Forall_impl; [exact Hyv|].
      intros v Hv. simpl in *. rewrite Z.mod_small by lia. lia.
  - intros m.
    rewrite (length_filter_iff _
               (λ r, images (replicate k fx ++ replicate k fy) r = xv ++ yv)).
    2:{ intros r Hr'. apply raw_tuples_length in Hr'.
        destruct (drawn_of_raw s T B r Hr') as [-> ->]. fold k lo fx fy.
        rewrite images_replicate by done. split.
        - by intros [-> ->].
        - intros Happ. apply app_inj_1 in Happ; [done|].
          rewrite length_fmap, length_take. lia. }
    replace (k + k)%nat with (length (replicate k fx ++ replicate k fy))
      by (rewrite length_app, !length_replicate; done).
    rewrite count_images
      by (rewrite !length_app, !length_replicate; lia).
    rewrite zip_with_app by (by rewrite length_replicate).
    rewrite product_app.
    rewrite <- Hlx at 1. rewrite zip_with_replicate_l.
    rewrite <- Hly at 1. rewrite zip_with_replicate_l.
    rewrite (product_constant (m * c)), (product_constant (m * n)).
    + by rewrite !length_fmap, Hlx, Hly.
    + apply Forall_fmap. eapply Forall_impl; [exact Hyv|].
      intros v Hv. simpl in *.
      rewrite (length_filter_iff _ (λ z, z mod Z.of_nat c = v)).
      2:{ intros z _. unfold fy. rewrite Hcc. lia. }
      replace (m * n * c)%nat with (m * n * c)%nat by done.
      apply count_remainder. lia.
    + apply Forall_fmap. eapply Forall_impl; [exact Hxv|].
      intros v Hv. simpl in *.
      rewrite (length_filter_iff _ (λ z, z mod Z.of_nat n = v - lo)).
      2:{ intros z _. unfold fx. rewrite Hnn. lia. }
      replace (m * n * c)%nat with (m * c * n)%nat by lia.
      apply count_remainder. lia.
Qed.

(** C1: for a well-formed buffer and a window length [T] that does not
    exceed the fill counter, [sample] returns.  It draws [B] start indices
    [x] between [pointer - max_horizon] (when the ring has wrapped, that is
    [fill = max_horizon]) or [0] (when it has not) and [pointer - T], both
    included, and [B] copy indices [y] in [[0, n_copys)].  The draws are
    uniform and independent as far as the raw numbers of the generator are:
    every combination of [B] start indices of the range and [B] copy
    indices is drawn in some state of the generator, and each of them by
    the same number of the lists of [2 B] raw numbers below a common
    multiple of the two range lengths.  Every array of the result holds, for
    sample [i] and step [t < T], the part of copy [y[i]] of what the time
    slot [(x[i] + t) % fill] of its field holds, with the same [x] and [y]
    for every field of every key. *)
Theorem sample_draws_aligned_windows bs ts w :
  let s := self w in
  let B := py_or bs (batch_size s) in
  let T := py_or ts (time_step s) in
  let lo := if bool_decide (_horizon_length s = max_horizon s)
            then _pointer s - max_horizon s else 0 in
  let hi := _pointer s - T in
  let x := drawn_x s T B (np_random w) in
  let y := drawn_y s B (np_random w) in
  wf s → all_rings (has_copies (n_copys s)) (_buffer s) →
  0 < n_copys s → 0 ≤ B → T ≤ _horizon_length s →
  (∃ res w',
     sample bs ts w = (Ok res, w') ∧
     same_structure (aligned_window s T x y) (_buffer s) res) ∧
  length x = Z.to_nat B ∧ length y = Z.to_nat B ∧
  Forall (λ xb, lo ≤ xb ≤ hi) x ∧
  Forall (λ yb, 0 ≤ yb < n_copys s) y ∧
  (∀ xv yv,
     length xv = Z.to_nat B → length yv = Z.to_nat B →
     Forall (λ xb, lo ≤ xb ≤ hi) xv →
     Forall (λ yb, 0 ≤ yb < n_copys s) yv →
     (∃ g, drawn_x s T B g = xv ∧ drawn_y s B g = yv) ∧
     ∀ m : nat,
       length (filter (λ r, drawn_x s T B (of_raw r) = xv ∧
                            drawn_y s B (of_raw r) = yv)
                 (raw_tuples (Z.to_nat B + Z.to_nat B)
                    (m * Z.to_nat (hi - lo + 1) * Z.to_nat (n_copys s)))) =
       ((m * Z.to_nat (n_copys s)) ^ Z.to_nat B *
        (m * Z.to_nat (hi - lo + 1)) ^ Z.to_nat B)%nat).
Proof.
  intros s B T lo hi x y Hwf Hc Hn HB HT.
  pose proof (sample_range_nonempty s T Hwf HT) as Hr.
  split; [|split; [|split; [|split; [|split]]]].
  - destruct (sample_returns bs ts w Hwf Hc Hn HB HT) as [g' Hs].
    eexists _, _. split; [exact Hs|].
    destruct Hwf as (? & ? & ? & ? & ? & Hlen).
    eapply same_structure_impl.
    + apply same_structure_all_rings; [exact Hc|].
      apply same_structure_all_rings; [exact Hlen|].
      apply gather_result_structure.
    + simpl. intros a arr (Ha & Hl & ->).
      eapply getitem_result_aligned; [done|done|done|apply drawn_x_length|done].
  - apply drawn_x_length.
  - apply drawn_y_length.
  - by apply drawn_x_range.
  - by apply drawn_y_range.
  - intros xv yv Hlx Hly Hxv Hyv.
    apply draws_equidistributed; done.
Qed.
End WindowClaims.

(** ** Sampling from a ring whose first slots are written *)
Section WrittenSlots.
Context `{Numeric DType elem}.
Implicit Types (b : list (string * list (string * ring DType elem))).
Implicit Types (w : World DType elem) (s : DataBuffer DType elem).
Implicit Types (a : ring DType elem) (arr : batch DType elem).
Implicit Types (d : list (string * Data (ndarray DType elem))).

Lemma block_written a dims i j :
  written a i → is_Some (block a dims i j).
Proof. intros [v Hv]. unfold block. rewrite Hv. simpl. eauto. Qed.

Lemma same_structure_and {X Y} (R R' : X → Y → Prop)
    (b : list (string * list (string * X)))
    (res : list (string * list (string * Y))) :
  same_structure R b res → same_structure R' b res →
  same_structure (λ u z, R u z ∧ R' u z) b res.
Proof.
  unfold same_structure. intros Hs. revert Hs.
  induction 1 as [|[k fs] [k' fr] b res [? Hf] Hs IH]; intros Hs';
    [constructor|].
  apply Forall2_cons_1 in Hs' as [[_ Hf'] Hs'].
  constructor; [|by apply IH]. split; [done|]. simpl in *.
  clear -Hf Hf'. revert Hf'.
  induction Hf as [|[_k u] [_k' z] fs fr [? ?] Hf IH]; intros Hf';
    [constructor|].
  apply Forall2_cons_1 in Hf' as [[_ ?] Hf'].
  constructor; [|by apply IH]. done.
Qed.

Lemma sample_shapes bs ts w res w' :
  sample bs ts w = (Ok res, w') →
  same_structure
    (batch_of_shape (py_or ts (time_step (self w)))
       (py_or bs (batch_size (self w))))
    (_buffer (self w)) res.
Proof.
  rewrite sample_eq. simpl. case_bool_decide; [|done].
  destruct (randint (sample_start _) _ _ _) as [[x|e] g] eqn:Hx; [|done].
  destruct (randint 0 _ _ _) as [[y|e] g'] eqn:Hy; [|done].
  intros [= Hg <-].
  apply randint_inv in Hx as (HB & _ & Hx & _).
  apply randint_inv in Hy as (_ & _ & Hy & _).
  assert (length x = Z.to_nat (py_or bs (batch_size (self w)))) as Hlx
    by (by rewrite Hx, length_fmap, length_seq).
  assert (length y = Z.to_nat (py_or bs (batch_size (self w)))) as Hly
    by (by rewrite Hy, length_fmap, length_seq).
  eapply same_structure_impl; [by apply gather_inv|].
  intros a arr Ha. simpl in Ha.
  apply np_getitem_shape in Ha as (c & dims & ? & Hs & ? & Hl & Hr).
  - rewrite sample_xs_length, Hly in Hs. rewrite sample_xs_length in Hl.
    rewrite Hly in Hr. by exists c, dims.
  - rewrite Hly. by apply sample_xs_rows.
Qed.

Lemma sample_from_written bs ts w n :
  let s := self w in
  let B := py_or bs (batch_size s) in
  let T := py_or ts (time_step s) in
  wf s → all_rings (has_copies (n_copys s)) (_buffer s) →
  all_rings (λ a, ∀ i, (i < n)%nat → written a i) (_buffer s) →
  _horizon_length s = Z.of_nat n →
  0 < n_copys s → 0 ≤ B → T ≤ _horizon_length s →
  ∃ res w',
    sample bs ts w = (Ok res, w') ∧
    same_structure
      (λ a arr, batch_of_shape T B a arr ∧ from_written T B n (n_copys s) a arr)
      (_buffer s) res.
Proof.
  intros s B T Hwf Hc Hw Hn Hnc HB HT.
  destruct (sample_returns bs ts w Hwf Hc Hnc HB HT) as [g' Hrun].
  fold s B T in Hrun.
  eexists _, _. split; [exact Hrun|].
  pose proof (sample_shapes _ _ _ _ _ Hrun) as Hshape. fold s B T in Hshape.
  set (x := drawn_x s T B (np_random w)) in *.
  set (y := drawn_y s B (np_random w)) in *.
  assert (same_structure
            (λ a arr, (has_copies (n_copys s) a ∧
                       ∀ i, (i < n)%nat → written a i) ∧
                      arr = getitem_result a (sample_xs s T B x) y)
            (_buffer s) (gather_result (_buffer s) (sample_xs s T B x) y))
    as Hres.
  { apply same_structure_all_rings; [|apply gather_result_structure].
    unfold all_rings in *. rewrite Forall_forall in Hc, Hw.
    apply Forall_forall. intros kv Hkv.
    specialize (Hc _ Hkv). specialize (Hw _ Hkv).
    rewrite Forall_forall in Hc, Hw. apply Forall_forall. intros fa Hfa.
    split; [by apply Hc|by apply Hw]. }
  clear Hrun.
  eapply same_structure_impl;
    [apply same_structure_and; [exact Hshape|exact Hres]|].
  simpl. intros a arr [Hsa [[Ha Hwa] ->]].
  split; [done|]. intros t i Ht Hi.
  destruct (getitem_result_window s T B x y _ a Ha) as (c & dims & Hs & Hcell);
    [apply drawn_x_length|done|].
  destruct (lookup_lt_is_Some_2 x i) as [xb Hxb];
    [unfold x; by rewrite drawn_x_length|].
  destruct (lookup_lt_is_Some_2 y i) as [yb Hyb];
    [unfold y; by rewrite drawn_y_length|].
  pose proof (drawn_y_range s B (np_random w) Hnc) as Hyr.
  rewrite Forall_forall in Hyr.
  assert (0 ≤ yb < n_copys s) as Hybr.
  { apply Hyr. apply list_elem_of_lookup. eauto. }
  set (slot := Z.to_nat ((Z.of_nat t + xb) mod _horizon_length s)).
  assert (slot < n)%nat as Hslot.
  { unfold slot.
    pose proof (Z.mod_pos_bound (Z.of_nat t + xb) (_horizon_length s)). lia. }
  rewrite Hs. simpl.
  destruct (block_written a dims slot (Z.to_nat yb) (Hwa _ Hslot)) as [v Hv].
  exists slot, yb, v. split; [done|]. split; [done|].
  split; [by apply Hwa|]. split; [done|].
  by rewrite (Hcell t i xb yb Ht Hxb Hyb), <- Hv.
Qed.
End WrittenSlots.

(** ** Time slices with the same fields *)
Section Consistent.
Context `{Numeric DType elem}.
Implicit Types (b : list (string * list (string * ring DType elem))).
Implicit Types (w : World DType elem) (s : DataBuffer DType elem).
Implicit Types (a : ring DType elem) (arr : batch DType elem).
Implicit Types (d : list (string * Data (ndarray DType elem))).
Implicit Types (ds : list (list (string * Data (ndarray DType elem)))).
Implicit Types (σ : list (string * list (string * list nat))).

Lemma in_slice_schema d k _k : in_slice d k _k ↔ in_schema (schema d) k _k.
Proof.
  unfold in_slice, in_schema, schema, nested_dict. split.
  - intros (fs & Hin & Hf).
    exists ((λ fa : string * ndarray DType elem, (fa.1, shape fa.2)) <$> fs).
    split.
    + apply list_elem_of_fmap. by exists (k, fs).
    + rewrite <- list_fmap_compose. done.
  - intros (fs' & Hin & Hf).
    apply list_elem_of_fmap in Hin as ([k0 fs] & [= -> ->] & Hin).
    exists fs. split; [done|]. simpl in Hf.
    by rewrite <- list_fmap_compose in Hf.
Qed.

Lemma in_slice_decide d k _k : in_slice d k _k ∨ ¬ in_slice d k _k.
Proof.
  destruct (decide (Exists (λ kv : string * Data (ndarray DType elem),
                              kv.1 = k ∧ _k ∈ (nested_dict kv.2).*1) d))
    as [He|Hn].
  - left. apply Exists_exists in He as ([k0 fs] & Hin & <- & Hf).
    by exists fs.
  - right. intros (fs & Hin & Hf). apply Hn, Exists_exists.
    by exists (k, fs).
Qed.

(** An array the store has after the loops was there before or belongs to a
    field of the time slice. *)
Lemma write_keys_origin d w r w' k _k a' :
  write_keys d w = (r, w') → lookup2 (_buffer (self w')) k _k = Some a' →
  lookup2 (_buffer (self w)) k _k = Some a' ∨ in_slice d k _k.
Proof.
  intros Hrun Ha. destruct (in_slice_decide d k _k) as [?|Hn]; [by right|].
  left. by rewrite <- (write_keys_other _ _ _ _ _ _ Hrun Hn).
Qed.

Lemma all_rings_lookup2 (P : ring DType elem → Prop) b :
  store_is_dict b → (∀ k _k a, lookup2 b k _k = Some a → P a) →
  all_rings P b.
Proof.
  intros [Hd Hf] HP. apply Forall_forall. intros [k fs] Hin.
  apply Forall_forall. intros [_k a] Ha. simpl in *.
  apply (HP k _k). unfold lookup2.
  rewrite (dict_elem_get _ _ _ Hd Hin). simpl.
  rewrite Forall_forall in Hf. apply dict_elem_get; [|done].
  apply (Hf _ Hin).
Qed.

Lemma write_keys_copies d w r w' nc :
  copies_first nc d → write_keys d w = (r, w') →
  all_rings (has_copies nc) (_buffer (self w)) →
  all_rings (has_copies nc) (_buffer (self w')).
Proof.
  intros Hd. apply (write_keys_all_rings (has_copies nc)).
  - intros a j x Ha. exact Ha.
  - eapply Forall_impl; [exact Hd|]. intros [k fs] Hfs. simpl in *.
    eapply Forall_impl; [exact Hfs|]. intros [_k v] [dims Hv]. simpl in *.
    exists (Z.to_nat nc), dims. split; [done|]. lia.
Qed.

(** One more call with a time slice of the schema fills one more slot. *)
Lemma add_filled σ nc n d w w' :
  filled σ nc n (self w) → Z.of_nat n < max_horizon (self w) →
  copies_first nc d → (∀ k _k, in_slice d k _k ↔ in_schema σ k _k) →
  add d w = (Ok (), w') →
  filled σ nc (S n) (self w').
Proof.
  intros (Hwf & Hnc & Hc & Hn & Hl & Hall) HnH Hd Hσ Hadd.
  pose proof (add_wf _ _ _ Hwf Hadd) as Hwf'.
  destruct (add_scalars _ _ _ Hadd) as (Hnc' & _ & _ & HH & Hp & Hh).
  destruct (add_buffer _ _ _ Hadd) as (w1 & Hrun & Hb).
  assert (_pointer (self w) = Z.of_nat n) as Hpn.
  { destruct Hwf as (_ & _ & _ & Hu & _). rewrite <- Hn. apply Hu. lia. }
  assert (∀ k _k, in_slice d k _k →
            written_at (_buffer (self w')) k _k n) as Hhit.
  { intros k _k Hin. rewrite Hb.
    replace n with (Z.to_nat (_pointer (self w))) by lia.
    eapply write_keys_written; [done|done|lia]. }
  split; [done|]. split; [congruence|]. split; [|split; [|split]].
  - rewrite Hb. by eapply write_keys_copies.
  - rewrite Hh. lia.
  - intros k _k a' Ha'. rewrite Hb in Ha'.
    destruct (write_keys_origin _ _ _ _ _ _ _ Hrun Ha') as [Ha|Hin].
    + destruct (Hl _ _ _ Ha) as [Hs Hw]. split; [done|].
      intros i Hi. destruct (decide (i = n)) as [->|Hne].
      * destruct (Hhit k _k) as (a'' & Ha'' & Hw'').
        { by apply Hσ. }
        rewrite Hb in Ha''. congruence.
      * destruct (write_keys_mono d w _ w1 k _k i Hrun) as (a'' & Ha'' & Hw'').
        { exists a'. split; [done|]. apply Hw. lia. }
        congruence.
    + split; [by apply Hσ|].
      intros i Hi.
      destruct (lookup2 (_buffer (self w)) k _k) as [a|] eqn:Ha.
      * destruct (Hl _ _ _ Ha) as [_ Hw].
        destruct (decide (i = n)) as [->|Hne].
        -- destruct (Hhit k _k Hin) as (a'' & Ha'' & Hw'').
           rewrite Hb in Ha''. congruence.
        -- destruct (write_keys_mono d w _ w1 k _k i Hrun)
             as (a'' & Ha'' & Hw'').
           { exists a. split; [done|]. apply Hw. lia. }
           congruence.
      * assert (n = 0)%nat as ->.
        { destruct n; [done|]. destruct (Hall ltac:(lia) k _k) as [? Hs].
          - by apply Hσ.
          - congruence. }
        assert (i = 0)%nat as -> by lia.
        destruct (Hhit k _k Hin) as (a'' & Ha'' & Hw'').
        rewrite Hb in Ha''. congruence.
  - intros _ k _k Hin. destruct (Hhit k _k) as (a'' & Ha'' & _).
    + by apply Hσ.
    + eauto.
Qed.

Lemma init_filled σ nc bs bsz ts s :
  init nc bs bsz ts = Ok s → 0 < max_horizon s → filled σ nc 0 s.
Proof.
  intros Hinit HH. pose proof (init_wf _ _ _ _ _ Hinit HH) as Hwf.
  apply init_inv in Hinit as [_ ->]. unfold filled. simpl.
  split; [done|]. split; [done|]. split; [constructor|]. split; [done|].
  split; [done|lia].
Qed.

Lemma adds_filled σ nc n ds w w' :
  filled σ nc n (self w) → same_fields nc σ ds →
  Z.of_nat (n + length ds) ≤ max_horizon (self w) →
  adds ds w = (Ok (), w') →
  filled σ nc (n + length ds) (self w').
Proof.
  revert n w. induction ds as [|d ds IH]; intros n w Hf Hc Hlen.
  - intros [= <-]. simpl. by rewrite Nat.add_0_r.
  - rewrite adds_cons. destruct (add d w) as [[[]|e] w1] eqn:Hadd; [|done].
    intros Hrun. apply Forall_cons in Hc as [[Hd Hσ] Hc]. simpl in Hlen.
    destruct (add_scalars _ _ _ Hadd) as (_ & _ & _ & HH & _).
    replace (n + length (d :: ds))%nat with (S n + length ds)%nat
      by (simpl; lia).
    apply (IH (S n) w1); [|done|rewrite HH; lia|done].
    eapply add_filled; [done|lia|done..].
Qed.
End Consistent.

(** ** The sizes of what the arrays hold *)
Section Sizes.
Context `{Numeric DType elem}.
Implicit Types (b : list (string * list (string * ring DType elem))).
Implicit Types (w : World DType elem) (s : DataBuffer DType elem).
Implicit Types (a : ring DType elem) (arr : batch DType elem).
Implicit Types (v : ndarray DType elem).
Implicit Types (d : list (string * Data (ndarray DType elem))).

Lemma chunks_length {A} (n k : nat) (l : list A) :
  length (chunks n k l) = k.
Proof.
  revert l. induction k as [|k IH]; intros l; simpl; [done|].
  by rewrite IH.
Qed.

Lemma chunks_sizes {A} (n k : nat) (l : list A) :
  length l = (k * n)%nat → Forall (λ c, length c = n) (chunks n k l).
Proof.
  revert l. induction k as [|k IH]; intros l Hl; simpl; [constructor|].
  constructor.
  - rewrite length_take. lia.
  - apply IH. rewrite length_drop. lia.
Qed.

Lemma concat_length_const {A} (m : nat) (ls : list (list A)) :
  Forall (λ c, length c = m) ls → length (concat ls) = (length ls * m)%nat.
Proof.
  induction 1 as [|c ls Hc _ IH]; simpl; [done|].
  rewrite length_app, IH, Hc. lia.
Qed.

Lemma expand_length (src dst : list nat) (l : list elem) :
  broadcastable src dst = true → length l = prod_shape src →
  length (expand src dst l) = prod_shape dst.
Proof.
  revert dst l. induction src as [|c src IH]; intros [|t dst] l Hb Hl;
    simpl in *; try done.
  apply andb_true_iff in Hb as [Hct Hb].
  destruct (decide (c = t)) as [->|Hne].
  - rewrite (concat_length_const (prod_shape dst)).
    + by rewrite length_fmap, chunks_length.
    + apply Forall_fmap. eapply Forall_impl; [apply chunks_sizes; lia|].
      intros x Hx. simpl. by apply IH.
  - apply orb_true_iff in Hct as [Hct|Hct];
      apply bool_decide_eq_true in Hct; [done|]. subst c.
    rewrite (concat_length_const (prod_shape dst)).
    + by rewrite length_replicate.
    + apply Forall_replicate. apply IH; [done|lia].
Qed.

Lemma prod_shape_ones (k : nat) (sh : list nat) :
  prod_shape (replicate k 1%nat ++ sh) = prod_shape sh.
Proof. induction k as [|k IH]; simpl; [done|]. unfold prod_shape in *. simpl. lia. Qed.

Lemma prod_shape_strip (e : nat) (sh : list nat) :
  prod_shape (strip_ones e sh) = prod_shape sh.
Proof.
  revert sh. induction e as [|e IH]; intros sh; [by destruct sh|].
  destruct sh as [|[|[|c]] sh]; simpl; try done.
  rewrite IH. unfold prod_shape. simpl. lia.
Qed.

Lemma prod_shape_align (src dst : list nat) :
  prod_shape (align_shape src dst) = prod_shape src.
Proof.
  unfold align_shape. by rewrite prod_shape_ones, prod_shape_strip.
Qed.

(** What an assignment stores in a slot has the size of a slot. *)
Lemma stored_length a v :
  array_ok v →
  broadcastable (align_shape (shape v) (slot_shape a)) (slot_shape a) = true →
  length (stored a v) = prod_shape (slot_shape a).
Proof.
  intros Hv Hb. unfold stored. rewrite length_fmap.
  apply expand_length; [done|]. by rewrite prod_shape_align.
Qed.

Lemma slots_ok_set a j x :
  slots_ok a → length x = prod_shape (slot_shape a) →
  slots_ok (set_slot a j x).
Proof.
  intros Ha Hx i z. unfold set_slot. simpl.
  destruct (decide (i = j)) as [->|Hne].
  - destruct (decide (j < length (slots a))%nat).
    + rewrite list_lookup_insert_eq by done. by intros [= <-].
    + rewrite list_insert_ge by lia. apply Ha.
  - rewrite list_lookup_insert_ne by done. apply Ha.
Qed.

Lemma slots_ok_empty (n : nat) (sh : list nat) (dt : DType) :
  slots_ok (mk_ring sh dt (replicate n (None : option (list elem)))).
Proof.
  intros i z. simpl. intros Hi. apply lookup_replicate in Hi as [? _]. done.
Qed.

Lemma add_field_slots_ok k _k v w r w' :
  array_ok v → add_field k _k v w = (r, w') →
  all_rings slots_ok (_buffer (self w)) →
  all_rings slots_ok (_buffer (self w')).
Proof.
  intros Hv Hrun Hb. apply add_field_cases in Hrun
    as [[_ ->]|[(a & a' & Hk & Ha & Hs & _ & ->)
               |(a & _ & _ & He & [(a' & Hs & _ & ->)|(e & _ & _ & ->)])]];
    [done|..]; apply put_ring_all_rings; try done.
  - apply np_setitem_inv in Hs as (j & _ & Hbr & ->).
    apply slots_ok_set; [by eapply lookup2_all_rings|by apply stored_length].
  - apply np_setitem_inv in Hs as (j & _ & Hbr & ->).
    apply np_empty_inv in He as [_ ->].
    apply slots_ok_set; [apply slots_ok_empty|by apply stored_length].
  - apply np_empty_inv in He as [_ ->]. apply slots_ok_empty.
Qed.

Lemma write_keys_slots_ok d w r w' :
  slice_ok d → write_keys d w = (r, w') →
  all_rings slots_ok (_buffer (self w)) →
  all_rings slots_ok (_buffer (self w')).
Proof.
  intros Hd Hrun. unfold write_keys in Hrun.
  eapply (for_each_preserve
            (λ w1, all_rings slots_ok (_buffer (self w1)))); [|exact Hrun].
  intros [k fs] w1 w2 r1 Hin Hkey Hw1. rewrite add_key_eq in Hkey.
  unfold write_fields in Hkey.
  eapply (for_each_preserve
            (λ w1, all_rings slots_ok (_buffer (self w1)))); [|exact Hkey|].
  - intros [_k v] w3 w4 r2 Hin2 Hf. eapply add_field_slots_ok; [|exact Hf].
    unfold slice_ok in Hd. rewrite Forall_forall in Hd.
    specialize (Hd _ Hin). simpl in Hd. rewrite Forall_forall in Hd.
    apply (Hd _ Hin2).
  - by apply ensure_key_all_rings.
Qed.

(** [add] keeps the sizes right, whether it returns or raises. *)
Lemma add_slots_ok d w r w' :
  slice_ok d → add d w = (r, w') →
  all_rings slots_ok (_buffer (self w)) →
  all_rings slots_ok (_buffer (self w')).
Proof.
  intros Hd Hadd Hb. rewrite add_eq in Hadd.
  destruct (write_keys d w) as [[[]|e] w1] eqn:Hrun.
  - pose proof (write_keys_slots_ok _ _ _ _ Hd Hrun Hb) as Hb1.
    unfold advance in Hadd. destruct (py_mod _ _); by injection Hadd as _ <-.
  - injection Hadd as _ <-. by eapply write_keys_slots_ok.
Qed.

Lemma adds_slots_ok ds w r w' :
  Forall slice_ok ds → adds ds w = (r, w') →
  all_rings slots_ok (_buffer (self w)) →
  all_rings slots_ok (_buffer (self w')).
Proof.
  intros Hds Hrun. unfold adds in Hrun.
  eapply (for_each_preserve
            (λ w1, all_rings slots_ok (_buffer (self w1)))); [|exact Hrun].
  intros d w1 w2 r1 Hin Hadd. eapply add_slots_ok; [|exact Hadd].
  rewrite Forall_forall in Hds. by apply Hds.
Qed.

Lemma copy_part_length (n c j : nat) (x : list elem) :
  length x = (c * n)%nat → (j < c)%nat → length (copy_part n j x) = n.
Proof.
  intros Hx Hj. unfold copy_part. rewrite length_take, length_drop. nia.
Qed.

Lemma block_copy_part a dims i j :
  block a dims i j = copy_part (prod_shape dims) j <$> mjoin (slots a !! i).
Proof. done. Qed.

(** The entries of a gathered array have the size of a copy. *)
Lemma np_getitem_cells a xs y arr c dims :
  np_getitem a xs y = Ok arr → slots_ok a → slot_shape a = c :: dims →
  Forall (Forall (λ e, ∀ x, e = Some x → length x = prod_shape dims))
    (cells arr).
Proof.
  unfold np_getitem. intros Hg Ha Hs. rewrite Hs in Hg.
  destruct (mapM (norm_index c) y) as [ys|e1] eqn:Hy; simpl in Hg; [|done].
  destruct (mapM _ xs) as [rows|e2] eqn:Hx; simpl in Hg; [|done].
  injection Hg as <-. simpl.
  apply mapM_result_inv in Hy.
  assert (Forall (λ j, (j < c)%nat) ys) as Hys.
  { clear -Hy. induction Hy as [|j z y ys Hj _ IH]; constructor; [|done].
    unfold norm_index in Hj. repeat case_bool_decide; try done;
      injection Hj as <-; lia. }
  apply Forall_fmap, Forall_forall. intros row _. simpl.
  apply Forall_forall. intros e He.
  apply list_elem_of_lookup in He as [i Hi].
  apply lookup_zip_with_Some in Hi as (slot & j & -> & _ & Hj).
  intros x Hx'. unfold block in Hx'.
  destruct (slots a !! slot) as [[z|]|] eqn:Hslot; simpl in Hx'; try done.
  injection Hx' as <-.
  apply (copy_part_length _ c).
  - rewrite (Ha _ _ Hslot), Hs. done.
  - rewrite Forall_forall in Hys. apply Hys. apply list_elem_of_lookup. eauto.
Qed.

Lemma sample_has_shape bs ts w res w' :
  all_rings slots_ok (_buffer (self w)) →
  sample bs ts w = (Ok res, w') →
  same_structure
    (has_shape (py_or ts (time_step (self w)))
       (py_or bs (batch_size (self w))))
    (_buffer (self w)) res.
Proof.
  intros Hb Hs. pose proof (sample_shapes _ _ _ _ _ Hs) as Hshape.
  rewrite sample_eq in Hs. simpl in Hs.
  destruct (bool_decide _) in Hs; [|done].
  destruct (randint (sample_start _) _ _ _) as [[x|e] g] in Hs; [|done].
  destruct (randint 0 _ _ _) as [[y|e] g'] in Hs; [|done].
  injection Hs as Hg _. apply gather_inv in Hg.
  pose proof (same_structure_all_rings slots_ok _ _ _ Hb Hg) as Hg'.
  eapply same_structure_impl;
    [apply same_structure_and; [exact Hshape|exact Hg']|].
  simpl. intros a arr [(c & dims & Hsh & Hbs & Hdt & Hlen & Hrows) [Ha Hget]].
  exists c, dims. split; [done|]. split; [done|]. split; [done|].
  split; [done|].
  pose proof (np_getitem_cells _ _ _ _ _ _ Hget Ha Hsh) as Hcells.
  apply Forall_forall. intros row Hrow. rewrite Forall_forall in Hrows, Hcells.
  split; [by apply Hrows|by apply Hcells].
Qed.

Lemma from_written_slots (T B : Z) (n : nat) (nc : Z) a arr :
  from_written T B n nc a arr → from_slots T B n nc a arr.
Proof.
  intros Hw t i Ht Hi.
  destruct (Hw t i Ht Hi) as (slot & copy & v & Hslot & Hc & _ & Hb & Hcell).
  unfold block in Hb.
  destruct (slots a !! slot) as [[x|]|] eqn:Hx; simpl in Hb; try done.
  injection Hb as <-. exists slot, copy, x. done.
Qed.

Lemma same_structure_lookup2 {X Y} (R : X → Y → Prop)
    (l : list (string * list (string * X)))
    (res : list (string * list (string * Y))) k _k u :
  same_structure R l res → lookup2 l k _k = Some u →
  ∃ z, lookup2 res k _k = Some z ∧ R u z.
Proof.
  unfold lookup2. intros Hs. revert u.
  induction Hs as [|[k0 fs] [k0' fr] l res [Hk Hf] _ IH]; intros u;
    simpl in *; [done|]. subst k0'.
  destruct (decide (k = k0)) as [->|Hne]; [|apply IH]. simpl. clear IH.
  induction Hf as [|[_k0 a] [_k0' z] fs fr [Hk Hz] _ IH]; simpl in *; [done|].
  subst _k0'. destruct (decide (_k = _k0)) as [->|Hne]; [|apply IH].
  intros [= <-]. eauto.
Qed.
End Sizes.

Section AfterAdds.
Context `{Numeric DType elem}.
Implicit Types (w : World DType elem) (s : DataBuffer DType elem).
Implicit Types (ds : list (list (string * Data (ndarray DType elem)))).
Implicit Types (σ : list (string * list (string * list nat))).

(** [sample] after the first calls of [add] on a new buffer, with time
    slices that all have the same fields. *)
Lemma sample_after_adds σ nc bs bsz ts s0 g ds w bsarg tsarg :
  let B := py_or bsarg bs in
  let T := py_or tsarg ts in
  init nc bs bsz ts = Ok s0 → 0 < nc → 0 < max_horizon s0 →
  same_fields nc σ ds → Z.of_nat (length ds) ≤ max_horizon s0 →
  0 ≤ B → T ≤ Z.of_nat (length ds) →
  adds ds (mk_World s0 g) = (Ok (), w) →
  ∃ res w',
    sample bsarg tsarg w = (Ok res, w') ∧
    same_structure
      (λ a arr, batch_of_shape T B a arr ∧
                from_written T B (length ds) nc a arr)
      (_buffer (self w)) res.
Proof.
  intros B T Hinit Hnc HH Hc Hlen HB HT Hrun.
  pose proof (init_filled σ _ _ _ _ _ Hinit HH) as Hf0.
  pose proof (init_wf _ _ _ _ _ Hinit HH) as Hwf0.
  destruct (adds_scalars ds (mk_World s0 g) w Hwf0 Hrun)
    as (_ & _ & Hbs & Hts & _).
  destruct (adds_filled σ nc 0 ds (mk_World s0 g) w Hf0 Hc Hlen Hrun)
    as (Hwf & Hn & Hcp & Hh & Hl & _).
  simpl in Hh, Hl, Hbs, Hts. apply init_inv in Hinit as [_ ->].
  simpl in Hbs, Hts.
  destruct (sample_from_written bsarg tsarg w (length ds)) as (res & w' & Hs & Hres).
  - done.
  - by rewrite Hn.
  - apply all_rings_lookup2; [by destruct Hwf as (_ & _ & _ & _ & ? & _)|].
    intros k _k a Ha. by destruct (Hl _ _ _ Ha).
  - done.
  - by rewrite Hn.
  - by rewrite Hbs.
  - by rewrite Hts, Hh.
  - exists res, w'. split; [done|]. by rewrite Hbs, Hts, Hn in Hres.
Qed.

(** C2, amended: after [N] calls of [add] that return on a new buffer,
    [1 <= N <= max_horizon], with time slices that all have the same fields
    (arrays with a leading axis of [n_copys] copies),
    [sample(timestep=1)] returns, and every entry of its result is the part
    of a copy of what an assigned time slot below [N] holds: no slot that
    was never written is selected.  The statement for every [N] covers the
    call made after each [add].  Shapes that agree are not enough: a field
    that a later call brings first has unwritten slots below the fill
    counter. *)
Theorem sample_reads_only_written_slots σ nc bs bsz ts s0 g ds w bsarg :
  init nc bs bsz ts = Ok s0 → 0 < nc → 0 < max_horizon s0 →
  same_fields nc σ ds →
  (0 < length ds)%nat → Z.of_nat (length ds) ≤ max_horizon s0 →
  0 ≤ py_or bsarg bs →
  adds ds (mk_World s0 g) = (Ok (), w) →
  ∃ res w',
    sample bsarg (Some 1) w = (Ok res, w') ∧
    same_structure (from_slots 1 (py_or bsarg bs) (length ds) nc)
      (_buffer (self w)) res.
Proof.
  intros Hinit Hnc HH Hc Hpos Hlen HB Hrun.
  destruct (sample_after_adds σ nc bs bsz ts s0 g ds w bsarg (Some 1))
    as (res & w' & Hs & Hres); try done.
  - simpl. lia.
  - exists res, w'. split; [done|].
    eapply same_structure_impl; [exact Hres|].
    intros a arr [_ ?]. by apply from_written_slots.
Qed.
End AfterAdds.

Lemma marked_same_fields ms :
  same_fields 2 (schema (marked 1)) (marked <$> ms).
Proof.
  apply Forall_fmap, Forall_forall. intros m _. split.
  - repeat constructor; simpl; eauto.
  - intros k _k. by rewrite in_slice_schema.
Qed.

Lemma marked_slice_ok ms : Forall slice_ok (marked <$> ms).
Proof.
  apply Forall_fmap, Forall_forall. intros m _. repeat constructor.
Qed.

(** C4: in a buffer whose assigned slots hold as many elements as the shape
    of a slot says, which is so in the buffer the constructor makes and is
    kept by every call of [add] with arrays that have as many elements as
    their shape says, whenever [sample] returns its result has the keys and
    the fields of the store, and every array of it has the shape
    [[T, B, *field_dims]] (a leading dimension [0] for a [T] that is not
    positive): [T] rows of [B] entries, each entry with as many elements as
    [field_dims] says; with [n_copys=2, batch_size=4, buffer_size=8,
    time_step=2], so that [max_horizon = 4], after four calls of [add] with
    marked time slices [sample()] returns arrays of shape [[2, 4, ...]]
    every entry of which is the part of a copy of what one of the four
    stored slots holds. *)
Theorem sample_result_shape :
  (∀ `{Numeric DType elem} nc bs bsz ts (s0 : DataBuffer DType elem),
     init nc bs bsz ts = Ok s0 → all_rings slots_ok (_buffer s0)) ∧
  (∀ `{Numeric DType elem} d (w : World DType elem) r w',
     slice_ok d → add d w = (r, w') →
     all_rings slots_ok (_buffer (self w)) →
     all_rings slots_ok (_buffer (self w'))) ∧
  (∀ `{Numeric DType elem} bs ts (w : World DType elem) res w',
     all_rings slots_ok (_buffer (self w)) →
     sample bs ts w = (Ok res, w') →
     same_structure
       (has_shape (py_or ts (time_step (self w)))
          (py_or bs (batch_size (self w))))
       (_buffer (self w)) res) ∧
  (∀ g w0 w4,
     fresh 2 4 8 2 g = Ok w0 →
     adds (marked <$> [1; 2; 3; 4]) w0 = (Ok (), w4) →
     max_horizon (self w4) = 4 ∧
     ∃ res w',
       sample None None w4 = (Ok res, w') ∧
       same_structure
         (λ a arr, has_shape 2 4 a arr ∧ from_slots 2 4 4 2 a arr)
         (_buffer (self w4)) res).
Proof.
  split; [|split; [|split]].
  - intros DType elem H nc bs bsz ts s0 Hinit.
    apply init_inv in Hinit as [_ ->]. constructor.
  - intros DType elem H d w r w'. apply add_slots_ok.
  - intros DType elem H bs ts w res w'. apply sample_has_shape.
  - intros g w0 w4 Hfresh Hrun. unfold fresh in Hfresh.
    destruct (init 2 4 8 2) as [s0|] eqn:Hinit; [|done].
    injection Hfresh as <-.
    assert (max_horizon s0 = 4) as HH
      by (by apply init_inv in Hinit as [_ ->]).
    assert (wf s0) as Hwf0 by (apply (init_wf _ _ _ _ _ Hinit); lia).
    destruct (adds_scalars _ (mk_World s0 g) _ Hwf0 Hrun)
      as (_ & _ & Hbs & Hts & HH4 & _).
    split; [simpl in HH4; congruence|].
    assert (all_rings slots_ok (_buffer (self w4))) as Hok.
    { eapply adds_slots_ok; [apply marked_slice_ok|exact Hrun|].
      apply init_inv in Hinit as [_ ->]. constructor. }
    destruct (sample_after_adds (schema (marked 1)) 2 4 8 2 s0 g
                (marked <$> [1; 2; 3; 4]) w4 None None Hinit)
      as (res & w' & Hs & Hres); try done; try (simpl; lia).
    + apply marked_same_fields.
    + exists res, w'. split; [done|].
      pose proof (sample_has_shape _ _ _ _ _ Hok Hs) as Hshape.
      apply init_inv in Hinit as [_ ->]. simpl in Hbs, Hts, Hshape.
      rewrite Hbs, Hts in Hshape.
      eapply same_structure_impl;
        [apply same_structure_and; [exact Hshape|exact Hres]|].
      simpl. intros a arr [? [_ ?]]. split; [done|].
      by apply from_written_slots.
Qed.

(** ** A field that appears late *)
Section LateField.
Context `{Numeric DType elem}.
Implicit Types (b : list (string * list (string * ring DType elem))).
Implicit Types (w : World DType elem) (s : DataBuffer DType elem).
Implicit Types (a : ring DType elem) (arr : batch DType elem).
Implicit Types (d : list (string * Data (ndarray DType elem))).

Lemma only_slot_set n p a x : only_slot n p a → only_slot n p (set_slot a p x).
Proof.
  intros [Hl Hn]. split; [by rewrite set_slot_length|].
  intros i Hi Hlt. unfold set_slot. simpl.
  rewrite list_lookup_insert_ne by done. by apply Hn.
Qed.

Lemma only_slot_empty n p (sh : list nat) (dt : DType) :
  only_slot n p (mk_ring sh dt (replicate n (None : option (list elem)))).
Proof.
  split; [simpl; by rewrite length_replicate|].
  intros i _ Hi. simpl. by apply lookup_replicate_2.
Qed.

Lemma add_field_late w k _k k1 _k1 v w1 r w2 :
  0 ≤ _pointer (self w) →
  add_field k1 _k1 v w1 = (r, w2) → late_inv w k _k w1 → late_inv w k _k w2.
Proof.
  intros Hp Hrun [Hfr HQ].
  destruct (same_frame_fields _ _ Hfr) as (_ & _ & _ & HH & _ & Hp1).
  split; [eapply same_frame_trans; [done|by eapply add_field_frame]|].
  intros a2 Ha2.
  destruct (decide (k = k1 ∧ _k = _k1)) as [[<- <-]|Hne].
  2:{ rewrite (add_field_other _ _ _ _ _ _ _ _ Hrun Hne) in Ha2. auto. }
  apply add_field_cases in Hrun
    as [[_ ->]|[(a & a' & Hk & Ha & Hs & _ & ->)
               |(a & Hk & Ha & He & [(a' & Hs & _ & ->)|(e & Hs & _ & ->)])]];
    [auto|..]; rewrite lookup2_put_ring, decide_True in Ha2 by done;
    injection Ha2 as <-.
  - apply np_setitem_inv in Hs as (j & Hj & _ & ->).
    apply norm_index_nonneg in Hj as [-> _]; [|lia].
    rewrite Hp1. apply only_slot_set. auto.
  - apply np_setitem_inv in Hs as (j & Hj & _ & ->).
    apply norm_index_nonneg in Hj as [-> _]; [|lia].
    rewrite Hp1. apply only_slot_set.
    apply np_empty_inv in He as [_ ->]. rewrite HH. apply only_slot_empty.
  - apply np_empty_inv in He as [_ ->]. rewrite HH. apply only_slot_empty.
Qed.

Lemma write_keys_late d w k _k r w' :
  0 ≤ _pointer (self w) → lookup2 (_buffer (self w)) k _k = None →
  write_keys d w = (r, w') → late_inv w k _k w'.
Proof.
  intros Hp Hnone Hrun. unfold write_keys in Hrun.
  eapply (for_each_preserve (late_inv w k _k)); [|exact Hrun|].
  - intros [k1 fs] w1 w2 r1 _ Hkey Hinv. rewrite add_key_eq in Hkey.
    unfold write_fields in Hkey.
    eapply (for_each_preserve (late_inv w k _k)); [|exact Hkey|].
    + intros [_k1 v] w3 w4 r2 _ Hf Hinv3. by eapply add_field_late.
    + destruct Hinv as [Hfr HQ]. split.
      * eapply same_frame_trans; [done|apply ensure_key_frame].
      * intros a. rewrite ensure_key_lookup2. apply HQ.
  - split; [apply same_frame_refl|]. intros a. by rewrite Hnone.
Qed.

Lemma dict_get_fmap {V V'} (f : V → V') (k : string) (l : list (string * V)) :
  dict_get k ((λ kv, (kv.1, f kv.2)) <$> l) = f <$> dict_get k l.
Proof.
  induction l as [|[k0 v0] l IH]; simpl; [done|].
  by destruct (decide (k = k0)).
Qed.

Lemma lookup2_gather_result b xs y k _k :
  lookup2 (gather_result b xs y) k _k =
  (λ a, getitem_result a xs y) <$> lookup2 b k _k.
Proof.
  unfold lookup2, gather_result, from_nested_dict.
  rewrite (dict_get_fmap
             (λ fs : list (string * ring DType elem),
                (λ fa : string * ring DType elem,
                   (fa.1, getitem_result fa.2 xs y)) <$> fs)).
  destruct (dict_get k b) as [fs|]; simpl; [|done].
  apply (dict_get_fmap (λ a, getitem_result a xs y)).
Qed.

(** C10: when [add] meets a field the store has no array for, the array it
    allocates has the slot at the pointer assigned and no other; every other
    slot of the field inside the sampling range holds whatever [np.empty]
    left there, and for each of them there is a state of the generator in
    which the next [sample(timestep=1)] returns it. *)
Theorem late_field_exposes_unwritten_slots d w w' k _k bsarg :
  wf (self w) →
  lookup2 (_buffer (self w)) k _k = None → in_slice d k _k →
  add d w = (Ok (), w') →
  all_rings (has_copies (n_copys (self w'))) (_buffer (self w')) →
  0 < n_copys (self w) → 0 < py_or bsarg (batch_size (self w)) →
  ∃ a',
    lookup2 (_buffer (self w')) k _k = Some a' ∧
    written a' (Z.to_nat (_pointer (self w))) ∧
    ∀ i, 0 ≤ i < _horizon_length (self w') → i ≠ _pointer (self w) →
      slots a' !! Z.to_nat i = Some None ∧
      ∃ g res w'' arr,
        sample bsarg (Some 1) (mk_World (self w') g) = (Ok res, w'') ∧
        lookup2 res k _k = Some arr ∧
        cell arr 0 0 = Some None.
Proof.
  intros Hwf Hnone Hin Hadd Hcp Hnc HB.
  pose proof (add_wf _ _ _ Hwf Hadd) as Hwf'.
  destruct (add_scalars _ _ _ Hadd) as (Hnc' & Hbs' & _ & HH' & Hp' & Hh').
  destruct (add_buffer _ _ _ Hadd) as (w1 & Hrun & Hb).
  pose proof Hwf as (HH & Hp & Hh & Hu & _).
  destruct (write_keys_written d w w1 k _k Hrun Hin) as (a' & Ha' & Hw');
    [lia|].
  destruct (write_keys_late d w k _k _ w1 ltac:(lia) Hnone Hrun) as [_ HQ].
  destruct (HQ _ Ha') as [Hlen Hnot].
  rewrite <- Hb in Ha'. exists a'. split; [done|]. split; [done|].
  intros i Hi Hip.
  assert (slots a' !! Z.to_nat i = Some None) as Hslot by (apply Hnot; lia).
  split; [done|].
  pose proof Hwf' as (HH1 & Hp1 & Hh1 & Hu' & _).
  set (s' := self w') in *.
  set (lo := sample_start s').
  set (B := py_or bsarg (batch_size s')).
  set (g := (λ _ : nat, i - lo) : rng).
  assert (_pointer s' - lo = _horizon_length s') as Hrange.
  { unfold lo, sample_start. case_bool_decide; lia. }
  pose proof (sample_ok bsarg (Some 1) (mk_World s' g)) as Hs.
  simpl in Hs. fold B in Hs.
  exists g. eexists _, _, _. split; [|split].
  - apply Hs; try done; try lia; unfold B; rewrite Hbs'; lia.
  - rewrite lookup2_gather_result, Ha'. done.
  - destruct (getitem_result_window s' 1 B (drawn_x s' 1 B g) (drawn_y s' B g)
                (n_copys s') a') as (c & dims & Hshape & Hcell).
    + by eapply lookup2_all_rings.
    + apply drawn_x_length.
    + lia.
    + assert (0 < B) as HB' by (unfold B; rewrite Hbs'; lia).
      destruct (lookup_lt_is_Some_2 (drawn_y s' B g) 0) as [y0 Hy0];
        [rewrite drawn_y_length; lia|].
      erewrite (Hcell 0%nat 0%nat); [| lia | | exact Hy0].
      2:{ unfold drawn_x. rewrite list_lookup_fmap, lookup_seq_lt by lia.
          simpl. reflexivity. }
      f_equal. unfold block, g. fold lo.
      replace (_pointer s' - 1 + 1 - lo) with (_horizon_length s') by lia.
      rewrite Z.add_0_l, Zplus_mod_idemp_r.
      replace (lo + (i - lo)) with i by lia.
      rewrite Z.mod_small by lia. by rewrite Hslot.
Qed.
End LateField.

(** * The properties at the scenario of the specification *)

Lemma sample_raises_iff_window_exceeds_fill_witness :
  fst (sample None None (mk_World fresh_buffer counting))
    = Raise AssertionError.
Proof.
  apply (sample_raises_iff_window_exceeds_fill None None
           (mk_World fresh_buffer counting)).
  simpl. lia.
Defined.

Lemma can_sample_spec_witness :
  0 < n_copys fresh_buffer ∧ 0 ≤ batch_size fresh_buffer ∧
  _horizon_length fresh_buffer < time_step fresh_buffer ∧
  can_sample fresh_buffer = false.
Proof.
  assert (0 < n_copys fresh_buffer) as Hn by (simpl; lia).
  assert (0 ≤ batch_size fresh_buffer) as Hb by (simpl; lia).
  assert (_horizon_length fresh_buffer < time_step fresh_buffer) as Hl
    by (simpl; lia).
  split; [exact Hn|]. split; [exact Hb|]. split; [exact Hl|].
  exact (proj2 (can_sample_spec fresh_buffer) Hn Hb Hl).
Defined.

Lemma sample_draws_aligned_windows_witness :
  let w := mk_World full_buffer counting in
  let s := self w in
  let B := py_or None (batch_size s) in
  let T := py_or None (time_step s) in
  let lo := if bool_decide (_horizon_length s = max_horizon s)
            then _pointer s - max_horizon s else 0 in
  let hi := _pointer s - T in
  let x := drawn_x s T B (np_random w) in
  let y := drawn_y s B (np_random w) in
  (wf s ∧ all_rings (has_copies (n_copys s)) (_buffer s) ∧
   0 < n_copys s ∧ 0 ≤ B ∧ T ≤ _horizon_length s) ∧
  (∃ res w',
     sample None None w = (Ok res, w') ∧
     same_structure (aligned_window s T x y) (_buffer s) res) ∧
  length x = Z.to_nat B ∧ length y = Z.to_nat B ∧
  Forall (λ xb, lo ≤ xb ≤ hi) x ∧
  Forall (λ yb, 0 ≤ yb < n_copys s) y ∧
  (∀ xv yv,
     length xv = Z.to_nat B → length yv = Z.to_nat B →
     Forall (λ xb, lo ≤ xb ≤ hi) xv →
     Forall (λ yb, 0 ≤ yb < n_copys s) yv →
     (∃ g, drawn_x s T B g = xv ∧ drawn_y s B g = yv) ∧
     ∀ m : nat,
       length (filter (λ r, drawn_x s T B (of_raw r) = xv ∧
                            drawn_y s B (of_raw r) = yv)
                 (raw_tuples (Z.to_nat B + Z.to_nat B)
                    (m * Z.to_nat (hi - lo + 1) * Z.to_nat (n_copys s)))) =
       ((m * Z.to_nat (n_copys s)) ^ Z.to_nat B *
        (m * Z.to_nat (hi - lo + 1)) ^ Z.to_nat B)%nat).
Proof.
  intros w s B T lo hi x y.
  assert (wf s) as Hwf by concrete.
  assert (all_rings (has_copies (n_copys s)) (_buffer s)) as Hc by concrete.
  assert (0 < n_copys s) as Hn by (vm_compute; reflexivity).
  assert (0 ≤ B) as HB by (vm_compute; discriminate).
  assert (T ≤ _horizon_length s) as HT by (vm_compute; discriminate).
  split; [split; [exact Hwf|split; [exact Hc|split; [exact Hn|
    split; [exact HB|exact HT]]]]|].
  exact (sample_draws_aligned_windows None None w Hwf Hc Hn HB HT).
Defined.

Lemma sample_reads_only_written_slots_witness :
  let w := mk_World two_buffer counting in
  adds (marked <$> [1; 2]) (mk_World fresh_buffer counting) = (Ok (), w) ∧
  ∃ res w',
    sample None (Some 1) w = (Ok res, w') ∧
    same_structure (from_slots 1 4 2 2) (_buffer (self w)) res.
Proof.
  intros w.
  assert (adds (marked <$> [1; 2]) (mk_World fresh_buffer counting)
          = (Ok (), w)) as Hrun by (vm_compute; reflexivity).
  split; [exact Hrun|].
  destruct (sample_reads_only_written_slots (schema (marked 1)) 2 4 8 2
              fresh_buffer counting (marked <$> [1; 2]) w None)
    as (res & w' & Hs & Hres).
  - reflexivity.
  - lia.
  - vm_compute; reflexivity.
  - apply marked_same_fields.
  - vm_compute. lia.
  - vm_compute. discriminate.
  - vm_compute. discriminate.
  - exact Hrun.
  - exists res, w'. split; [exact Hs|exact Hres].
Defined.

(** C2, as stated, fails: the three time slices [marked 1], [marked 2] and
    [with_extra 3] have consistent shapes, every array with the shape and
    the element type its field has in the store, and [3 <= max_horizon];
    the third brings the field [extra] of the key [agent_0] for the first
    time.  After the three calls [sample(timestep=1)] draws the start
    indices [0, 1, 2, 0] and returns, as first entry of that field, what
    copy [0] holds in time slot [0], which was never written. *)
Lemma late_field_is_sampled_unwritten :
  let ds := [marked 1; marked 2; with_extra 3] in
  let w0 := mk_World fresh_buffer counting in
  let w := mk_World late_buffer counting in
  (init 2 4 8 2 = Ok fresh_buffer ∧
   Z.of_nat (length ds) ≤ max_horizon fresh_buffer ∧
   adds [marked 1] w0 = (Ok (), mk_World one_buffer counting) ∧
   adds [marked 1; marked 2] w0 = (Ok (), mk_World two_buffer counting) ∧
   adds ds w0 = (Ok (), w) ∧
   shapes_agree (_buffer fresh_buffer) (marked 1) = true ∧
   shapes_agree (_buffer one_buffer) (marked 2) = true ∧
   shapes_agree (_buffer two_buffer) (with_extra 3) = true ∧
   Forall (copies_first 2) ds) ∧
  drawn_x (self w) 1 4 counting = [0; 1; 2; 0] ∧
  ∃ res a arr,
    fst (sample None (Some 1) w) = Ok res ∧
    lookup2 (_buffer (self w)) "agent_0" "extra" = Some a ∧
    slots a !! 0%nat = Some None ∧
    lookup2 res "agent_0" "extra" = Some arr ∧
    cell arr 0 0 = Some None ∧
    ¬ same_structure (from_slots 1 4 3 2) (_buffer (self w)) res.
Proof.
  intros ds w0 w. split; [|split; [vm_compute; reflexivity|]].
  - split; [reflexivity|]. split; [vm_compute; discriminate|].
    split; [vm_compute; reflexivity|]. split; [vm_compute; reflexivity|].
    split; [vm_compute; reflexivity|]. split; [vm_compute; reflexivity|].
    split; [vm_compute; reflexivity|]. split; [vm_compute; reflexivity|].
    repeat constructor; simpl; eauto.
  - assert (fst (sample None (Some 1) w) = late_sample) as Hs
      by (vm_compute; reflexivity).
    destruct late_sample as [res|e] eqn:Hres; [|discriminate Hres].
    unfold late_sample in Hres. injection Hres as <-.
    set (a := mk_ring [2]%nat np_int64 [None; None; Some [3; -3]; None]).
    set (arr := mk_batch [1; 4]%nat np_int64 [[None; None; Some [3]; None]]).
    assert (lookup2 (_buffer (self w)) "agent_0" "extra" = Some a) as Ha
      by reflexivity.
    eexists. exists a, arr.
    split; [exact Hs|]. split; [exact Ha|]. split; [reflexivity|].
    split; [reflexivity|]. split; [reflexivity|].
    intros Hall.
    destruct (same_structure_lookup2 _ _ _ _ _ _ Hall Ha)
      as (arr' & Harr & Hfrom).
    injection Harr as <-.
    destruct (Hfrom 0%nat 0%nat) as (slot & copy & v & _ & _ & _ & Hcell);
      [simpl; lia|simpl; lia|].
    discriminate Hcell.
Qed.

Lemma add_advances_pointer_and_wraps_witness :
  let w := mk_World full_buffer counting in
  let w' := mk_World next_buffer counting in
  add (marked 5) w = (Ok (), w') ∧
  _pointer (self w) = 0 ∧ _horizon_length (self w) = 4 ∧
  _pointer (self w') = 1 ∧ _horizon_length (self w') = 4 ∧
  ∃ a', lookup2 (_buffer (self w')) "agent_0" "reward" = Some a' ∧
        slots a' !! 0%nat = Some (Some (stored a' (mk_ndarray [2]%nat np_int64 [5; -5]))).
Proof.
  intros w w'.
  assert (add (marked 5) w = (Ok (), w')) as Hadd by (vm_compute; reflexivity).
  destruct add_advances_pointer_and_wraps as [Hstep Hwrap].
  destruct (Hstep _ _ _ Hadd) as (Hp' & Hh' & _).
  destruct (Hwrap 2 4 8 2 fresh_buffer counting (marked <$> [1; 2; 3; 4]) w)
    as (Hp & Hh & Hnext).
  { reflexivity. }
  { vm_compute; reflexivity. }
  { vm_compute; reflexivity. }
  { vm_compute; reflexivity. }
  destruct (Hnext (marked 5) w' "agent_0"%string
              [("obs"%string,
                 mk_ndarray [2; 3]%nat np_int64 [5; 105; 205; -5; -105; -205]);
               ("reward"%string, mk_ndarray [2]%nat np_int64 [5; -5])]
              "reward"%string (mk_ndarray [2]%nat np_int64 [5; -5]))
    as (a' & Ha' & Hs').
  { split; concrete. }
  { exact Hadd. }
  { vm_compute. left. }
  { vm_compute. right. left. }
  split; [exact Hadd|]. split; [exact Hp|]. split; [exact Hh|].
  split; [rewrite Hp', Hp; reflexivity|].
  split; [rewrite Hh', Hh; reflexivity|].
  exists a'. split; [exact Ha'|exact Hs'].
Defined.

Lemma sample_result_shape_witness :
  let w := mk_World full_buffer counting in
  fresh 2 4 8 2 counting = Ok (mk_World fresh_buffer counting) ∧
  adds (marked <$> [1; 2; 3; 4]) (mk_World fresh_buffer counting)
    = (Ok (), w) ∧
  max_horizon (self w) = 4 ∧
  ∃ res w',
    sample None None w = (Ok res, w') ∧
    same_structure
      (λ a arr, has_shape 2 4 a arr ∧ from_slots 2 4 4 2 a arr)
      (_buffer (self w)) res.
Proof.
  intros w.
  assert (fresh 2 4 8 2 counting = Ok (mk_World fresh_buffer counting))
    as Hfresh by reflexivity.
  assert (adds (marked <$> [1; 2; 3; 4]) (mk_World fresh_buffer counting)
          = (Ok (), w)) as Hrun by (vm_compute; reflexivity).
  split; [exact Hfresh|]. split; [exact Hrun|].
  exact (proj2 (proj2 (proj2 sample_result_shape)) counting _ w Hfresh Hrun).
Defined.

(** C8, as stated, fails: the field [begin_mask] of the key [global] holds
    [int32] slots of shape [[2, 1]]; a call of [add] that brings an [int64]
    array of shape [[1]] for it returns, and the slot at the pointer holds
    the value repeated for both copies and wrapped round to [int32]. *)
Lemma mismatched_write_is_accepted :
  let w := mk_World full_buffer counting in
  let d := [("global"%string, [("begin_mask"%string, wide_mask)])] in
  lookup2 (_buffer (self w)) "global" "begin_mask" = Some mask_ring ∧
  shape wide_mask ≠ slot_shape mask_ring ∧
  dtype wide_mask ≠ ring_dtype mask_ring ∧
  fst (add d w) = Ok () ∧
  lookup2 (_buffer (self (snd (add d w)))) "global" "begin_mask"
    = Some (set_slot mask_ring 0 [-2147483648; -2147483648]).
Proof.
  intros w d. split; [reflexivity|]. split; [discriminate|].
  split; [discriminate|]. split; vm_compute; reflexivity.
Qed.

Lemma write_fails_only_when_not_broadcastable_witness :
  let w := mk_World full_buffer counting in
  lookup2 (_buffer (self w)) "global" "begin_mask" = Some mask_ring ∧
  0 ≤ _pointer (self w) < Z.of_nat (length (slots mask_ring)) ∧
  add_field "global" "begin_mask" wide_mask w =
    (Ok (),
     put_ring "global" "begin_mask"
       (set_slot mask_ring 0 [-2147483648; -2147483648]) w).
Proof.
  intros w.
  assert (lookup2 (_buffer (self w)) "global" "begin_mask" = Some mask_ring)
    as Ha by reflexivity.
  assert (0 ≤ _pointer (self w) < Z.of_nat (length (slots mask_ring)))
    as Hp by (vm_compute; split; [discriminate|reflexivity]).
  split; [exact Ha|]. split; [exact Hp|].
  exact (write_fails_only_when_not_broadcastable
           "global" "begin_mask" wide_mask w mask_ring Ha Hp).
Defined.

Lemma add_failure_keeps_partial_writes_witness :
  let w := mk_World full_buffer counting in
  let w1 := snd (add_key "agent_0" [("obs"%string, good_obs)] w) in
  let w2 := snd (add_field "agent_0" "reward" bad_reward w1) in
  (write_keys [] w = (Ok (), w) ∧
   add_key "agent_0" (from_nested_dict [("obs"%string, good_obs)]) w
     = (Ok (), w1) ∧
   add_field "agent_0" "reward" bad_reward w1 = (Raise ValueError, w2)) ∧
  add [("agent_0"%string,
        from_nested_dict
          [("obs"%string, good_obs); ("reward"%string, bad_reward)])] w
    = (Raise ValueError, w2) ∧
  _pointer (self w2) = _pointer (self w) ∧
  _horizon_length (self w2) = _horizon_length (self w).
Proof.
  intros w w1 w2.
  assert (write_keys [] w = (Ok (), w)) as H0 by reflexivity.
  assert (add_key "agent_0" (from_nested_dict [("obs"%string, good_obs)]) w
          = (Ok (), w1)) as H1 by (vm_compute; reflexivity).
  assert (add_field "agent_0" "reward" bad_reward w1 = (Raise ValueError, w2))
    as H2 by (vm_compute; reflexivity).
  split; [split; [exact H0|split; [exact H1|exact H2]]|].
  destruct (add_failure_keeps_partial_writes [] "agent_0"
              [("obs"%string, good_obs)] "reward" bad_reward [] []
              w w w1 w2 ValueError H0 H1 H2) as (Hadd & Hp & Hh & _).
  split; [exact Hadd|]. split; [exact Hp|exact Hh].
Defined.

Lemma late_field_exposes_unwritten_slots_witness :
  let w := mk_World two_buffer counting in
  let w' := snd (add (with_extra 3) w) in
  (wf (self w) ∧
   lookup2 (_buffer (self w)) "agent_0" "extra" = None ∧
   in_slice (with_extra 3) "agent_0" "extra" ∧
   add (with_extra 3) w = (Ok (), w') ∧
   all_rings (has_copies (n_copys (self w'))) (_buffer (self w'))) ∧
  ∃ a',
    lookup2 (_buffer (self w')) "agent_0" "extra" = Some a' ∧
    slots a' !! 0%nat = Some None ∧
    ∃ g res w'' arr,
      sample None (Some 1) (mk_World (self w') g) = (Ok res, w'') ∧
      lookup2 res "agent_0" "extra" = Some arr ∧
      cell arr 0 0 = Some None.
Proof.
  intros w w'.
  assert (wf (self w)) as Hwf by concrete.
  assert (lookup2 (_buffer (self w)) "agent_0" "extra" = None) as Hnone
    by reflexivity.
  assert (in_slice (with_extra 3) "agent_0" "extra") as Hin.
  { eexists. split; [left|]. vm_compute. right. right. left. }
  assert (add (with_extra 3) w = (Ok (), w')) as Hadd
    by (vm_compute; reflexivity).
  assert (all_rings (has_copies (n_copys (self w'))) (_buffer (self w')))
    as Hc by concrete.
  split;
    [split; [exact Hwf|split; [exact Hnone|split; [exact Hin|
      split; [exact Hadd|exact Hc]]]]|].
  destruct (late_field_exposes_unwritten_slots (with_extra 3) w w'
              "agent_0" "extra" None Hwf Hnone Hin Hadd Hc)
    as (a' & Ha' & _ & Hrest).
  { vm_compute; reflexivity. }
  { vm_compute; reflexivity. }
  destruct (Hrest 0) as (Hslot & Hsample).
  { vm_compute. split; [discriminate|reflexivity]. }
  { vm_compute. discriminate. }
  exists a'. split; [exact Ha'|]. split; [exact Hslot|exact Hsample].
Defined.

(** * Further properties of the buffer *)

(** ** What a call of [add] leaves alone *)
Section AddFrame.
Context `{Numeric DType elem}.
Implicit Types (b : list (string * list (string * ring DType elem))).
Implicit Types (w : World DType elem) (s : DataBuffer DType elem).
Implicit Types (a : ring DType elem) (v : ndarray DType elem).
Implicit Types (d : list (string * Data (ndarray DType elem))).

Lemma same_but_slot_refl p a : same_but_slot p a a.
Proof. by repeat split. Qed.

Lemma same_but_slot_trans p a1 a2 a3 :
  same_but_slot p a1 a2 → same_but_slot p a2 a3 → same_but_slot p a1 a3.
Proof.
  intros (? & ? & ? & Hl1) (? & ? & ? & Hl2).
  repeat split; try congruence. intros i Hi. rewrite Hl2, Hl1; done.
Qed.

Lemma same_but_slot_set p a x : same_but_slot p a (set_slot a p x).
Proof.
  repeat split; [apply set_slot_length|].
  intros i Hi. unfold set_slot. simpl. by rewrite list_lookup_insert_ne.
Qed.

(** Both outcomes of [add] leave the store as its loops left it. *)
Lemma add_any_inv d w r w' :
  add d w = (r, w') →
  ∃ r1 w1, write_keys d w = (r1, w1) ∧
           _buffer (self w') = _buffer (self w1) ∧
           max_horizon (self w') = max_horizon (self w) ∧
           n_copys (self w') = n_copys (self w) ∧
           batch_size (self w') = batch_size (self w) ∧
           time_step (self w') = time_step (self w).
Proof.
  rewrite add_eq. destruct (write_keys d w) as [[[]|e] w1] eqn:Hk.
  - destruct (same_frame_fields _ _ (write_keys_frame _ _ _ _ Hk))
      as (Hn & Hb & Ht & HH & _).
    unfold advance. destruct (py_mod _ _); intros [= <- <-];
      exists (Ok ()), w1; simpl; by rewrite ?Hn, ?Hb, ?Ht, ?HH.
  - destruct (same_frame_fields _ _ (write_keys_frame _ _ _ _ Hk))
      as (Hn & Hb & Ht & HH & _).
    intros [= <- <-]. exists (Raise e), w1. by rewrite ?Hn, ?Hb, ?Ht, ?HH.
Qed.

Lemma add_field_same_but k1 _k1 v w1 r w2 k _k a :
  0 ≤ _pointer (self w1) →
  add_field k1 _k1 v w1 = (r, w2) →
  lookup2 (_buffer (self w1)) k _k = Some a →
  ∃ a', lookup2 (_buffer (self w2)) k _k = Some a' ∧
        same_but_slot (Z.to_nat (_pointer (self w1))) a a'.
Proof.
  intros Hp Hrun Ha.
  destruct (decide (k = k1 ∧ _k = _k1)) as [[-> ->]|Hne].
  2:{ rewrite (add_field_other _ _ _ _ _ _ _ _ Hrun Hne).
      exists a. split; [done|apply same_but_slot_refl]. }
  apply add_field_cases in Hrun
    as [[_ ->]|[(a0 & a' & Hk & Ha0 & Hs & _ & ->)|(a0 & _ & Hnone & _)]].
  - exists a. split; [done|apply same_but_slot_refl].
  - rewrite lookup2_put_ring, decide_True by done.
    exists a'. split; [done|].
    apply np_setitem_inv in Hs as (j & Hj & _ & ->).
    apply norm_index_nonneg in Hj as [-> _]; [|done].
    assert (a0 = a) as -> by congruence. apply same_but_slot_set.
  - congruence.
Qed.

Lemma write_keys_same_but d w r w' k _k a :
  0 ≤ _pointer (self w) →
  write_keys d w = (r, w') →
  lookup2 (_buffer (self w)) k _k = Some a →
  ∃ a', lookup2 (_buffer (self w')) k _k = Some a' ∧
        same_but_slot (Z.to_nat (_pointer (self w))) a a'.
Proof.
  intros Hp Hrun Ha. unfold write_keys in Hrun.
  set (Q := λ w1 : World DType elem,
         same_frame w w1 ∧
         ∃ a', lookup2 (_buffer (self w1)) k _k = Some a' ∧
               same_but_slot (Z.to_nat (_pointer (self w))) a a').
  cut (Q w'); [by intros [_ ?]|].
  assert (∀ k1 _k1 v w1 r1 w2,
            add_field k1 _k1 v w1 = (r1, w2) → Q w1 → Q w2) as Hstep.
  { intros k1 _k1 v w1 r1 w2 Hf [Hfr (a1 & Ha1 & Hs1)].
    destruct (same_frame_fields _ _ Hfr) as (_ & _ & _ & _ & _ & Hp1).
    split; [eapply same_frame_trans; [done|by eapply add_field_frame]|].
    assert (0 ≤ _pointer (self w1)) as Hp1' by lia.
    destruct (add_field_same_but _ _ _ _ _ _ k _k a1 Hp1' Hf Ha1)
      as (a2 & Ha2 & Hs2).
    exists a2. split; [done|]. rewrite Hp1 in Hs2.
    by eapply same_but_slot_trans. }
  eapply (for_each_preserve Q); [|exact Hrun|].
  - intros [k1 fs] w1 w2 r1 _ Hkey HQ. rewrite add_key_eq in Hkey.
    unfold write_fields in Hkey.
    eapply (for_each_preserve Q); [|exact Hkey|].
    + intros [_k1 v] w3 w4 r2 _ Hf HQ3. by eapply Hstep.
    + destruct HQ as [Hfr (a1 & Ha1 & Hs1)]. split.
      * eapply same_frame_trans; [done|apply ensure_key_frame].
      * exists a1. by rewrite ensure_key_lookup2.
  - split; [apply same_frame_refl|]. exists a. split; [done|].
    apply same_but_slot_refl.
Qed.

(** X1: whether it returns or raises, [add] keeps every array of the store
    under its key and field, with its slot shape, element type and number of
    slots, and changes no time slot of it but the one at the pointer. *)
Theorem add_touches_only_the_pointer_slot d w r w' k _k a :
  0 ≤ _pointer (self w) →
  add d w = (r, w') →
  lookup2 (_buffer (self w)) k _k = Some a →
  ∃ a', lookup2 (_buffer (self w')) k _k = Some a' ∧
        slot_shape a' = slot_shape a ∧ ring_dtype a' = ring_dtype a ∧
        length (slots a') = length (slots a) ∧
        ∀ i, i ≠ Z.to_nat (_pointer (self w)) → slots a' !! i = slots a !! i.
Proof.
  intros Hp (r1 & w1 & Hrun & Hb & _)%add_any_inv Ha. rewrite Hb.
  destruct (write_keys_same_but _ _ _ _ _ _ _ Hp Hrun Ha) as (a' & Ha' & Hs).
  exists a'. split; [done|exact Hs].
Qed.

(** X2: a field that the time slice does not have is left as it is by
    [add], the slot at the pointer included, although a call that returns
    moves the pointer past that slot. *)
Theorem add_leaves_absent_fields d w r w' k _k :
  add d w = (r, w') → ¬ in_slice d k _k →
  lookup2 (_buffer (self w')) k _k = lookup2 (_buffer (self w)) k _k.
Proof.
  intros (r1 & w1 & Hrun & Hb & _)%add_any_inv Hn. rewrite Hb.
  by eapply write_keys_other.
Qed.

(** X3: [add] keeps a well-formed buffer well formed, whether it returns or
    raises: the pointer stays inside the ring and equal to the fill counter
    until the ring has wrapped, the keys stay distinct and every array keeps
    [max_horizon] slots. *)
Theorem add_keeps_well_formed d w r w' :
  wf (self w) → add d w = (r, w') → wf (self w').
Proof.
  intros Hwf Hadd. destruct r as [[]|e]; [by eapply add_wf|].
  destruct (add_raise_inv _ _ _ _ Hadd) as (Hp & Hh & _).
  destruct (add_any_inv _ _ _ _ Hadd) as (r1 & w1 & Hrun & Hb & HH & _).
  destruct Hwf as (H1 & H2 & H3 & H4 & H5 & H6).
  unfold wf. rewrite Hp, Hh, HH, Hb.
  split; [done|]. split; [done|]. split; [done|]. split; [done|].
  split; [by eapply write_keys_is_dict|by eapply write_keys_lengths].
Qed.

(** X4: with [max_horizon = 0], which is what the constructor computes for
    [0 <= buffer_size < n_copys], every call of [add] raises and leaves the
    pointer and the fill counter as they are. *)
Theorem add_raises_without_horizon :
  (∀ nc bs bsz ts s0,
     0 ≤ bsz < nc → init nc bs bsz ts = Ok s0 → max_horizon s0 = 0) ∧
  (∀ d w,
     max_horizon (self w) = 0 →
     ∃ e w', add d w = (Raise e, w') ∧
             _pointer (self w') = _pointer (self w) ∧
             _horizon_length (self w') = _horizon_length (self w)).
Proof.
  split.
  - intros nc bs bsz ts s0 Hb [_ ->]%init_inv. simpl. by apply Z.div_small.
  - intros d w HH. destruct (add d w) as [[[]|e] w'] eqn:Hadd.
    + apply add_ok_inv in Hadd as (_ & _ & ? & _). done.
    + exists e, w'. split; [done|].
      by destruct (add_raise_inv _ _ _ _ Hadd) as (? & ? & _).
Qed.
End AddFrame.

(** ** Keys, items and [is_multi] *)
Section Keys.
Context `{Numeric DType elem}.
Implicit Types (b : list (string * list (string * ring DType elem))).
Implicit Types (w : World DType elem) (s : DataBuffer DType elem).
Implicit Types (a : ring DType elem) (v : ndarray DType elem).
Implicit Types (d : list (string * Data (ndarray DType elem))).

Lemma dict_set_keys_present {V} (k : string) (x : V) (l : list (string * V)) :
  k ∈ l.*1 → (dict_set k x l).*1 = l.*1.
Proof.
  induction l as [|[k0 x0] l IH]; simpl; [by intros ?%elem_of_nil|].
  destruct (decide (k = k0)) as [->|Hne]; [done|]. simpl.
  intros [?|?]%elem_of_cons; [done|]. f_equal. by apply IH.
Qed.

Lemma dict_set_keys_absent {V} (k : string) (x : V) (l : list (string * V)) :
  k ∉ l.*1 → (dict_set k x l).*1 = l.*1 ++ [k].
Proof.
  induction l as [|[k0 x0] l IH]; simpl; [done|].
  intros Hn. apply not_elem_of_cons in Hn as [Hne Hn].
  rewrite decide_False by done. simpl. f_equal. by apply IH.
Qed.

Lemma put_ring_keys_eq k _k a w :
  keys (self (put_ring k _k a w)) = keys (self w).
Proof.
  unfold put_ring, keys. destruct (dict_get k _) as [fields|] eqn:Hk; [|done].
  simpl. apply dict_set_keys_present, dict_get_keys. eauto.
Qed.

Lemma add_field_keys_eq k _k v w r w' :
  add_field k _k v w = (r, w') → keys (self w') = keys (self w).
Proof.
  intros Hrun. apply add_field_cases in Hrun
    as [[_ ->]|[(a & a' & _ & _ & _ & _ & ->)
               |(a & _ & _ & _ & [(a' & _ & _ & ->)|(e & _ & _ & ->)])]];
    first [done | apply put_ring_keys_eq].
Qed.

Lemma ensure_key_keys k w :
  keys (self (ensure_key k w)) = merge_keys (keys (self w)) [k].
Proof.
  unfold ensure_key, keys, merge_keys. simpl.
  destruct (dict_mem k _) eqn:Hm.
  - apply dict_mem_spec, dict_get_keys in Hm.
    by rewrite bool_decide_eq_true_2.
  - apply not_true_iff_false in Hm. rewrite dict_mem_spec, dict_get_keys in Hm.
    rewrite bool_decide_eq_false_2 by done. simpl.
    by apply dict_set_keys_absent.
Qed.

Lemma add_key_keys k (fs : Data (ndarray DType elem)) w r w' :
  add_key k fs w = (r, w') →
  keys (self w') = merge_keys (keys (self w)) [k].
Proof.
  rewrite add_key_eq. intros Hrun. rewrite <- ensure_key_keys.
  unfold write_fields in Hrun.
  eapply (for_each_preserve
            (λ w1, keys (self w1) = keys (self (ensure_key k w))));
    [|exact Hrun|done].
  intros [_k v] w1 w2 r1 _ Hf <-. by eapply add_field_keys_eq.
Qed.

Lemma merge_keys_prefix ks new : ks `prefix_of` merge_keys ks new.
Proof.
  revert ks. induction new as [|k new IH]; intros ks; simpl; [done|].
  unfold merge_keys in *. simpl. case_bool_decide; [apply IH|].
  etrans; [|apply IH]. by apply prefix_app_r.
Qed.

Lemma merge_keys_elem ks new k :
  k ∈ merge_keys ks new ↔ k ∈ ks ∨ k ∈ new.
Proof.
  revert ks. induction new as [|k0 new IH]; intros ks.
  - simpl. rewrite elem_of_nil. naive_solver.
  - unfold merge_keys in *. simpl. rewrite IH, elem_of_cons.
    case_bool_decide; [naive_solver|].
    rewrite elem_of_app, list_elem_of_singleton. naive_solver.
Qed.

Lemma merge_keys_nil new : NoDup new → merge_keys [] new = new.
Proof.
  intros Hnd. cut (∀ ks, NoDup (ks ++ new) → merge_keys ks new = ks ++ new).
  { intros Hc. by apply (Hc []). }
  clear Hnd. induction new as [|k new IH]; intros ks Hnd.
  - by rewrite app_nil_r.
  - unfold merge_keys in *. simpl.
    rewrite bool_decide_eq_false_2.
    + rewrite IH; rewrite <- app_assoc; done.
    + apply NoDup_app in Hnd as (_ & Hdis & _). intros Hin.
      apply (Hdis k Hin). by left.
Qed.

Lemma write_keys_keys d w r w' :
  write_keys d w = (r, w') →
  keys (self w) `prefix_of` keys (self w') ∧
  (∀ k, k ∈ keys (self w') → k ∈ keys (self w) ∨ k ∈ d.*1) ∧
  (r = Ok () → keys (self w') = merge_keys (keys (self w)) d.*1).
Proof.
  revert w. unfold write_keys.
  induction d as [|[k fs] d IH]; intros w.
  - intros [= <- <-]. split; [done|]. split; [auto|done].
  - rewrite for_each_cons.
    destruct (add_key k fs w) as [[[]|e] w1] eqn:Hkey.
    + intros Hrun. destruct (IH _ Hrun) as (Hp & Hin & Heq).
      pose proof (add_key_keys _ _ _ _ _ Hkey) as Hk1.
      split; [|split].
      * etrans; [|exact Hp]. rewrite Hk1. apply merge_keys_prefix.
      * intros k0 Hk0. destruct (Hin _ Hk0) as [Hk0'|?].
        -- rewrite Hk1 in Hk0'. apply merge_keys_elem in Hk0' as [?|Hk0'];
             [by left|]. right. apply list_elem_of_singleton in Hk0' as ->.
           by left.
        -- right. by right.
      * intros Hr. rewrite (Heq Hr), Hk1. done.
    + intros [= <- <-]. pose proof (add_key_keys _ _ _ _ _ Hkey) as Hk1.
      split; [|split; [|done]].
      * rewrite Hk1. apply merge_keys_prefix.
      * intros k0 Hk0. rewrite Hk1 in Hk0.
        apply merge_keys_elem in Hk0 as [?|Hk0]; [by left|].
        right. apply list_elem_of_singleton in Hk0 as ->. by left.
Qed.

Lemma add_keys_inv d w r w' :
  add d w = (r, w') →
  keys (self w) `prefix_of` keys (self w') ∧
  (∀ k, k ∈ keys (self w') → k ∈ keys (self w) ∨ k ∈ d.*1) ∧
  (r = Ok () → keys (self w') = merge_keys (keys (self w)) d.*1).
Proof.
  intros Hadd.
  destruct (add_any_inv _ _ _ _ Hadd) as (r1 & w1 & Hrun & Hb & _).
  assert (keys (self w') = keys (self w1)) as -> by (unfold keys; by rewrite Hb).
  destruct (write_keys_keys _ _ _ _ Hrun) as (Hp & Hin & Heq).
  split; [done|]. split; [done|]. intros ->. apply Heq.
  rewrite add_eq, Hrun in Hadd. by destruct r1 as [[]|].
Qed.

(** X5: [add] never removes or reorders a key: the keys before the call are
    a prefix of the keys after it, every other key comes from the time
    slice, and when the call returns the keys are those of the store
    followed by the new keys of the time slice in their order. *)
Theorem add_extends_keys d w r w' :
  add d w = (r, w') →
  keys (self w) `prefix_of` keys (self w') ∧
  (∀ k, k ∈ keys (self w') → k ∈ keys (self w) ∨ k ∈ d.*1) ∧
  (r = Ok () → keys (self w') = merge_keys (keys (self w)) d.*1).
Proof. apply add_keys_inv. Qed.

(** X6: [self[item]] raises [KeyError] exactly for an item that is not among
    the keys and changes nothing; after a call of [add] that returns, it
    returns for every key of the time slice a dict that has all the fields
    the time slice has under that key. *)
Theorem getitem_after_add :
  (∀ item w,
     (fst (__getitem__ item w) = Raise KeyError ↔ item ∉ keys (self w)) ∧
     snd (__getitem__ item w) = w) ∧
  (∀ d w w' k fs,
     add d w = (Ok (), w') → (k, fs) ∈ d →
     ∃ fields,
       __getitem__ k w' = (Ok fields, w') ∧
       (0 ≤ _pointer (self w) →
        ∀ _k, _k ∈ (nested_dict fs).*1 → is_Some (dict_get _k fields))).
Proof.
  split.
  - intros item w. unfold __getitem__, get_self, getitem, raise.
    unfold mbind, M_bind, mret, M_ret. simpl.
    destruct (dict_get item (_buffer (self w))) as [fields|] eqn:Hk; simpl.
    + split; [|done]. split; [done|]. intros Hn. destruct Hn.
      apply dict_get_keys. eauto.
    + split; [|done]. split; [|done]. intros _ Hin.
      apply dict_get_keys in Hin as [? ?]. congruence.
  - intros d w w' k fs Hadd Hin.
    destruct (add_keys_inv _ _ _ _ Hadd) as (_ & _ & Heq).
    assert (k ∈ keys (self w')) as Hk.
    { rewrite (Heq eq_refl). apply merge_keys_elem. right.
      apply list_elem_of_fmap. by exists (k, fs). }
    apply dict_get_keys in Hk as [fields Hf].
    exists fields. split.
    + unfold __getitem__, get_self, getitem.
      unfold mbind, M_bind, mret, M_ret. simpl. by rewrite Hf.
    + intros Hp _k H_k.
      destruct (add_buffer _ _ _ Hadd) as (w1 & Hrun & Hb).
      destruct (write_keys_written d w w1 k _k Hrun) as (a & Ha & _);
        [by exists fs|done|].
      rewrite <- Hb in Ha. unfold lookup2 in Ha. rewrite Hf in Ha.
      simpl in Ha. eauto.
Qed.

(** X7: [is_multi] never goes back from true to false under [add]; and after
    the first call of [add] that returns, made on a store without keys with
    a time slice that is a dict, the keys are those of the time slice and
    [is_multi] is true exactly when the time slice has more than two keys. *)
Theorem is_multi_after_add :
  (∀ d w r w',
     add d w = (r, w') → is_multi (self w) = true →
     is_multi (self w') = true) ∧
  (∀ d w w',
     _buffer (self w) = [] → is_dict d → add d w = (Ok (), w') →
     keys (self w') = d.*1 ∧
     (is_multi (self w') = true ↔ (2 < length d)%nat)).
Proof.
  split.
  - intros d w r w' Hadd. unfold is_multi. rewrite !bool_decide_eq_true.
    destruct (add_keys_inv _ _ _ _ Hadd) as (Hp & _).
    apply prefix_length in Hp. unfold keys in Hp. rewrite !length_fmap in Hp.
    lia.
  - intros d w w' Hb Hd Hadd.
    destruct (add_keys_inv _ _ _ _ Hadd) as (_ & _ & Heq).
    specialize (Heq eq_refl). unfold keys at 2 in Heq. rewrite Hb in Heq.
    simpl in Heq. rewrite merge_keys_nil in Heq by done.
    split; [done|]. unfold is_multi. rewrite bool_decide_eq_true.
    unfold keys in Heq.
    assert (length (_buffer (self w')) = length d) as ->.
    { by rewrite <- (length_fmap fst (_buffer (self w'))), Heq, length_fmap. }
    lia.
Qed.
End Keys.

(** ** When [add] returns, and the counters *)
Section AddReturns.
Context `{Numeric DType elem}.
Implicit Types (b : list (string * list (string * ring DType elem))).
Implicit Types (w : World DType elem) (s : DataBuffer DType elem).
Implicit Types (a : ring DType elem) (v : ndarray DType elem).
Implicit Types (d : list (string * Data (ndarray DType elem))).
Implicit Types (ds : list (list (string * Data (ndarray DType elem)))).

(** X8: on a well-formed buffer, a call of [add] with a time slice that is a
    dict returns exactly when every array of the time slice whose field has
    an array in the store can be broadcast to the slots of that array; the
    arrays of new fields are always taken. *)
Theorem add_returns_iff_arrays_fit d w :
  wf (self w) → slice_is_dict d →
  (∃ w', add d w = (Ok (), w')) ↔ fits (_buffer (self w)) d.
Proof.
  intros Hwf Hd. split; [|by apply add_total].
  intros [w' Hadd] k fs _k _v a Hin Hv Ha.
  destruct (add_buffer _ _ _ Hadd) as (w1 & Hrun & _).
  pose proof Hwf as (_ & Hp & _). destruct Hd as [Hd Hf].
  destruct (write_keys_hit d w w1 k fs _k _v Hrun Hd Hf Hin Hv)
    as (a' & Ha' & Hb & _); [lia|].
  destruct (write_keys_same_but d w (Ok ()) w1 k _k a)
    as (a'' & Ha'' & Hs & _); [lia|done|done|].
  assert (a'' = a') as -> by congruence. by rewrite <- Hs.
Qed.

(** X9: after [n] calls of [add] that return on a new buffer with a positive
    horizon, the pointer is [n mod max_horizon], the fill counter is
    [min n max_horizon], and the parameters are those of the constructor. *)
Theorem counters_after_adds nc bs bsz ts s0 g ds w :
  init nc bs bsz ts = Ok s0 → 0 < max_horizon s0 →
  adds ds (mk_World s0 g) = (Ok (), w) →
  _pointer (self w) = Z.of_nat (length ds) mod (bsz / nc) ∧
  _horizon_length (self w) = Z.min (Z.of_nat (length ds)) (bsz / nc) ∧
  max_horizon (self w) = bsz / nc ∧
  n_copys (self w) = nc ∧ batch_size (self w) = bs ∧ time_step (self w) = ts.
Proof.
  intros Hinit HH Hrun.
  pose proof (init_wf _ _ _ _ _ Hinit HH) as Hwf.
  destruct (adds_scalars ds (mk_World s0 g) w Hwf Hrun)
    as (_ & Hn & Hb & Ht & HH' & Hp & Hh).
  apply init_inv in Hinit as [_ ->]. simpl in *.
  by rewrite Hp, Hh, HH', Hn, Hb, Ht.
Qed.

(** X10: after [n] calls of [add] that return on a new buffer, [can_sample]
    is true exactly when [(min n max_horizon - time_step) * n_copys >=
    batch_size]; so a buffer with [(max_horizon - time_step) * n_copys <
    batch_size] and a positive number of copies never gets there. *)
Theorem can_sample_after_adds nc bs bsz ts s0 g ds w :
  init nc bs bsz ts = Ok s0 → 0 < max_horizon s0 →
  adds ds (mk_World s0 g) = (Ok (), w) →
  (can_sample (self w) = true ↔
   (Z.min (Z.of_nat (length ds)) (bsz / nc) - ts) * nc >= bs) ∧
  (0 < nc → (bsz / nc - ts) * nc < bs → can_sample (self w) = false).
Proof.
  intros Hinit HH Hrun.
  pose proof (init_wf _ _ _ _ _ Hinit HH) as Hwf.
  destruct (adds_scalars ds (mk_World s0 g) w Hwf Hrun)
    as (_ & Hn & Hb & Ht & HH' & Hp & Hh).
  apply init_inv in Hinit as [_ ->]. simpl in *.
  unfold can_sample. rewrite Hh, Hn, Hb, Ht. split.
  - apply bool_decide_eq_true.
  - intros Hnc Hsmall. apply bool_decide_eq_false. nia.
Qed.

(** X11: on a well-formed buffer with a number of copies that is not
    negative, [can_sample] stays true under [add], whether the call returns
    or raises. *)
Theorem can_sample_stays_true d w r w' :
  wf (self w) → 0 ≤ n_copys (self w) →
  add d w = (r, w') → can_sample (self w) = true →
  can_sample (self w') = true.
Proof.
  intros (HH & Hp & Hh & _) Hnc Hadd. unfold can_sample.
  rewrite !bool_decide_eq_true.
  destruct (add_any_inv _ _ _ _ Hadd) as (_ & _ & _ & _ & _ & -> & -> & ->).
  destruct r as [[]|e].
  - destruct (add_scalars _ _ _ Hadd) as (_ & _ & _ & _ & _ & ->). nia.
  - destruct (add_raise_inv _ _ _ _ Hadd) as (_ & -> & _). done.
Qed.

(** X12: the constructor raises [ZeroDivisionError] exactly for
    [n_copys = 0]; for a positive number of copies the ring it sizes never
    holds more than [buffer_size] transitions and leaves fewer than
    [n_copys] of them unused. *)
Theorem init_capacity nc bs bsz ts :
  (init (DType := DType) (elem := elem) nc bs bsz ts = Raise ZeroDivisionError
   ↔ nc = 0) ∧
  (0 < nc →
   ∃ s0, init nc bs bsz ts = Ok s0 ∧ _buffer s0 = [] ∧
         _pointer s0 = 0 ∧ _horizon_length s0 = 0 ∧
         max_horizon s0 * nc ≤ bsz < (max_horizon s0 + 1) * nc).
Proof.
  unfold init, py_floordiv. split.
  - destruct (nc =? 0) eqn:Hn; simpl; split; try done; lia.
  - intros Hnc. destruct (nc =? 0) eqn:Hn; [lia|]. simpl.
    eexists. split; [done|]. simpl. repeat split; try done.
    + pose proof (Z.mul_div_le bsz nc Hnc). lia.
    + pose proof (Z.mul_succ_div_gt bsz nc Hnc). lia.
Qed.
End AddReturns.

(** ** [can_sample] and [sample] *)
Section SampleGuards.
Context `{Numeric DType elem}.
Implicit Types (b : list (string * list (string * ring DType elem))).
Implicit Types (w : World DType elem) (s : DataBuffer DType elem).
Implicit Types (a : ring DType elem).

(** X13: on a well-formed buffer whose arrays have a leading axis for the
    copies, with positive [n_copys] and [batch_size], [can_sample] is enough
    for [sample()] to return: it makes the fill counter exceed [time_step]. *)
Theorem can_sample_guards_sample w :
  let s := self w in
  wf s → all_rings (has_copies (n_copys s)) (_buffer s) →
  0 < n_copys s → 0 < batch_size s →
  can_sample s = true →
  time_step s < _horizon_length s ∧
  ∃ res w', sample None None w = (Ok res, w').
Proof.
  intros s Hwf Hc Hnc Hbs Hcan. unfold can_sample in Hcan.
  apply bool_decide_eq_true in Hcan. fold s in Hcan.
  assert (time_step s < _horizon_length s) as Hlt by nia.
  split; [done|]. eexists _, _. apply sample_ok; simpl; fold s; try done; lia.
Qed.


End SampleGuards.

(** ** More on [sample] *)
Section SampleMore.
Context `{Numeric DType elem}.
Implicit Types (b : list (string * list (string * ring DType elem))).
Implicit Types (w : World DType elem) (s : DataBuffer DType elem).
Implicit Types (a : ring DType elem) (v : ndarray DType elem).
Implicit Types (d : list (string * Data (ndarray DType elem))).

Lemma lookup2_elem b k _k a :
  lookup2 b k _k = Some a → ∃ fs, (k, fs) ∈ b ∧ (_k, a) ∈ fs.
Proof.
  assert (∀ V (l : list (string * V)) key x,
            dict_get key l = Some x → (key, x) ∈ l) as Hel.
  { intros V l key x. induction l as [|[k0 x0] l IH]; simpl; [done|].
    destruct (decide (key = k0)) as [->|].
    - intros [= <-]. by left.
    - intros. right. auto. }
  unfold lookup2. destruct (dict_get k b) as [fs|] eqn:Hk; [simpl|done].
  intros Ha. exists fs. split; by apply Hel.
Qed.

Lemma same_structure_elem {X Y} (R : X → Y → Prop)
    (l : list (string * list (string * X)))
    (res : list (string * list (string * Y))) k fs _k u :
  same_structure R l res → (k, fs) ∈ l → (_k, u) ∈ fs → ∃ z, R u z.
Proof.
  intros Hs Hin Hu. apply list_elem_of_lookup in Hin as [i Hi].
  destruct (Forall2_lookup_l _ _ _ _ _ Hs Hi) as ([k' fr] & _ & _ & Hf).
  simpl in Hf. apply list_elem_of_lookup in Hu as [j Hj].
  destruct (Forall2_lookup_l _ _ _ _ _ Hf Hj) as ([_k' z] & _ & _ & Hz).
  by exists z.
Qed.

(** X15: a field whose arrays were given to [add] without a leading axis
    (arrays of rank zero) makes every call of [sample] that gets as far as
    the gathering raise [IndexError]. *)
Theorem sample_raises_on_rank_zero_field bs ts w k _k a :
  let s := self w in
  let B := py_or bs (batch_size s) in
  let T := py_or ts (time_step s) in
  wf s → T ≤ _horizon_length s → 0 ≤ B → 0 < n_copys s →
  lookup2 (_buffer s) k _k = Some a → slot_shape a = [] →
  fst (sample bs ts w) = Raise IndexError.
Proof.
  intros s B T Hwf HT HB Hnc Ha Hshape. rewrite sample_eq. fold s B T. simpl.
  rewrite bool_decide_eq_true_2 by done.
  pose proof (sample_range_nonempty s T Hwf HT).
  destruct (randint _ _ _ _) as [[x|e] g1] eqn:Hx; simpl.
  2:{ apply randint_raise in Hx as (_ & _ & [?|?] & _); lia. }
  clear Hx.
  destruct (randint _ _ _ _) as [[y|e] g2] eqn:Hy; simpl.
  2:{ apply randint_raise in Hy as (_ & _ & [?|?] & _); lia. }
  clear Hy.
  destruct (gather _ _ _) as [res|e] eqn:Hg.
  - apply gather_inv in Hg.
    destruct (lookup2_elem _ _ _ _ Ha) as (fs & Hin & Hel).
    destruct (same_structure_elem _ _ _ _ _ _ _ Hg Hin Hel) as (arr & Harr).
    unfold np_getitem in Harr. by rewrite Hshape in Harr.
  - by apply gather_raise in Hg as ->.
Qed.

(** X16: what [add] has just stored can be read back: after a call of [add]
    that returns, for every field of the time slice and every copy [j]
    there is a state of the generator in which the first entry of that field
    in the result of [sample(timestep=1)] is the part of copy [j] of what
    [add] stored for the field. *)
Theorem sample_reads_back_the_last_slice d w w' bsarg k fs _k _v j :
  wf (self w) → slice_is_dict d → add d w = (Ok (), w') →
  all_rings (has_copies (n_copys (self w'))) (_buffer (self w')) →
  0 < py_or bsarg (batch_size (self w)) →
  (k, fs) ∈ d → (_k, _v) ∈ nested_dict fs → 0 ≤ j < n_copys (self w) →
  ∃ g res w'' a' arr,
    sample bsarg (Some 1) (mk_World (self w') g) = (Ok res, w'') ∧
    lookup2 (_buffer (self w')) k _k = Some a' ∧
    lookup2 res k _k = Some arr ∧
    cell arr 0 0 =
      Some (Some (take (prod_shape (tail (slot_shape a')))
                    (drop (Z.to_nat j * prod_shape (tail (slot_shape a')))
                       (stored a' _v)))).
Proof.
  intros Hwf [Hd Hf] Hadd Hcp HB Hin Hv Hj.
  pose proof (add_wf _ _ _ Hwf Hadd) as Hwf'.
  destruct (add_scalars _ _ _ Hadd) as (Hnc' & Hbs' & _ & HH' & Hp' & Hh').
  destruct (add_buffer _ _ _ Hadd) as (w1 & Hrun & Hb).
  pose proof Hwf as (HH & Hp & Hh & Hu & _).
  destruct (write_keys_hit d w w1 k fs _k _v Hrun Hd Hf Hin Hv)
    as (a' & Ha' & _ & Hslot); [lia|].
  rewrite <- Hb in Ha'.
  pose proof Hwf' as (HH1 & Hp1 & Hh1 & Hu' & _).
  set (s' := self w') in *.
  set (lo := sample_start s').
  set (B := py_or bsarg (batch_size s')).
  assert (0 < B) as HB' by (unfold B; rewrite Hbs'; lia).
  set (g := (λ i : nat, if bool_decide (i < Z.to_nat B)%nat
                        then _horizon_length s' - 1 else j) : rng).
  assert (_pointer s' - lo = _horizon_length s') as Hrange.
  { unfold lo, sample_start. case_bool_decide; lia. }
  assert (1 ≤ _horizon_length s') as Hpos by lia.
  assert ((_pointer s' - 1) mod _horizon_length s' = _pointer (self w))
    as Hlast.
  { destruct (decide (_horizon_length s' = max_horizon s')) as [Heq|Hne].
    - rewrite Heq, Hp', HH', Zminus_mod_idemp_l.
      replace (_pointer (self w) + 1 - 1) with (_pointer (self w)) by lia.
      apply Z.mod_small. lia.
    - assert (_pointer s' = _horizon_length s') as -> by (apply Hu'; lia).
      rewrite Z.mod_small by lia. lia. }
  pose proof (sample_ok bsarg (Some 1) (mk_World s' g)) as Hs.
  simpl in Hs. fold B in Hs.
  exists g. eexists _, _, a', _. split; [|split; [done|split]].
  - apply Hs; try done; lia.
  - rewrite lookup2_gather_result, Ha'. done.
  - destruct (getitem_result_window s' 1 B (drawn_x s' 1 B g) (drawn_y s' B g)
                (n_copys s') a') as (c & dims & Hshape & Hcell).
    + by eapply lookup2_all_rings.
    + apply drawn_x_length.
    + lia.
    + erewrite (Hcell 0%nat 0%nat); [| lia | |].
      2:{ unfold drawn_x. rewrite list_lookup_fmap, lookup_seq_lt by lia.
          simpl. reflexivity. }
      2:{ unfold drawn_y. rewrite list_lookup_fmap, lookup_seq_lt by lia.
          simpl. reflexivity. }
      f_equal. unfold block, g. fold lo.
      rewrite (bool_decide_eq_false_2 (Z.to_nat B < Z.to_nat B)%nat) by lia.
      rewrite (bool_decide_eq_true_2 (0 < Z.to_nat B)%nat) by lia.
      replace (_pointer s' - 1 + 1 - lo) with (_horizon_length s') by lia.
      rewrite (Z.mod_small (_horizon_length s' - 1)) by lia.
      replace (Z.of_nat 0 + (lo + (_horizon_length s' - 1)))
        with (_pointer s' - 1) by lia.
      rewrite Hlast, Hslot. simpl.
      rewrite Z.sub_0_r, Z.mod_small by lia. rewrite Hshape. done.
Qed.

(** X17: the steps of a sampled window follow the order of writing. The
    rank [age] of a time slot is kept by [add]: a call that returns gives
    the slot it wrote the highest rank of the filled part, and lowers the
    rank of every other filled slot by one once the ring has wrapped,
    leaving it as it is before. On a well-formed buffer, for every start
    index [sample] draws and every step [t] with [t + 1 < T], the time slot
    of step [t + 1] has the rank next to that of step [t]: no window runs
    over the pointer from the newest slot to the oldest. *)
Theorem sampled_windows_follow_the_write_order :
  (∀ d w w', wf (self w) → add d w = (Ok (), w') →
     age (self w') (_pointer (self w)) = _horizon_length (self w') - 1 ∧
     ∀ j, 0 ≤ j < _horizon_length (self w) → j ≠ _pointer (self w) →
          age (self w') j =
          age (self w) j -
          (if bool_decide (_horizon_length (self w) = max_horizon (self w))
           then 1 else 0)) ∧
  (∀ s T B g xb t,
     wf s → T ≤ _horizon_length s →
     xb ∈ drawn_x s T B g → 0 ≤ t → t + 1 < T →
     age s ((t + 1 + xb) mod _horizon_length s) =
     age s ((t + xb) mod _horizon_length s) + 1).
Proof.
  assert (∀ h z, 0 < h → - h ≤ z < 0 → z mod h = z + h) as Hneg.
  { intros h z Hh Hz. rewrite <- (Z.mod_add z 1) by lia.
    rewrite Z.mul_1_l. apply Z.mod_small. lia. }
  split.
  - intros d w w' Hwf Hadd. pose proof Hwf as (HH & Hp & Hh & Hu & _).
    destruct (add_scalars _ _ _ Hadd) as (_ & _ & _ & HH' & Hp' & Hh').
    unfold age. rewrite HH', Hp', Hh'.
    set (h := max_horizon (self w)) in *.
    set (p := _pointer (self w)) in *.
    set (n := _horizon_length (self w)) in *.
    destruct (decide (n = h)) as [Hw|Hw].
    + (* the ring has wrapped before the call *)
      rewrite Hw, Z.min_r by lia. rewrite !bool_decide_eq_true_2 by done.
      rewrite !Zminus_mod_idemp_r. split.
      * replace (p - (p + 1)) with (-1) by lia. rewrite Hneg by lia. lia.
      * intros j Hj Hne.
        assert ((j - p) mod h ≠ 0) as Hnz.
        { destruct (decide (p ≤ j)).
          - rewrite Z.mod_small by lia. lia.
          - rewrite Hneg by lia. lia. }
        pose proof (Z.mod_pos_bound (j - p) h HH).
        rewrite Zminus_mod_idemp_r.
        replace (j - (p + 1)) with (j - p - 1) by lia.
        rewrite <- (Zminus_mod_idemp_l (j - p) 1 h). apply Z.mod_small. lia.
    + assert (p = n) as Hpn by (apply Hu; lia).
      rewrite (bool_decide_eq_false_2 (n = h)) by done.
      rewrite Z.min_l by lia. case_bool_decide as Hw'.
      * (* the call fills the last slot *)
        rewrite Hpn, Hw', Z_mod_same_full, !Z.sub_0_r.
        split; [rewrite Z.mod_small by lia; lia|].
        intros j Hj _. apply Z.mod_small. lia.
      * split; [lia|]. intros j _ _. lia.
  - intros s T B g xb t Hwf HT Hx Ht0 Ht.
    pose proof Hwf as (HH & Hp & Hh & Hu & _).
    pose proof (drawn_x_range s T B g (sample_range_nonempty s T Hwf HT)) as Hr.
    rewrite Forall_forall in Hr. specialize (Hr _ Hx). simpl in Hr.
    unfold age, sample_start in *. case_bool_decide as Hw.
    + rewrite Hw, !Zminus_mod_idemp_l.
      rewrite (Hneg _ (t + 1 + xb - _pointer s)) by lia.
      rewrite (Hneg _ (t + xb - _pointer s)) by lia. lia.
    + rewrite !Z.mod_small by lia. lia.
Qed.
End SampleMore.

(** ** The first write of a field *)
Section FirstWrite.
Context `{Numeric DType elem}.
Implicit Types (w : World DType elem) (s : DataBuffer DType elem).
Implicit Types (a : ring DType elem) (v : ndarray DType elem).
Implicit Types (d : list (string * Data (ndarray DType elem))).

Lemma concat_chunks {A} (n k : nat) (l : list A) :
  (length l ≤ n * k)%nat → concat (chunks n k l) = l.
Proof.
  revert l. induction k as [|k IH]; intros l Hl; simpl.
  - destruct l; [done|simpl in Hl; lia].
  - rewrite IH; [apply take_drop|]. rewrite length_drop. lia.
Qed.

Lemma expand_same (sh : list nat) (l : list elem) :
  (length l ≤ prod_shape sh)%nat → expand sh sh l = l.
Proof.
  revert l. induction sh as [|c sh IH]; intros l Hl; simpl; [done|].
  rewrite decide_True by done.
  assert (∀ k (l0 : list elem), (length l0 ≤ prod_shape sh * k)%nat →
            expand sh sh <$> chunks (prod_shape sh) k l0
            = chunks (prod_shape sh) k l0) as Hch.
  { induction k as [|k IHk]; intros l0 Hl0; simpl; [done|].
    rewrite IH by (rewrite length_take; lia).
    rewrite IHk; [done|]. rewrite length_drop. lia. }
  simpl in Hl. rewrite Hch by lia. apply concat_chunks. lia.
Qed.

Lemma stored_same a v :
  slot_shape a = shape v → ring_dtype a = dtype v →
  length (items v) = prod_shape (shape v) → stored a v = items v.
Proof.
  intros Hs Hd Hl. unfold stored. rewrite Hs, Hd, align_shape_same.
  rewrite expand_same by lia.
  transitivity (id <$> items v); [|apply list_fmap_id].
  apply list_fmap_ext. intros. unfold convert. by rewrite decide_True.
Qed.

(** An array the loops of [add] have made for a field the store did not
    have has the shape and the element type of an array the time slice has
    for that field. *)
Lemma write_keys_new_field d w r w' k _k a :
  lookup2 (_buffer (self w)) k _k = None → write_keys d w = (r, w') →
  lookup2 (_buffer (self w')) k _k = Some a →
  ∃ fs _v, (k, fs) ∈ d ∧ (_k, _v) ∈ nested_dict fs ∧
           slot_shape a = shape _v ∧ ring_dtype a = dtype _v.
Proof.
  intros Hnone Hrun. revert a.
  set (Q := λ w1 : World DType elem,
         ∀ a, lookup2 (_buffer (self w1)) k _k = Some a →
              ∃ fs _v, (k, fs) ∈ d ∧ (_k, _v) ∈ nested_dict fs ∧
                       slot_shape a = shape _v ∧ ring_dtype a = dtype _v).
  unfold write_keys in Hrun.
  eapply (for_each_preserve Q); [|exact Hrun|].
  - intros [k1 fs1] w1 w2 r1 Hin1 Hkey Hinv. rewrite add_key_eq in Hkey.
    unfold write_fields in Hkey.
    eapply (for_each_preserve Q); [|exact Hkey|].
    + intros [_k1 v] w3 w4 r2 Hin2 Hf Hinv3 a2 Ha2.
      destruct (decide (k = k1 ∧ _k = _k1)) as [[<- <-]|Hne].
      2:{ rewrite (add_field_other _ _ _ _ _ _ _ _ Hf Hne) in Ha2. auto. }
      apply add_field_cases in Hf
        as [[_ ->]|[(a & a' & Hk & Ha & Hs & _ & ->)
                   |(a & Hk & Ha & He & [(a' & Hs & _ & ->)|(e & Hs & _ & ->)])]];
        [auto|..]; rewrite lookup2_put_ring, decide_True in Ha2 by done;
        injection Ha2 as <-.
      * apply np_setitem_inv in Hs as (j & _ & _ & ->). simpl. auto.
      * apply np_setitem_inv in Hs as (j & _ & _ & ->).
        apply np_empty_inv in He as [_ ->]. simpl. exists fs1, v. done.
      * apply np_empty_inv in He as [_ ->]. simpl. exists fs1, v. done.
    + intros a. rewrite ensure_key_lookup2. apply Hinv.
  - intros a. by rewrite Hnone.
Qed.

(** X18: the first write defines the field: when a call of [add] that
    returns brings an array for a field the store does not have, the store
    gets an array of [max_horizon] slots with the shape and the element type
    of that array, and the slot at the pointer holds its elements as they
    are, neither repeated nor converted. *)
Theorem first_write_defines_the_field d w w' k fs _k _v :
  0 ≤ _pointer (self w) → slice_is_dict d → add d w = (Ok (), w') →
  lookup2 (_buffer (self w)) k _k = None →
  (k, fs) ∈ d → (_k, _v) ∈ nested_dict fs →
  ∃ a', lookup2 (_buffer (self w')) k _k = Some a' ∧
        slot_shape a' = shape _v ∧ ring_dtype a' = dtype _v ∧
        length (slots a') = Z.to_nat (max_horizon (self w)) ∧
        (length (items _v) = prod_shape (shape _v) →
         slots a' !! Z.to_nat (_pointer (self w)) = Some (Some (items _v))).
Proof.
  intros Hp Hdict Hadd Hnone Hin Hv. pose proof Hdict as [Hd Hf].
  destruct (add_buffer _ _ _ Hadd) as (w1 & Hrun & Hb).
  destruct (write_keys_hit d w w1 k fs _k _v Hrun Hd Hf Hin Hv Hp)
    as (a' & Ha' & _ & Hslot).
  destruct (write_keys_new_field _ _ _ _ _ _ _ Hnone Hrun Ha')
    as (fs' & _v' & Hin' & Hv' & Hsh & Hdt).
  assert (_v' = _v) as ->
    by exact (slice_field_unique d k fs fs' _k _v _v' Hdict Hin Hv Hin' Hv').
  destruct (write_keys_late d w k _k _ _ Hp Hnone Hrun) as [_ Hlate].
  destruct (Hlate _ Ha') as [Hlen _].
  exists a'. rewrite Hb. split; [done|]. split; [done|]. split; [done|].
  split; [done|]. intros Hitems. rewrite Hslot. by rewrite stored_same.
Qed.
End FirstWrite.

(** ** The arguments of [sample] *)
Section SampleArguments.
Context `{Numeric DType elem}.
Implicit Types (w : World DType elem).

(** X19: [sample] takes an argument [0] as an absent argument:
    [sample(batchsize=0)] draws [batch_size] windows, not none, and
    [sample(timestep=0)] draws windows of [time_step] steps; so a call
    [sample(0, 0)] that returns gives arrays of the shape
    [[time_step, batch_size, ...]]. *)
Theorem sample_takes_zero_as_absent bs ts w :
  sample (Some 0) ts w = sample None ts w ∧
  sample bs (Some 0) w = sample bs None w ∧
  ∀ res w', sample (Some 0) (Some 0) w = (Ok res, w') →
    same_structure
      (batch_of_shape (time_step (self w)) (batch_size (self w)))
      (_buffer (self w)) res.
Proof.
  split; [done|]. split; [done|]. intros res w' Hs.
  by apply sample_shapes in Hs.
Qed.
End SampleArguments.

(** * The further properties at the scenario of the specification *)

Lemma add_touches_only_the_pointer_slot_witness :
  let w := mk_World full_buffer counting in
  let w' := snd (add bad_slice w) in
  (0 ≤ _pointer (self w) ∧ add bad_slice w = (Raise ValueError, w') ∧
   lookup2 (_buffer (self w)) "global" "begin_mask" = Some mask_ring) ∧
  ∃ a', lookup2 (_buffer (self w')) "global" "begin_mask" = Some a' ∧
        slot_shape a' = slot_shape mask_ring ∧
        ring_dtype a' = ring_dtype mask_ring ∧
        length (slots a') = length (slots mask_ring) ∧
        ∀ i, i ≠ Z.to_nat (_pointer (self w)) →
             slots a' !! i = slots mask_ring !! i.
Proof.
  intros w w'.
  assert (0 ≤ _pointer (self w)) as Hp by (vm_compute; discriminate).
  assert (add bad_slice w = (Raise ValueError, w')) as Hadd
    by (vm_compute; reflexivity).
  assert (lookup2 (_buffer (self w)) "global" "begin_mask" = Some mask_ring)
    as Ha by reflexivity.
  split; [split; [exact Hp|split; [exact Hadd|exact Ha]]|].
  exact (add_touches_only_the_pointer_slot bad_slice w (Raise ValueError) w'
           "global" "begin_mask" mask_ring Hp Hadd Ha).
Defined.

Lemma add_leaves_absent_fields_witness :
  let w := mk_World full_buffer counting in
  let w' := snd (add bad_slice w) in
  (add bad_slice w = (Raise ValueError, w') ∧
   ¬ in_slice bad_slice "global" "begin_mask") ∧
  lookup2 (_buffer (self w')) "global" "begin_mask"
    = lookup2 (_buffer (self w)) "global" "begin_mask".
Proof.
  intros w w'.
  assert (add bad_slice w = (Raise ValueError, w')) as Hadd
    by (vm_compute; reflexivity).
  assert (¬ in_slice bad_slice "global" "begin_mask") as Hn.
  { intros (fs & Hin & _). apply list_elem_of_singleton in Hin.
    discriminate Hin. }
  split; [split; [exact Hadd|exact Hn]|].
  exact (add_leaves_absent_fields bad_slice w (Raise ValueError) w'
           "global" "begin_mask" Hadd Hn).
Defined.

Lemma add_keeps_well_formed_witness :
  let w := mk_World full_buffer counting in
  let w' := snd (add bad_slice w) in
  (wf (self w) ∧ add bad_slice w = (Raise ValueError, w')) ∧ wf (self w').
Proof.
  intros w w'.
  assert (wf (self w)) as Hwf by concrete.
  assert (add bad_slice w = (Raise ValueError, w')) as Hadd
    by (vm_compute; reflexivity).
  split; [split; [exact Hwf|exact Hadd]|].
  exact (add_keeps_well_formed bad_slice w (Raise ValueError) w' Hwf Hadd).
Defined.

Lemma add_raises_without_horizon_witness :
  (0 ≤ 1 < 2 ∧ init 2 4 1 2 = Ok flat_buffer ∧ max_horizon flat_buffer = 0) ∧
  ∃ e w',
    add (marked 1) (mk_World flat_buffer counting) = (Raise e, w') ∧
    _pointer (self w') = 0 ∧ _horizon_length (self w') = 0.
Proof.
  destruct (add_raises_without_horizon (DType := IntType) (elem := Z))
    as [Hinit Hadd].
  assert (0 ≤ 1 < 2) as Hb by lia.
  assert (init 2 4 1 2 = Ok flat_buffer) as Hi by reflexivity.
  pose proof (Hinit 2 4 1 2 flat_buffer Hb Hi) as HH.
  split; [split; [exact Hb|split; [exact Hi|exact HH]]|].
  exact (Hadd (marked 1) (mk_World flat_buffer counting) HH).
Defined.

Lemma add_extends_keys_witness :
  let w := mk_World one_buffer counting in
  let w' := snd (add (two_agents 2) w) in
  add (two_agents 2) w = (Ok (), w') ∧
  keys (self w) `prefix_of` keys (self w') ∧
  (∀ k, k ∈ keys (self w') → k ∈ keys (self w) ∨ k ∈ (two_agents 2).*1) ∧
  (Ok () = Ok () →
   keys (self w') = merge_keys (keys (self w)) (two_agents 2).*1).
Proof.
  intros w w'.
  assert (add (two_agents 2) w = (Ok (), w')) as Hadd
    by (vm_compute; reflexivity).
  split; [exact Hadd|].
  exact (add_extends_keys (two_agents 2) w (Ok ()) w' Hadd).
Defined.

Lemma getitem_after_add_witness :
  let w := mk_World full_buffer counting in
  let w' := mk_World next_buffer counting in
  ("nobody"%string ∉ keys (self w) ∧
   add (marked 5) w = (Ok (), w') ∧
   ("global"%string,
     [("begin_mask"%string, mk_ndarray [2; 1]%nat np_int32 [5; -5])])
     ∈ marked 5) ∧
  fst (__getitem__ "nobody" w) = Raise KeyError ∧
  ∃ fields,
    __getitem__ "global" w' = (Ok fields, w') ∧
    (0 ≤ _pointer (self w) →
     ∀ _k, _k ∈ (nested_dict
                   [("begin_mask"%string,
                      mk_ndarray [2; 1]%nat np_int32 [5; -5])]).*1 →
           is_Some (dict_get _k fields)).
Proof.
  intros w w'.
  destruct (getitem_after_add (DType := IntType) (elem := Z))
    as [Hmiss Hhit].
  assert ("nobody"%string ∉ keys (self w)) as Hn
    by (apply (bool_decide_unpack _); vm_compute; exact I).
  assert (add (marked 5) w = (Ok (), w')) as Hadd
    by (vm_compute; reflexivity).
  assert (("global"%string,
            [("begin_mask"%string, mk_ndarray [2; 1]%nat np_int32 [5; -5])])
            ∈ marked 5) as Hin by (vm_compute; right; left).
  split; [split; [exact Hn|split; [exact Hadd|exact Hin]]|].
  split; [exact (proj2 (proj1 (Hmiss "nobody"%string w)) Hn)|].
  exact (Hhit (marked 5) w w' "global"%string _ Hadd Hin).
Defined.

Lemma is_multi_after_add_witness :
  let w0 := mk_World fresh_buffer counting in
  let w := snd (add (two_agents 1) w0) in
  let w' := snd (add (marked 2) w) in
  (_buffer (self w0) = [] ∧ is_dict (two_agents 1) ∧
   add (two_agents 1) w0 = (Ok (), w) ∧
   add (marked 2) w = (Ok (), w') ∧ is_multi (self w) = true) ∧
  (keys (self w) = (two_agents 1).*1 ∧
   (is_multi (self w) = true ↔ (2 < length (two_agents 1))%nat)) ∧
  is_multi (self w') = true.
Proof.
  intros w0 w w'.
  destruct (is_multi_after_add (DType := IntType) (elem := Z))
    as [Hmono Hfirst].
  assert (_buffer (self w0) = []) as Hb by reflexivity.
  assert (is_dict (two_agents 1)) as Hd by concrete.
  assert (add (two_agents 1) w0 = (Ok (), w)) as Hadd
    by (vm_compute; reflexivity).
  assert (add (marked 2) w = (Ok (), w')) as Hadd'
    by (vm_compute; reflexivity).
  assert (is_multi (self w) = true) as Hm by (vm_compute; reflexivity).
  split; [split; [exact Hb|split; [exact Hd|split; [exact Hadd|
    split; [exact Hadd'|exact Hm]]]]|].
  split; [exact (Hfirst (two_agents 1) w0 w Hb Hd Hadd)|].
  exact (Hmono (marked 2) w (Ok ()) w' Hadd' Hm).
Defined.

Lemma add_returns_iff_arrays_fit_witness :
  let w := mk_World full_buffer counting in
  let w' := mk_World next_buffer counting in
  (wf (self w) ∧ slice_is_dict (marked 5) ∧ add (marked 5) w = (Ok (), w')) ∧
  fits (_buffer (self w)) (marked 5).
Proof.
  intros w w'.
  assert (wf (self w)) as Hwf by concrete.
  assert (slice_is_dict (marked 5)) as Hd by (split; concrete).
  assert (add (marked 5) w = (Ok (), w')) as Hadd
    by (vm_compute; reflexivity).
  split; [split; [exact Hwf|split; [exact Hd|exact Hadd]]|].
  exact (proj1 (add_returns_iff_arrays_fit (marked 5) w Hwf Hd)
           (ex_intro _ w' Hadd)).
Defined.

Lemma counters_after_adds_witness :
  let w := mk_World next_buffer counting in
  (init 2 4 8 2 = Ok fresh_buffer ∧ 0 < max_horizon fresh_buffer ∧
   adds (marked <$> [1; 2; 3; 4; 5]) (mk_World fresh_buffer counting)
     = (Ok (), w)) ∧
  _pointer (self w) = Z.of_nat 5 mod (8 / 2) ∧
  _horizon_length (self w) = Z.min (Z.of_nat 5) (8 / 2) ∧
  max_horizon (self w) = 8 / 2 ∧
  n_copys (self w) = 2 ∧ batch_size (self w) = 4 ∧ time_step (self w) = 2.
Proof.
  intros w.
  assert (init 2 4 8 2 = Ok fresh_buffer) as Hi by reflexivity.
  assert (0 < max_horizon fresh_buffer) as HH by (simpl; lia).
  assert (adds (marked <$> [1; 2; 3; 4; 5]) (mk_World fresh_buffer counting)
          = (Ok (), w)) as Hrun by (vm_compute; reflexivity).
  split; [split; [exact Hi|split; [exact HH|exact Hrun]]|].
  exact (counters_after_adds 2 4 8 2 fresh_buffer counting
           (marked <$> [1; 2; 3; 4; 5]) w Hi HH Hrun).
Defined.

Lemma can_sample_after_adds_witness :
  let w := mk_World two_buffer counting in
  (init 2 4 8 2 = Ok fresh_buffer ∧ 0 < max_horizon fresh_buffer ∧
   adds (marked <$> [1; 2]) (mk_World fresh_buffer counting) = (Ok (), w)) ∧
  (can_sample (self w) = true ↔
   (Z.min (Z.of_nat 2) (8 / 2) - 2) * 2 >= 4) ∧
  (0 < 2 → (8 / 2 - 2) * 2 < 4 → can_sample (self w) = false).
Proof.
  intros w.
  assert (init 2 4 8 2 = Ok fresh_buffer) as Hi by reflexivity.
  assert (0 < max_horizon fresh_buffer) as HH by (simpl; lia).
  assert (adds (marked <$> [1; 2]) (mk_World fresh_buffer counting)
          = (Ok (), w)) as Hrun by (vm_compute; reflexivity).
  split; [split; [exact Hi|split; [exact HH|exact Hrun]]|].
  exact (can_sample_after_adds 2 4 8 2 fresh_buffer counting
           (marked <$> [1; 2]) w Hi HH Hrun).
Defined.

Lemma can_sample_stays_true_witness :
  let w := mk_World full_buffer counting in
  let w' := snd (add bad_slice w) in
  (wf (self w) ∧ 0 ≤ n_copys (self w) ∧
   add bad_slice w = (Raise ValueError, w') ∧ can_sample (self w) = true) ∧
  can_sample (self w') = true.
Proof.
  intros w w'.
  assert (wf (self w)) as Hwf by concrete.
  assert (0 ≤ n_copys (self w)) as Hn by (simpl; lia).
  assert (add bad_slice w = (Raise ValueError, w')) as Hadd
    by (vm_compute; reflexivity).
  assert (can_sample (self w) = true) as Hc by (vm_compute; reflexivity).
  split; [split; [exact Hwf|split; [exact Hn|split; [exact Hadd|exact Hc]]]|].
  exact (can_sample_stays_true bad_slice w (Raise ValueError) w'
           Hwf Hn Hadd Hc).
Defined.

Lemma init_capacity_witness :
  0 < 3 ∧
  init (DType := IntType) (elem := Z) 0 4 8 2 = Raise ZeroDivisionError ∧
  ∃ s0 : DataBuffer IntType Z,
    init 3 4 8 2 = Ok s0 ∧ _buffer s0 = [] ∧
    _pointer s0 = 0 ∧ _horizon_length s0 = 0 ∧
    max_horizon s0 * 3 ≤ 8 < (max_horizon s0 + 1) * 3.
Proof.
  assert (0 < 3) as Hn by lia.
  split; [exact Hn|].
  split; [exact (proj2 (proj1 (init_capacity 0 4 8 2)) eq_refl)|].
  exact (proj2 (init_capacity 3 4 8 2) Hn).
Defined.

Lemma can_sample_guards_sample_witness :
  let w := mk_World full_buffer counting in
  (wf (self w) ∧
   all_rings (has_copies (n_copys (self w))) (_buffer (self w)) ∧
   0 < n_copys (self w) ∧ 0 < batch_size (self w) ∧
   can_sample (self w) = true) ∧
  time_step (self w) < _horizon_length (self w) ∧
  ∃ res w', sample None None w = (Ok res, w').
Proof.
  intros w.
  assert (wf (self w)) as Hwf by concrete.
  assert (all_rings (has_copies (n_copys (self w))) (_buffer (self w)))
    as Hc by concrete.
  assert (0 < n_copys (self w)) as Hn by (simpl; lia).
  assert (0 < batch_size (self w)) as Hb by (simpl; lia).
  assert (can_sample (self w) = true) as Hs by (vm_compute; reflexivity).
  split; [split; [exact Hwf|split; [exact Hc|split; [exact Hn|
    split; [exact Hb|exact Hs]]]]|].
  exact (can_sample_guards_sample w Hwf Hc Hn Hb Hs).
Defined.


Lemma sample_raises_on_rank_zero_field_witness :
  let w := mk_World scalar_buffer counting in
  (adds [scalar_slice; scalar_slice] (mk_World fresh_buffer counting)
     = (Ok (), w) ∧
   wf (self w) ∧
   py_or None (time_step (self w)) ≤ _horizon_length (self w) ∧
   0 ≤ py_or None (batch_size (self w)) ∧ 0 < n_copys (self w) ∧
   lookup2 (_buffer (self w)) "agent_0" "step" = Some scalar_ring ∧
   slot_shape scalar_ring = []) ∧
  fst (sample None None w) = Raise IndexError.
Proof.
  intros w.
  assert (adds [scalar_slice; scalar_slice] (mk_World fresh_buffer counting)
          = (Ok (), w)) as Hrun by (vm_compute; reflexivity).
  assert (wf (self w)) as Hwf by concrete.
  assert (py_or None (time_step (self w)) ≤ _horizon_length (self w)) as HT
    by (vm_compute; discriminate).
  assert (0 ≤ py_or None (batch_size (self w))) as HB
    by (vm_compute; discriminate).
  assert (0 < n_copys (self w)) as Hn by (simpl; lia).
  assert (lookup2 (_buffer (self w)) "agent_0" "step" = Some scalar_ring)
    as Ha by reflexivity.
  assert (slot_shape scalar_ring = []) as Hs by reflexivity.
  split; [split; [exact Hrun|split; [exact Hwf|split; [exact HT|
    split; [exact HB|split; [exact Hn|split; [exact Ha|exact Hs]]]]]]|].
  exact (sample_raises_on_rank_zero_field None None w "agent_0" "step"
           scalar_ring Hwf HT HB Hn Ha Hs).
Defined.

Lemma sample_reads_back_the_last_slice_witness :
  let w := mk_World full_buffer counting in
  let w' := mk_World next_buffer counting in
  let fs := [("obs"%string,
               mk_ndarray [2; 3]%nat np_int64 [5; 105; 205; -5; -105; -205]);
             ("reward"%string, mk_ndarray [2]%nat np_int64 [5; -5])] in
  let _v := mk_ndarray [2]%nat np_int64 [5; -5] in
  (wf (self w) ∧ slice_is_dict (marked 5) ∧
   add (marked 5) w = (Ok (), w') ∧
   all_rings (has_copies (n_copys (self w'))) (_buffer (self w')) ∧
   0 < py_or None (batch_size (self w)) ∧
   ("agent_0"%string, fs) ∈ marked 5 ∧
   ("reward"%string, _v) ∈ nested_dict fs ∧ 0 ≤ 1 < n_copys (self w)) ∧
  ∃ g res w'' a' arr,
    sample None (Some 1) (mk_World (self w') g) = (Ok res, w'') ∧
    lookup2 (_buffer (self w')) "agent_0" "reward" = Some a' ∧
    lookup2 res "agent_0" "reward" = Some arr ∧
    cell arr 0 0 =
      Some (Some (take (prod_shape (tail (slot_shape a')))
                    (drop (Z.to_nat 1 * prod_shape (tail (slot_shape a')))
                       (stored a' _v)))).
Proof.
  intros w w' fs _v.
  assert (wf (self w)) as Hwf by concrete.
  assert (slice_is_dict (marked 5)) as Hd by (split; concrete).
  assert (add (marked 5) w = (Ok (), w')) as Hadd
    by (vm_compute; reflexivity).
  assert (all_rings (has_copies (n_copys (self w'))) (_buffer (self w')))
    as Hc by concrete.
  assert (0 < py_or None (batch_size (self w))) as HB
    by (vm_compute; reflexivity).
  assert (("agent_0"%string, fs) ∈ marked 5) as Hin by (vm_compute; left).
  assert (("reward"%string, _v) ∈ nested_dict fs) as Hv
    by (vm_compute; right; left).
  assert (0 ≤ 1 < n_copys (self w)) as Hj by (simpl; lia).
  split; [split; [exact Hwf|split; [exact Hd|split; [exact Hadd|
    split; [exact Hc|split; [exact HB|split; [exact Hin|
    split; [exact Hv|exact Hj]]]]]]]|].
  exact (sample_reads_back_the_last_slice (marked 5) w w' None "agent_0" fs
           "reward" _v 1 Hwf Hd Hadd Hc HB Hin Hv Hj).
Defined.

Lemma sampled_windows_follow_the_write_order_witness :
  let w := mk_World full_buffer counting in
  let w' := mk_World next_buffer counting in
  (wf (self w) ∧ add (marked 5) w = (Ok (), w') ∧
   wf (self w') ∧ 2 ≤ _horizon_length (self w') ∧
   -1 ∈ drawn_x (self w') 2 4 counting ∧ 0 ≤ 0 ∧ 0 + 1 < 2) ∧
  age (self w') (_pointer (self w)) = _horizon_length (self w') - 1 ∧
  age (self w') ((0 + 1 + -1) mod _horizon_length (self w')) =
  age (self w') ((0 + -1) mod _horizon_length (self w')) + 1.
Proof.
  intros w w'.
  destruct (sampled_windows_follow_the_write_order
              (DType := IntType) (elem := Z)) as [Hadds Hwin].
  assert (wf (self w)) as Hwf by concrete.
  assert (add (marked 5) w = (Ok (), w')) as Hadd
    by (vm_compute; reflexivity).
  assert (wf (self w')) as Hwf' by concrete.
  assert (2 ≤ _horizon_length (self w')) as HT
    by (vm_compute; discriminate).
  assert (-1 ∈ drawn_x (self w') 2 4 counting) as Hx
    by (apply (bool_decide_unpack _); vm_compute; exact I).
  assert (0 ≤ 0) as Ht0 by lia.
  assert (0 + 1 < 2) as Ht by lia.
  split; [split; [exact Hwf|split; [exact Hadd|split; [exact Hwf'|
    split; [exact HT|split; [exact Hx|split; [exact Ht0|exact Ht]]]]]]|].
  split; [exact (proj1 (Hadds (marked 5) w w' Hwf Hadd))|].
  exact (Hwin (self w') 2 4 counting (-1) 0 Hwf' HT Hx Ht0 Ht).
Defined.

Lemma first_write_defines_the_field_witness :
  let w := mk_World two_buffer counting in
  let w' := snd (add (with_extra 3) w) in
  let fs := [("obs"%string,
               mk_ndarray [2; 3]%nat np_int64 [3; 103; 203; -3; -103; -203]);
             ("reward"%string, mk_ndarray [2]%nat np_int64 [3; -3]);
             ("extra"%string, mk_ndarray [2]%nat np_int64 [3; -3])] in
  let _v := mk_ndarray [2]%nat np_int64 [3; -3] in
  (0 ≤ _pointer (self w) ∧ slice_is_dict (with_extra 3) ∧
   add (with_extra 3) w = (Ok (), w') ∧
   lookup2 (_buffer (self w)) "agent_0" "extra" = None ∧
   ("agent_0"%string, fs) ∈ with_extra 3 ∧
   ("extra"%string, _v) ∈ nested_dict fs ∧
   length (items _v) = prod_shape (shape _v)) ∧
  ∃ a', lookup2 (_buffer (self w')) "agent_0" "extra" = Some a' ∧
        slot_shape a' = shape _v ∧ ring_dtype a' = dtype _v ∧
        length (slots a') = Z.to_nat (max_horizon (self w)) ∧
        slots a' !! Z.to_nat (_pointer (self w)) = Some (Some (items _v)).
Proof.
  intros w w' fs _v.
  assert (0 ≤ _pointer (self w)) as Hp by (vm_compute; discriminate).
  assert (slice_is_dict (with_extra 3)) as Hd by (split; concrete).
  assert (add (with_extra 3) w = (Ok (), w')) as Hadd
    by (vm_compute; reflexivity).
  assert (lookup2 (_buffer (self w)) "agent_0" "extra" = None) as Hnone
    by reflexivity.
  assert (("agent_0"%string, fs) ∈ with_extra 3) as Hin
    by (vm_compute; left).
  assert (("extra"%string, _v) ∈ nested_dict fs) as Hv
    by (vm_compute; right; right; left).
  assert (length (items _v) = prod_shape (shape _v)) as Hl by reflexivity.
  split; [split; [exact Hp|split; [exact Hd|split; [exact Hadd|
    split; [exact Hnone|split; [exact Hin|split; [exact Hv|exact Hl]]]]]]|].
  destruct (first_write_defines_the_field (with_extra 3) w w' "agent_0" fs
              "extra" _v Hp Hd Hadd Hnone Hin Hv)
    as (a' & Ha' & Hsh & Hdt & Hlen & Hslot).
  exists a'. split; [exact Ha'|]. split; [exact Hsh|]. split; [exact Hdt|].
  split; [exact Hlen|exact (Hslot Hl)].
Defined.

Lemma sample_takes_zero_as_absent_witness :
  let w := mk_World full_buffer counting in
  ∃ res w',
    sample (Some 0) (Some 0) w = (Ok res, w') ∧
    same_structure
      (batch_of_shape (time_step (self w)) (batch_size (self w)))
      (_buffer (self w)) res.
Proof.
  intros w.
  assert (wf (self w)) as Hwf by concrete.
  assert (all_rings (has_copies (n_copys (self w))) (_buffer (self w)))
    as Hc by concrete.
  assert (0 < n_copys (self w)) as Hn by (simpl; lia).
  assert (0 < py_or (Some 0) (batch_size (self w))) as HB
    by (vm_compute; reflexivity).
  assert (py_or (Some 0) (time_step (self w)) ≤ _horizon_length (self w))
    as HT by (vm_compute; discriminate).
  pose proof (sample_ok (Some 0) (Some 0) w Hwf Hc Hn HB HT) as Hs.
  eexists _, _. split; [exact Hs|].
  exact (proj2 (proj2 (sample_takes_zero_as_absent None None w)) _ _ Hs).
Defined.
